(** * veo-batch: the remote operation driver and the queue processor

    A shallow embedding of [services/geminiService.ts] (the driver
    [generateVideo] with its helpers [wait] and [sanitizeKey]), of the
    key-only variant of the same driver, and of [App.tsx] (the queue
    processor [processQueue] and the handlers around it).

    Conventions.
    - JavaScript strings are [string]s; the model covers strings whose code
      units are below 256.  A falsy string ([undefined] or [""]) is [""].
    - JavaScript numbers that the code only uses as integers are [Z].
    - The environment (remote API, timers, the user pressing Stop, [fetch])
      is a script of replies; every [await] of the source is one tick of a
      clock, and the user may press Stop during any tick. *)

From Stdlib Require Import String Ascii List ZArith Lia Bool Arith.
From Stdlib Require QArith Qpower Qminmax.
From Stdlib Require Import DecimalString.
Import ListNotations.
Local Open Scope string_scope.
Local Open Scope list_scope.

(** String concatenation, kept apart from list append. *)
Infix "+++" := String.append (right associativity, at level 60).

(** ** JavaScript string primitives *)

Module Js.

(** White space removed by [String.prototype.trim], restricted to code units
    below 256: TAB, LF, VT, FF, CR, SPACE and NBSP. *)
Definition is_ws (c : ascii) : bool :=
  let n := nat_of_ascii c in
  (((9 <=? n) && (n <=? 13)) || (n =? 32) || (n =? 160))%nat.

Fixpoint trimStart (s : string) : string :=
  match s with
  | EmptyString => EmptyString
  | String c s' => if is_ws c then trimStart s' else s
  end.

Fixpoint trimEnd (s : string) : string :=
  match s with
  | EmptyString => EmptyString
  | String c s' =>
      match trimEnd s' with
      | EmptyString => if is_ws c then EmptyString else String c EmptyString
      | t => String c t
      end
  end.

Definition trim (s : string) : string := trimEnd (trimStart s).

Definition startsWith (s p : string) : bool := prefix p s.

Definition endsWith (s p : string) : bool :=
  (String.length p <=? String.length s)%nat &&
  (substring (String.length s - String.length p) (String.length p) s =? p).

(** [s.includes(p)] *)
Definition includes (s p : string) : bool :=
  match index 0 p s with Some _ => true | None => false end.

(** [s.slice(b, e)] with JavaScript's treatment of negative indices. *)
Definition slice (s : string) (b e : Z) : string :=
  let len := Z.of_nat (String.length s) in
  let from := if (b <? 0)%Z then Z.max (len + b) 0 else Z.min b len in
  let to := if (e <? 0)%Z then Z.max (len + e) 0 else Z.min e len in
  substring (Z.to_nat from) (Z.to_nat (to - from)) s.

Fixpoint all_ws (s : string) : bool :=
  match s with
  | EmptyString => true
  | String c s' => is_ws c && all_ws s'
  end.

(** Truthiness of a string. *)
Definition truthy (s : string) : bool :=
  match s with EmptyString => false | _ => true end.

(** [a || b] on strings. *)
Definition or_else (a b : string) : string := if truthy a then a else b.

(** Decimal rendering of an integer, as template literals do. *)
Definition show_Z (z : Z) : string := NilZero.string_of_int (Z.to_int z).

(** [Math.round] of [n / d] for a positive divisor: round half up. *)
Definition round_div (n d : Z) : Z := ((2 * n + d) / (2 * d))%Z.

End Js.

(** ** [sanitizeKey] *)

Definition dquote : string := String (ascii_of_nat 34) EmptyString.
Definition squote : string := String (ascii_of_nat 39) EmptyString.

(** [sanitizeKey]; [None] is [undefined]. *)
Definition sanitizeKey (key : string) : option string :=
  if negb (Js.truthy key) then None
  else
    let k := Js.trim key in
    if (Js.startsWith k dquote && Js.endsWith k dquote)
       || (Js.startsWith k squote && Js.endsWith k squote)
    then Some (Js.slice k 1 (-1))
    else Some k.





(** ** Data model ([types.ts] and the shapes the driver reads) *)

Inductive JobStatus := PENDING | PROCESSING | COMPLETED | FAILED.

Inductive Resolution := R720p | R1080p.
Inductive AspectRatio := A16x9 | A9x16.

Record ProcessingConfig := {
  prompt : string;
  resolution : Resolution;
  aspectRatio : AspectRatio
}.

Record VertexConfig := {
  projectId : string;
  location : string;
  accessToken : string
}.

Record File := {
  file_name : string;
  file_type : string;
  file_bytes : string
}.

Definition Blob := string.

(** A thrown value, with the properties the code inspects: [name],
    [message], [status], [code], and the text [JSON.stringify] gives. *)
Record JsError := {
  e_name : string;
  e_message : string;
  e_status : option Z;
  e_code : option Z;
  e_json : string
}.

(** [new Error(msg)] *)
Definition Error (msg : string) : JsError :=
  {| e_name := "Error"; e_message := msg; e_status := None; e_code := None;
     e_json := "{}" |}.

(** [new DOMException(msg, 'AbortError')] *)
Definition AbortException (msg : string) : JsError :=
  {| e_name := "AbortError"; e_message := msg; e_status := None;
     e_code := Some 20%Z; e_json := "{}" |}.

(** [new TypeError(msg)] *)
Definition TypeError (msg : string) : JsError :=
  {| e_name := "TypeError"; e_message := msg; e_status := None; e_code := None;
     e_json := "{}" |}.

(** The long-running operation, as far as the driver reads it.  An absent
    string is [""], an absent object or array is [None]. *)
Record Video := { uri : string }.
Record GeneratedVideo := { video : option Video }.
Record OpResponse := {
  raiMediaFilteredReasons : option (list string);
  generatedVideos : option (list GeneratedVideo)
}.
Record OpError := { op_message : string }.
Record Operation := {
  op_name : string;
  op_done : bool;
  op_error : option OpError;
  op_response : option OpResponse;
  op_result : option OpResponse
}.

(** The credential handed to [new GoogleGenAI]. *)
Inductive Credential :=
| VertexAI (project loc token : string)
| ApiKey (key : string).

Record SubmitRequest := {
  sr_model : string;
  sr_prompt : string;
  sr_imageBytes : string;
  sr_mimeType : string;
  sr_numberOfVideos : Z;
  sr_resolution : Resolution;
  sr_aspectRatio : AspectRatio;
  sr_durationSeconds : Z
}.

(** [credentials: 'omit'] or the option left out. *)
Inductive CredentialsMode := Omit | Unset.

Record FetchRequest := {
  fr_url : string;
  fr_headers : list (string * string);
  fr_credentials : CredentialsMode
}.

(** What the driver does to the outside, in order. *)
Inductive Effect :=
| EInit (c : Credential)
| EProgress (s : string)
| EEncode (f : File)
| ESubmit (r : SubmitRequest)
| EWait (ms : Z)
| EPoll (op : Operation)
| EFetch (r : FetchRequest)
| EBlob.

(** The platform's [URL] class. *)
Class UrlApi := {
  URL : Type;
  (** [new URL(s)]: the message of the [TypeError], or the parsed URL *)
  URL_new : string -> string + URL;
  (** [url.searchParams.set(k, v)] *)
  URL_set : URL -> string -> string -> URL;
  (** [url.searchParams.append(k, v)] *)
  URL_append : URL -> string -> string -> URL;
  URL_toString : URL -> string
}.

(** ** The environment of one driver call *)

Inductive FetchReply :=
| FetchRejected (msg : string)
| FetchResponse (ok : bool) (statusText : string) (body : string + Blob).

Record Env := {
  (** the signal is already aborted when the driver is called *)
  pre_aborted : bool;
  (** the await (counted from 0) during which the user presses Stop *)
  stop_at : option nat;
  (** message of the exception a cancelled [fetch] rejects with *)
  abort_message : string;
  (** [process.env.API_KEY] *)
  env_key : string;
  encode_reply : JsError + string;
  submit_replies : list (JsError + Operation);
  poll_replies : list (JsError + Operation);
  fetch_reply : FetchReply
}.

(** ** A monad for the driver: clock, trace of effects, exceptions *)

Inductive Outcome (A : Type) :=
| Returned (a : A)
| Thrown (e : JsError)
| Awaiting.
Arguments Returned {A} a.
Arguments Thrown {A} e.
Arguments Awaiting {A}.

Record Res (A : Type) := mkRes {
  out : Outcome A;
  clk : nat;
  trace : list Effect
}.
Arguments mkRes {A} out clk trace.
Arguments out {A} r.
Arguments clk {A} r.
Arguments trace {A} r.

Definition M (A : Type) := nat -> Res A.

Definition ret {A} (a : A) : M A := fun c => mkRes (Returned a) c [].
Definition throw {A} (e : JsError) : M A := fun c => mkRes (Thrown e) c [].
Definition awaiting {A} : M A := fun c => mkRes Awaiting c [].
Definition emit (ev : Effect) : M unit := fun c => mkRes (Returned tt) c [ev].
Definition tick : M unit := fun c => mkRes (Returned tt) (S c) [].
Definition now : M nat := fun c => mkRes (Returned c) c [].

(** [prepend l r]: the effects [l] happened before those of [r]. *)
Definition prepend {A} (l : list Effect) (r : Res A) : Res A :=
  mkRes (out r) (clk r) (l ++ trace r).

Definition bind {A B} (m : M A) (f : A -> M B) : M B :=
  fun c =>
    match m c with
    | mkRes (Returned a) c' tr => prepend tr (f a c')
    | mkRes (Thrown e) c' tr => mkRes (Thrown e) c' tr
    | mkRes Awaiting c' tr => mkRes Awaiting c' tr
    end.

(** [try { m } catch (e) { h e }] *)
Definition try_catch {A} (m : M A) (h : JsError -> M A) : M A :=
  fun c =>
    match m c with
    | mkRes (Thrown e) c' tr => prepend tr (h e c')
    | r => r
    end.

Notation "x <- m ;; k" := (bind m (fun x => k))
  (at level 61, m at next level, right associativity).
Notation "m ;; k" := (bind m (fun _ => k))
  (at level 61, right associativity).
Notation "' pat <- m ;; k" := (bind m (fun x => match x with pat => k end))
  (at level 61, pat pattern, m at next level, right associativity).

(** ** The driver, [generateVideo] *)

Definition MODEL_NAME : string := "veo-3.1-fast-generate-preview".
Definition MAX_START_RETRIES : Z := 50.
Definition MAX_POLLING_RETRIES : Z := 120.

Definition silence_clause : string :=
  "(Video must be completely silent, no sound, no music, no audio track)".

Definition finalPrompt (config : ProcessingConfig) : string :=
  let basePrompt := Js.or_else (prompt config) "Silent video, simple motion" in
  basePrompt +++ ". " +++ silence_clause.

Definition is_num (o : option Z) (n : Z) : bool :=
  match o with Some z => (z =? n)%Z | None => false end.

(** [isRateLimit] of the submission loop *)
Definition isRateLimit_start (error : JsError) : bool :=
  is_num (e_status error) 429 || is_num (e_code error) 429
  || Js.includes (e_json error) "429"
  || Js.includes (e_json error) "RESOURCE_EXHAUSTED"
  || Js.includes (e_json error) "quota".

Definition isTransient (error : JsError) : bool :=
  is_num (e_status error) 503 || is_num (e_status error) 500.

(** [isNotFound] and [isRateLimit] of the polling loop *)
Definition isNotFound (error : JsError) : bool :=
  Js.includes (e_json error) "404"
  || Js.includes (e_json error) "NOT_FOUND"
  || Js.includes (e_json error) "Requested entity was not found"
  || is_num (e_status error) 404 || is_num (e_code error) 404.

Definition isRateLimit_poll (error : JsError) : bool :=
  is_num (e_status error) 429 || is_num (e_code error) 429
  || Js.includes (e_json error) "429"
  || Js.includes (e_json error) "RESOURCE_EXHAUSTED".

(** [Math.min(startBackoff * 1.5, 120000)].  The product is written
    [b * 3 / 2]: every value the driver reaches is even, so the division is
    exact and the result is the one of the source's arithmetic (see
    [next_backoff_on_sequence]). *)
Definition next_backoff (startBackoff : Z) : Z :=
  Z.min (startBackoff * 3 / 2) 120000.

Definition show_status (o : option Z) : string :=
  match o with Some z => Js.show_Z z | None => "undefined" end.

Definition retry_message (error : JsError) (startBackoff startAttempt : Z) : string :=
  let waitTimeSeconds := Js.round_div startBackoff 1000 in
  let reason :=
    if isRateLimit_start error then "Rate limit (429)"
    else "Server error (" +++ show_status (e_status error) +++ ")" in
  reason +++ ". Waiting " +++ Js.show_Z waitTimeSeconds +++ "s before retry ("
    +++ Js.show_Z startAttempt +++ "/" +++ Js.show_Z MAX_START_RETRIES +++ ")...".

Definition msg_retries_exhausted : string :=
  "Rate limit or server capacity exhausted after multiple retries. Please try again later.".
Definition msg_polling_timeout : string :=
  "Operation timed out: Resource not found after multiple retries.".
Definition msg_missing_location : string :=
  "Vertex AI requires a Location (e.g., us-central1).".
Definition msg_missing_credentials : string :=
  "Missing Credentials. Please set an API Key (AI Studio) or Project/Token (Vertex AI) in Settings.".
Definition msg_no_operation_name : string :=
  "Failed to start video generation: No operation name returned.".
Definition msg_no_uri : string :=
  "No video URI returned. Check console for operation details.".

(** Phase C.  [r?.generatedVideos?.[0]?.video?.uri], empty when absent. *)
Definition first_uri (r : option OpResponse) : string :=
  match r with
  | Some resp =>
      match generatedVideos resp with
      | Some (g :: _) => match video g with Some v => uri v | None => "" end
      | _ => ""
      end
  | None => ""
  end.

(** [updatedOperation.response || updatedOperation.result] *)
Definition operationResponse (updatedOperation : Operation) : option OpResponse :=
  match op_response updatedOperation with
  | Some r => Some r
  | None => op_result updatedOperation
  end.

Definition extract_result (updatedOperation : Operation) : JsError + string :=
  match op_error updatedOperation with
  | Some err =>
      inl (Error (Js.or_else (op_message err) "Unknown error during video generation"))
  | None =>
      match operationResponse updatedOperation with
      | Some {| raiMediaFilteredReasons := Some (reason :: _) |} =>
          inl (Error ("Content blocked by safety filter: " +++ reason))
      | _ =>
          let downloadLink := first_uri (operationResponse updatedOperation) in
          if Js.truthy downloadLink then inr downloadLink
          else inl (Error msg_no_uri)
      end
  end.

(** [customApiKey?.trim() || getEnvApiKey()], then [sanitizeKey] *)
Definition resolve_key (customApiKey : option string) (envKey : string) : option string :=
  let rawKey :=
    Js.or_else (match customApiKey with Some k => Js.trim k | None => "" end) envKey in
  sanitizeKey rawKey.

Section Driver.

Context {url_api : UrlApi}.
Variable env : Env.

Definition aborted (c : nat) : bool :=
  pre_aborted env ||
  match stop_at env with Some k => (k <? c)%nat | None => false end.

(** [if (signal?.aborted) throw new DOMException('Aborted', 'AbortError')] *)
Definition check_abort : M unit :=
  c <- now ;;
  if aborted c then throw (AbortException "Aborted") else ret tt.

(** [wait(ms, signal)] *)
Definition wait (ms : Z) : M unit :=
  check_abort ;;
  emit (EWait ms) ;;
  tick ;;
  check_abort.

Definition onProgress (s : string) : M unit := emit (EProgress s).

(** The AI Studio branch of the initialization logic. *)
Definition init_direct (customApiKey : option string) : M bool :=
  match resolve_key customApiKey (env_key env) with
  | Some apiKey =>
      if Js.truthy apiKey then emit (EInit (ApiKey apiKey)) ;; ret false
      else throw (Error msg_missing_credentials)
  | None => throw (Error msg_missing_credentials)
  end.

(** [vertexConfig && vertexConfig.projectId && vertexConfig.accessToken] *)
Definition vertex_mode (vertexConfig : option VertexConfig) : bool :=
  match vertexConfig with
  | Some vc => Js.truthy (projectId vc) && Js.truthy (accessToken vc)
  | None => false
  end.

(** The initialization logic: which credential the SDK is built with; the
    result is [usingVertex]. *)
Definition init (customApiKey : option string) (vertexConfig : option VertexConfig)
  : M bool :=
  match vertexConfig with
  | Some vc =>
      if Js.truthy (projectId vc) && Js.truthy (accessToken vc) then
        if negb (Js.truthy (location vc)) then throw (Error msg_missing_location)
        else
          emit (EInit (VertexAI (projectId vc) (location vc) (Js.trim (accessToken vc)))) ;;
          ret true
      else init_direct customApiKey
  | None => init_direct customApiKey
  end.

Definition fileToBase64 (imageFile : File) : M string :=
  emit (EEncode imageFile) ;;
  tick ;;
  match encode_reply env with
  | inl e => throw e
  | inr s => ret s
  end.

Definition submit_request (imageFile : File) (config : ProcessingConfig)
    (base64Image : string) : SubmitRequest :=
  {| sr_model := MODEL_NAME;
     sr_prompt := finalPrompt config;
     sr_imageBytes := base64Image;
     sr_mimeType := file_type imageFile;
     sr_numberOfVideos := 1;
     sr_resolution := resolution config;
     sr_aspectRatio := aspectRatio config;
     sr_durationSeconds := 4 |}.

(** Phase A: [while (!operation)].  One reply of the script per call of
    [ai.models.generateVideos]. *)
Fixpoint submit_loop (req : SubmitRequest) (replies : list (JsError + Operation))
    (startAttempt startBackoff : Z) : M Operation :=
  check_abort ;;
  match replies with
  | [] => awaiting
  | reply :: replies' =>
      emit (ESubmit req) ;;
      tick ;;
      match reply with
      | inr operation => ret operation
      | inl error =>
          check_abort ;;
          if isRateLimit_start error || isTransient error then
            let startAttempt := (startAttempt + 1)%Z in
            if (startAttempt >? MAX_START_RETRIES)%Z then
              throw (Error msg_retries_exhausted)
            else
              onProgress (retry_message error startBackoff startAttempt) ;;
              wait startBackoff ;;
              submit_loop req replies' startAttempt (next_backoff startBackoff)
          else
            throw (Error (Js.or_else (e_message error) "Failed to start generation"))
      end
  end.

(** Phase B: [while (!updatedOperation.done)].  One reply of the script
    per call of [ai.operations.getVideosOperation]. *)
Fixpoint poll_loop (replies : list (JsError + Operation))
    (updatedOperation : Operation) (retryCount : Z) : M Operation :=
  if op_done updatedOperation then ret updatedOperation
  else
    check_abort ;;
    wait 10000 ;;
    match replies with
    | [] => awaiting
    | reply :: replies' =>
        emit (EPoll updatedOperation) ;;
        tick ;;
        match reply with
        | inr result => poll_loop replies' result 0
        | inl error =>
            check_abort ;;
            if isNotFound error then
              let retryCount := (retryCount + 1)%Z in
              if (retryCount >=? MAX_POLLING_RETRIES)%Z then
                throw (Error msg_polling_timeout)
              else poll_loop replies' updatedOperation retryCount
            else if isRateLimit_poll error then
              wait 20000 ;;
              poll_loop replies' updatedOperation retryCount
            else throw error
        end
    end.

(** [fetch(url, { signal, ... })] *)
Definition fetch (r : FetchRequest) : M (bool * string * (string + Blob)) :=
  emit (EFetch r) ;;
  c <- now ;;
  if aborted c then throw (AbortException (abort_message env))
  else
    tick ;;
    c <- now ;;
    if aborted c then throw (AbortException (abort_message env))
    else
      match fetch_reply env with
      | FetchRejected msg => throw (TypeError msg)
      | FetchResponse ok statusText body => ret (ok, statusText, body)
      end.

(** [response.blob()] *)
Definition read_blob (body : string + Blob) : M Blob :=
  emit EBlob ;;
  tick ;;
  c <- now ;;
  if aborted c then throw (AbortException (abort_message env))
  else match body with inl msg => throw (TypeError msg) | inr b => ret b end.

Definition new_URL (s : string) : M URL :=
  match URL_new s with
  | inl msg => throw (TypeError msg)
  | inr u => ret u
  end.

(** Step 5 of [generateVideo]: the authenticated download. *)
Definition download (downloadLink : string) (usingVertex : bool)
    (customApiKey : option string) (vertexConfig : option VertexConfig) : M Blob :=
  try_catch
    (url <- new_URL downloadLink ;;
     if usingVertex then
       let token := match vertexConfig with Some vc => Js.trim (accessToken vc) | None => "undefined" end in
       let headers := [("Authorization", "Bearer " +++ token)] in
       '(ok, statusText, body) <- fetch {| fr_url := URL_toString url;
                                           fr_headers := headers;
                                           fr_credentials := Unset |} ;;
       if negb ok then throw (Error ("Download failed: " +++ statusText))
       else read_blob body
     else
       let url :=
         match resolve_key customApiKey (env_key env) with
         | Some apiKey => if Js.truthy apiKey then URL_set url "key" apiKey else url
         | None => url
         end in
       '(ok, statusText, body) <- fetch {| fr_url := URL_toString url;
                                           fr_headers := [];
                                           fr_credentials := Omit |} ;;
       if negb ok then throw (Error ("Download failed: " +++ statusText))
       else read_blob body)
    (fun err => throw (Error ("Video download error: " +++ e_message err))).

(** Steps 4 and 5: extract the result and download it. *)
Definition after_polling (updatedOperation : Operation) (usingVertex : bool)
    (customApiKey : option string) (vertexConfig : option VertexConfig) : M Blob :=
  match extract_result updatedOperation with
  | inl e => throw e
  | inr downloadLink =>
      onProgress "Downloading result..." ;;
      download downloadLink usingVertex customApiKey vertexConfig
  end.

(** What follows the submission loop: the check of the operation name, the
    polling loop, then [after_polling]. *)
Definition after_submission (operation : Operation) (usingVertex : bool)
    (customApiKey : option string) (vertexConfig : option VertexConfig) : M Blob :=
  if negb (Js.truthy (op_name operation)) then throw (Error msg_no_operation_name)
  else
    onProgress "Generating video (this may take a minute)..." ;;
    wait 10000 ;;
    updatedOperation <- poll_loop (poll_replies env) operation 0 ;;
    after_polling updatedOperation usingVertex customApiKey vertexConfig.

Definition generateVideo (imageFile : File) (config : ProcessingConfig)
    (customApiKey : option string) (vertexConfig : option VertexConfig) : M Blob :=
  check_abort ;;
  usingVertex <- init customApiKey vertexConfig ;;
  onProgress "Encoding image..." ;;
  base64Image <- fileToBase64 imageFile ;;
  onProgress "Initializing generation..." ;;
  operation <- submit_loop (submit_request imageFile config base64Image)
                 (submit_replies env) 0 20000 ;;
  after_submission operation usingVertex customApiKey vertexConfig.

End Driver.

(** ** The key-only variant of the driver

    The repository holds a second [generateVideo] that takes the API key as
    a parameter and has no Vertex mode.  Its phases A to C are the ones
    above; only its download differs, and only that is embedded here. *)

Module KeyOnly.
Section Download.

Context {url_api : UrlApi}.
Variable env : Env.

(** "Robust URL construction": the URL that is fetched. *)
Definition finalUrl (downloadLink apiKey : string) : string :=
  let trimmedKey := Js.trim apiKey in
  match URL_new downloadLink with
  | inr urlObj => URL_toString (URL_append urlObj "key" trimmedKey)
  | inl _ =>
      if Js.includes downloadLink "?" then downloadLink +++ "&key=" +++ trimmedKey
      else downloadLink +++ "?key=" +++ trimmedKey
  end.

Definition download (downloadLink apiKey : string) : M Blob :=
  try_catch
    ('(ok, statusText, body) <- fetch env {| fr_url := finalUrl downloadLink apiKey;
                                             fr_headers := [];
                                             fr_credentials := Unset |} ;;
     if negb ok then throw (Error ("Download failed: " +++ statusText))
     else read_blob env body)
    (fun err => throw (Error ("Video download error: " +++ e_message err))).

End Download.
End KeyOnly.

(** ** A small stand-in for the platform's URL class

    Used for concrete runs only.  It accepts a string that starts with a
    scheme ([ALPHA *( ALPHA / DIGIT / "+" / "-" / "." ) ":"]), as every URL
    parser without a base does, splits off the query at the first ["?"],
    and keeps the query as a list of pairs.  No percent-encoding, no
    fragments. *)

Module SimpleUrl.

Definition is_alpha (c : ascii) : bool :=
  let n := nat_of_ascii c in
  (((65 <=? n) && (n <=? 90)) || ((97 <=? n) && (n <=? 122)))%nat.

Definition is_scheme_char (c : ascii) : bool :=
  let n := nat_of_ascii c in
  (is_alpha c || ((48 <=? n) && (n <=? 57)) || (n =? 43) || (n =? 45) || (n =? 46))%nat.

Fixpoint scheme_rest (s : string) : bool :=
  match s with
  | EmptyString => false
  | String c s' =>
      if (nat_of_ascii c =? 58)%nat then true
      else if is_scheme_char c then scheme_rest s' else false
  end.

Definition has_scheme (s : string) : bool :=
  match s with
  | EmptyString => false
  | String c s' => is_alpha c && scheme_rest s'
  end.

(** [split_at sep s]: the text before the first [sep], and the text after
    it if there is one. *)
Fixpoint split_at (sep : ascii) (s : string) : string * option string :=
  match s with
  | EmptyString => (EmptyString, None)
  | String c s' =>
      if Ascii.eqb c sep then (EmptyString, Some s')
      else let '(a, b) := split_at sep s' in (String c a, b)
  end.

Fixpoint split_all (fuel : nat) (sep : ascii) (s : string) : list string :=
  match fuel with
  | O => [s]
  | S fuel' =>
      match split_at sep s with
      | (a, None) => [a]
      | (a, Some rest) => a :: split_all fuel' sep rest
      end
  end.

Definition parse_pair (s : string) : string * string :=
  match split_at "=" s with
  | (k, Some v) => (k, v)
  | (k, None) => (k, "")
  end.

Record t := { base : string; query : list (string * string) }.

Definition parse (s : string) : string + t :=
  if has_scheme s then
    match split_at "?" s with
    | (b, None) => inr {| base := b; query := [] |}
    | (b, Some "") => inr {| base := b; query := [] |}
    | (b, Some q) =>
        inr {| base := b;
               query := map parse_pair (split_all (String.length q) "&" q) |}
    end
  else inl "Invalid URL".

Definition append (u : t) (k v : string) : t :=
  {| base := base u; query := query u ++ [(k, v)] |}.

Fixpoint set_first (q : list (string * string)) (k v : string) : list (string * string) :=
  match q with
  | [] => [(k, v)]
  | (k', v') :: q' =>
      if (k' =? k)%string
      then (k, v) :: filter (fun p => negb (fst p =? k)%string) q'
      else (k', v') :: set_first q' k v
  end.

Definition set (u : t) (k v : string) : t :=
  {| base := base u; query := set_first (query u) k v |}.

Definition show_pair (p : string * string) : string := fst p +++ "=" +++ snd p.

Definition toString (u : t) : string :=
  match query u with
  | [] => base u
  | q => base u +++ "?" +++ String.concat "&" (map show_pair q)
  end.

#[export] Instance api : UrlApi :=
  {| URL := t; URL_new := parse; URL_set := set; URL_append := append;
     URL_toString := toString |}.


End SimpleUrl.

(** ** The queue processor ([App.tsx]) *)

Module App.

Record VideoJob := {
  id : string;
  file : File;
  status : JobStatus;
  progress : option string;
  videoUrl : option string;
  error : option string;
  thumbnailUrl : string
}.

Definition is_pending (j : VideoJob) : bool :=
  match status j with PENDING => true | _ => false end.

Definition is_processing (j : VideoJob) : bool :=
  match status j with PROCESSING => true | _ => false end.

(** [{ ...j, status: s, progress: p }] and its relatives *)
Definition with_status_progress (j : VideoJob) (s : JobStatus) (p : string) : VideoJob :=
  {| id := id j; file := file j; status := s; progress := Some p;
     videoUrl := videoUrl j; error := error j; thumbnailUrl := thumbnailUrl j |}.

Definition with_progress (j : VideoJob) (p : string) : VideoJob :=
  {| id := id j; file := file j; status := status j; progress := Some p;
     videoUrl := videoUrl j; error := error j; thumbnailUrl := thumbnailUrl j |}.

Definition with_completed (j : VideoJob) (url : string) : VideoJob :=
  {| id := id j; file := file j; status := COMPLETED; progress := Some "Done";
     videoUrl := Some url; error := error j; thumbnailUrl := thumbnailUrl j |}.

Definition with_failed (j : VideoJob) (msg : string) : VideoJob :=
  {| id := id j; file := file j; status := FAILED; progress := progress j;
     videoUrl := videoUrl j; error := Some msg; thumbnailUrl := thumbnailUrl j |}.

(** The functional updates [processQueue] hands to [setJobs]. *)
Definition markProcessing (jid : string) (prev : list VideoJob) : list VideoJob :=
  map (fun j => if (id j =? jid)%string
                then with_status_progress j PROCESSING "Starting..." else j) prev.

Definition setProgress (jid : string) (p : string) (prev : list VideoJob) : list VideoJob :=
  map (fun j => if (id j =? jid)%string then with_progress j p else j) prev.

Definition markCompleted (jid : string) (url : string) (prev : list VideoJob) : list VideoJob :=
  map (fun j => if (id j =? jid)%string then with_completed j url else j) prev.

Definition markCancelled (jid : string) (prev : list VideoJob) : list VideoJob :=
  map (fun j =>
         if (id j =? jid)%string then with_failed j "Cancelled"
         else if is_pending j then with_failed j "Stopped by user"
         else j) prev.

Definition markFailed (jid : string) (message : string) (prev : list VideoJob) : list VideoJob :=
  map (fun j => if (id j =? jid)%string
                then with_failed j (Js.or_else message "Failed") else j) prev.

Inductive AuthMode := aistudio | vertex.

Record State := {
  jobs : list VideoJob;
  isProcessing : bool;
  (** [abortControllerRef.current]: the controller of the running pass, with
      the [aborted] flag of its signal *)
  abortControllerRef : option bool;
  showSettings : bool;
  authMode : AuthMode;
  customApiKey : string;
  vertexConfig : VertexConfig;
  config : ProcessingConfig;
  (** the running pass: the entries of [pendingJobs] the [for] loop has not
      reached, and the job whose [generateVideo] call is in flight *)
  pendingJobs : list VideoJob;
  current : option VideoJob;
  (** the ids [crypto.randomUUID] has handed out *)
  issued : list string
}.

Definition set_jobs (s : State) (f : list VideoJob -> list VideoJob) : State :=
  {| jobs := f (jobs s); isProcessing := isProcessing s;
     abortControllerRef := abortControllerRef s; showSettings := showSettings s;
     authMode := authMode s; customApiKey := customApiKey s;
     vertexConfig := vertexConfig s; config := config s;
     pendingJobs := pendingJobs s; current := current s; issued := issued s |}.

Definition set_loop (s : State) (rest : list VideoJob) (cur : option VideoJob) : State :=
  {| jobs := jobs s; isProcessing := isProcessing s;
     abortControllerRef := abortControllerRef s; showSettings := showSettings s;
     authMode := authMode s; customApiKey := customApiKey s;
     vertexConfig := vertexConfig s; config := config s;
     pendingJobs := rest; current := cur; issued := issued s |}.

Definition set_showSettings (s : State) (b : bool) : State :=
  {| jobs := jobs s; isProcessing := isProcessing s;
     abortControllerRef := abortControllerRef s; showSettings := b;
     authMode := authMode s; customApiKey := customApiKey s;
     vertexConfig := vertexConfig s; config := config s;
     pendingJobs := pendingJobs s; current := current s; issued := issued s |}.

Definition set_pass (s : State) (running : bool) (ctl : option bool)
    (rest : list VideoJob) (cur : option VideoJob) : State :=
  {| jobs := jobs s; isProcessing := running;
     abortControllerRef := ctl; showSettings := showSettings s;
     authMode := authMode s; customApiKey := customApiKey s;
     vertexConfig := vertexConfig s; config := config s;
     pendingJobs := rest; current := cur; issued := issued s |}.

Definition init_state : State :=
  {| jobs := []; isProcessing := false; abortControllerRef := None;
     showSettings := false; authMode := aistudio; customApiKey := "";
     vertexConfig := {| projectId := ""; location := "us-central1"; accessToken := "" |};
     config := {| prompt := "Silent video. No audio. Add simple motion.";
                  resolution := R720p; aspectRatio := A9x16 |};
     pendingJobs := []; current := None; issued := [] |}.

(** A file picked by the user, with the id and the thumbnail it gets. *)
Record NewFile := { nf_id : string; nf_file : File; nf_thumbnail : string }.

Definition new_job (f : NewFile) : VideoJob :=
  {| id := nf_id f; file := nf_file f; status := PENDING; progress := None;
     videoUrl := None; error := None; thumbnailUrl := nf_thumbnail f |}.

Definition mem (x : string) (l : list string) : bool :=
  existsb (fun y => (y =? x)%string) l.

Fixpoint distinct (l : list string) : bool :=
  match l with
  | [] => true
  | x :: l' => negb (mem x l') && distinct l'
  end.

(** [crypto.randomUUID] never repeats an id. *)
Definition fresh_ids (s : State) (files : list NewFile) : bool :=
  distinct (map nf_id files) &&
  forallb (fun f => negb (mem (nf_id f) (issued s))) files.

Definition handleAddFiles (s : State) (files : list NewFile) : State :=
  {| jobs := jobs s ++ map new_job files; isProcessing := isProcessing s;
     abortControllerRef := abortControllerRef s; showSettings := showSettings s;
     authMode := authMode s; customApiKey := customApiKey s;
     vertexConfig := vertexConfig s; config := config s;
     pendingJobs := pendingJobs s; current := current s;
     issued := issued s ++ map nf_id files |}.

Definition handleRemoveJob (s : State) (jid : string) : State :=
  set_jobs s (filter (fun job => negb (id job =? jid)%string)).

Definition handleStop (s : State) : State :=
  match abortControllerRef s with
  | Some _ => set_pass s (isProcessing s) (Some true) (pendingJobs s) (current s)
  | None => s
  end.

(** [handleClearAll], the confirmation given *)
Definition handleClearAll (s : State) : State :=
  let s := if isProcessing s then handleStop s else s in
  set_jobs s (fun _ => []).

(** The end of [processQueue], after the loop. *)
Definition finish (s : State) : State := set_pass s false None [] None.

(** The start of [processQueue], up to the loop. *)
Definition processQueue (s : State) : State :=
  if isProcessing s then s
  else set_pass s true (Some false) (filter is_pending (jobs s)) None.

(** The [useEffect] that starts a pass. *)
Definition autoStart (s : State) : State :=
  let hasPending := existsb is_pending (jobs s) in
  if hasPending && negb (isProcessing s) then processQueue s else s.

(** The head of the [for] loop: leave if the signal is aborted or no entry
    is left, otherwise mark the next entry as processing and call the
    driver for it. *)
Definition loopHead (s : State) : State :=
  match pendingJobs s with
  | [] => finish s
  | job :: rest =>
      match abortControllerRef s with
      | Some true => finish s
      | _ => set_loop (set_jobs s (markProcessing (id job))) rest (Some job)
      end
  end.

(** [URL.createObjectURL]; the text of the URL is of no consequence. *)
Definition createObjectURL (b : Blob) : string := "blob:" +++ b.

Definition is_abort (e : JsError) : bool :=
  (e_name e =? "AbortError")%string || (e_message e =? "Aborted")%string.

(** The [catch] block of the loop body, for the job [job]. *)
Definition onRejected (s : State) (job : VideoJob) (e : JsError) : State :=
  if is_abort e then
    finish (set_jobs s (markCancelled (id job)))
  else
    let s :=
      if Js.includes (e_message e) "API Key" || Js.includes (e_message e) "Access Token"
      then set_showSettings s true else s in
    set_loop (set_jobs s (markFailed (id job) (e_message e))) (pendingJobs s) None.

Definition onResolved (s : State) (job : VideoJob) (videoBlob : Blob) : State :=
  set_loop (set_jobs s (markCompleted (id job) (createObjectURL videoBlob)))
    (pendingJobs s) None.

(** What can happen next: the user acts, the effect fires, the loop of the
    running pass goes on, or the driver call in flight reports progress or
    settles. *)
Inductive Event :=
| AddFiles (files : list NewFile)
| RemoveJob (jid : string)
| Stop
| ClearAll
| AutoStart
| LoopHead
| Progress (p : string)
| Resolved (videoBlob : Blob)
| Rejected (e : JsError).

Definition step (s : State) (ev : Event) : option State :=
  match ev with
  | AddFiles files => if fresh_ids s files then Some (handleAddFiles s files) else None
  | RemoveJob jid => Some (handleRemoveJob s jid)
  | Stop => Some (handleStop s)
  | ClearAll => Some (handleClearAll s)
  | AutoStart => Some (autoStart s)
  | LoopHead =>
      match isProcessing s, current s with
      | true, None => Some (loopHead s)
      | _, _ => None
      end
  | Progress p =>
      match current s with
      | Some job => Some (set_jobs s (setProgress (id job) p))
      | None => None
      end
  | Resolved b =>
      match current s with
      | Some job => Some (onResolved s job b)
      | None => None
      end
  | Rejected e =>
      match current s with
      | Some job => Some (onRejected s job e)
      | None => None
      end
  end.

Fixpoint run (s : State) (evs : list Event) : option State :=
  match evs with
  | [] => Some s
  | ev :: evs' =>
      match step s ev with
      | Some s' => run s' evs'
      | None => None
      end
  end.

End App.

(** ** A batch pass: the queue processor driving the driver *)

Module Batch.
Import App.
Section Pass.

Context {url_api : UrlApi}.

(** The environment of a driver call made with the controller's signal. *)
Definition with_signal (s : State) (env : Env) : Env :=
  {| pre_aborted := match abortControllerRef s with Some b => b | None => false end;
     stop_at := stop_at env; abort_message := abort_message env;
     env_key := env_key env; encode_reply := encode_reply env;
     submit_replies := submit_replies env; poll_replies := poll_replies env;
     fetch_reply := fetch_reply env |}.

(** The call [processQueue] makes for [job]. *)
Definition call_driver (s : State) (env : Env) (job : VideoJob) : Res Blob :=
  generateVideo (with_signal s env) (file job) (config s)
    (match authMode s with aistudio => Some (customApiKey s) | vertex => None end)
    (match authMode s with vertex => Some (vertexConfig s) | aistudio => None end)
    0.

Definition stopped (env : Env) (r : Res Blob) : bool :=
  match stop_at env with Some k => (k <? clk r)%nat | None => false end.

(** What the queue processor sees of a driver call: the progress reports,
    the user's Stop if it fell into the call, and how the call settled. *)
Definition settle_events (env : Env) (r : Res Blob) : list Event :=
  flat_map (fun ev => match ev with EProgress p => [Progress p] | _ => [] end) (trace r)
  ++ (if stopped env r then [Stop] else [])
  ++ match out r with
     | Returned b => [Resolved b]
     | Thrown e => [Rejected e]
     | Awaiting => []
     end.

(** The loop of [processQueue], one environment per driver call.  Gives the
    last state, the events in order, and what the driver calls did. *)
Fixpoint drive (envs : list Env) (s : State) : State * list Event * list Effect :=
  match step s LoopHead with
  | None => (s, [], [])
  | Some s1 =>
      match current s1, envs with
      | Some job, env :: envs' =>
          let r := call_driver s1 env job in
          match run s1 (settle_events env r) with
          | Some s2 =>
              let '(s3, evs, effs) := drive envs' s2 in
              (s3, LoopHead :: settle_events env r ++ evs, trace r ++ effs)
          | None => (s1, [LoopHead], trace r)
          end
      | _, _ => (s1, [LoopHead], [])
      end
  end.

(** One pass, started by the effect. *)
Definition pass (envs : list Env) (s : State) : State * list Event * list Effect :=
  let '(s', evs, effs) := drive envs (autoStart s) in
  (s', AutoStart :: evs, effs).

End Pass.
End Batch.

(** ** Vocabulary of the specification *)

(** No cancellation reaches the driver call. *)
Definition never_stopped (env : Env) : Prop :=
  pre_aborted env = false /\ stop_at env = None.

Definition is_submit (ev : Effect) : bool :=
  match ev with ESubmit _ => true | _ => false end.

(** The number of submission calls in a trace. *)
Definition count_submits (tr : list Effect) : nat := length (filter is_submit tr).

(** The durations of the timers armed in a trace, in order. *)
Definition waits (tr : list Effect) : list Z :=
  flat_map (fun ev => match ev with EWait ms => [ms] | _ => [] end) tr.

(** A submission failure the driver retries. *)
Definition retryable (e : JsError) : bool := isRateLimit_start e || isTransient e.

(** A reply to a submission call that is a failure the driver retries. *)
Definition retryable_failure (r : JsError + Operation) : Prop :=
  match r with inl e => retryable e = true | inr _ => False end.

(** The sequence 20000, 30000, 45000, 67500, 101250, 120000, 120000, ...;
    [backoff_seq n] is the wait before retry [n + 1]. *)
Definition backoff_seq (n : nat) : Z :=
  nth n [20000; 30000; 45000; 67500; 101250]%Z 120000%Z.

(** The same by the rule of the specification, in exact rational arithmetic:
    20000 times 1.5 to the n, capped at 120000. *)
Definition backoff_rule (n : nat) : QArith_base.Q :=
  Qminmax.Qmin
    (QArith_base.Qmult (QArith_base.inject_Z 20000)
       (QArith_base.Qpower (QArith_base.Qmake 3 2) (Z.of_nat n)))
    (QArith_base.inject_Z 120000).

(** The driver call gets as far as the submission loop: it is not
    cancelled, a credential is resolved, and the image is encoded. *)
Definition reaches_submission {url_api : UrlApi} (env : Env)
    (customApiKey : option string) (vertexConfig : option VertexConfig)
    (usingVertex : bool) (base64Image : string) : Prop :=
  never_stopped env
  /\ out (init env customApiKey vertexConfig 0) = Returned usingVertex
  /\ encode_reply env = inr base64Image.

(** The moderation-filter reasons a response carries. *)
Definition filter_reasons (r : option OpResponse) : list string :=
  match r with
  | Some resp =>
      match raiMediaFilteredReasons resp with Some l => l | None => [] end
  | None => []
  end.

(** The key the AI Studio branch starts from: the explicit one if, trimmed,
    it is not empty, else the one of the environment. *)
Definition raw_key (customApiKey : option string) (envKey : string) : string :=
  match customApiKey with
  | Some k => if Js.truthy (Js.trim k) then Js.trim k else envKey
  | None => envKey
  end.

(** The request the driver makes for a parsed locator, by mode. *)
Definition vertex_request {url_api : UrlApi} (u : URL) (v : VertexConfig) : FetchRequest :=
  {| fr_url := URL_toString u;
     fr_headers := [("Authorization", "Bearer " +++ Js.trim (accessToken v))];
     fr_credentials := Unset |}.

Definition key_request {url_api : UrlApi} (u : URL) (k : string) : FetchRequest :=
  {| fr_url := URL_toString (URL_set u "key" k);
     fr_headers := [];
     fr_credentials := Omit |}.

(** All events of every trace of a computation satisfy [P]. *)
Definition trace_all {A} (P : Effect -> Prop) (m : M A) : Prop :=
  forall c, Forall P (trace (m c)).

(** [k] is a token wrapped in a pair of matching quote characters. *)
Definition wrapped (k : string) : Prop :=
  exists q t, (q = dquote \/ q = squote) /\ k = q +++ t +++ q.

(** [s] ends with [suffix]. *)
Definition ends_with_suffix (s suffix : string) : Prop :=
  exists pre, s = pre +++ suffix.

(** *** Vocabulary for the queue processor *)

Module Queue.
Import App.

Definition ids (l : list VideoJob) : list string := map id l.

(** The status changes the queue processor makes. *)
Definition allowed (a b : JobStatus) : bool :=
  match a, b with
  | PENDING, PENDING | PENDING, PROCESSING | PENDING, FAILED => true
  | PROCESSING, PROCESSING | PROCESSING, COMPLETED | PROCESSING, FAILED => true
  | COMPLETED, COMPLETED | FAILED, FAILED => true
  | _, _ => false
  end.

(** The status changes along Pending, Processing, then Completed or
    Failed, none skipped. *)
Definition strict (a b : JobStatus) : bool :=
  match a, b with
  | PENDING, FAILED => false
  | _, _ => allowed a b
  end.

(** Every job keeps its status or changes it as [rel] allows. *)
Definition transitions (rel : JobStatus -> JobStatus -> bool) (s s' : State) : Prop :=
  forall j j', In j (jobs s) -> In j' (jobs s') -> id j' = id j ->
               rel (status j) (status j') = true.

Definition count_processing (s : State) : nat :=
  length (filter is_processing (jobs s)).

Definition at_most_one_processing (s : State) : Prop := count_processing s <= 1.

(** A job that goes from pending to processing has no pending job before it
    in the queue. *)
Definition in_order (s s' : State) : Prop :=
  forall l1 j l2 j',
    jobs s = l1 ++ j :: l2 -> status j = PENDING ->
    In j' (jobs s') -> id j' = id j -> status j' = PROCESSING ->
    Forall (fun k => status k <> PENDING) l1.

(** A pending job that fails without having been processing was stopped by
    the user. *)
Definition skips_only_when_stopped (s s' : State) : Prop :=
  forall j j', In j (jobs s) -> In j' (jobs s') -> id j' = id j ->
               status j = PENDING -> status j' = FAILED ->
               error j' = Some "Stopped by user".

(** What a step does to the jobs that were in the queue before it. *)
Record StepOk (s s' : State) : Prop := {
  ok_transitions : transitions allowed s s';
  ok_skips : skips_only_when_stopped s s';
  ok_order : in_order s s'
}.

Definition initial (s : State) : Prop :=
  jobs s = [] /\ isProcessing s = false /\ abortControllerRef s = None
  /\ pendingJobs s = [] /\ current s = None /\ issued s = [].

Definition is_current (s : State) (i : string) : Prop :=
  exists j, current s = Some j /\ id j = i.

(** The pending ids of the queue, in order. *)
Definition pending_ids (s : State) : list string := ids (filter is_pending (jobs s)).

(** The ids of the entries the loop has not reached that are still in the
    queue. *)
Definition live_ids (s : State) : list string :=
  filter (fun i => mem i (ids (jobs s))) (ids (pendingJobs s)).

(** What holds in every reachable state. *)
Record Inv (s : State) : Prop := {
  inv_nodup : NoDup (ids (jobs s));
  inv_issued : incl (ids (jobs s)) (issued s);
  inv_issued_pass : incl (ids (pendingJobs s)) (issued s);
  inv_issued_current : forall j, current s = Some j -> In (id j) (issued s);
  inv_idle : isProcessing s = false -> pendingJobs s = [] /\ current s = None;
  inv_processing : forall k, In k (jobs s) ->
                     (status k = PROCESSING <-> is_current s (id k));
  inv_waiting : forall r k, In r (pendingJobs s) -> In k (jobs s) ->
                  id k = id r -> status k = PENDING;
  inv_pass_nodup : NoDup (ids (pendingJobs s));
  inv_order : exists added, pending_ids s = live_ids s ++ added
}.

End Queue.

(** ** Concrete runs *)

Module Fixtures.
Import App.

Definition image : File :=
  {| file_name := "cat.png"; file_type := "image/png"; file_bytes := "PNG" |}.

Definition cfg0 : ProcessingConfig := config init_state.

Definition rate_limited : JsError :=
  {| e_name := "ApiError"; e_message := "Too Many Requests";
     e_status := Some 429%Z; e_code := None; e_json := "{}" |}.

Definition not_found : JsError :=
  {| e_name := "ApiError"; e_message := "Requested entity was not found.";
     e_status := Some 404%Z; e_code := None; e_json := "{}" |}.

Definition forbidden : JsError :=
  {| e_name := "ApiError"; e_message := "Permission denied";
     e_status := Some 403%Z; e_code := None; e_json := "{}" |}.

Definition op_started : Operation :=
  {| op_name := "operations/1"; op_done := false; op_error := None;
     op_response := None; op_result := None |}.

Definition response_with (reasons : option (list string)) (link : string) : OpResponse :=
  {| raiMediaFilteredReasons := reasons;
     generatedVideos := Some [ {| video := Some {| uri := link |} |} ] |}.

Definition op_with (reasons : option (list string)) (link : string) : Operation :=
  {| op_name := "operations/1"; op_done := true; op_error := None;
     op_response := Some (response_with reasons link); op_result := None |}.

Definition op_finished : Operation := op_with None "https://example.com/v.mp4?alt=media".

(** Completed, filtered, and with a locator all the same. *)
Definition op_filtered : Operation :=
  op_with (Some ["violence"; "other"]) "https://example.com/v.mp4?alt=media".

Definition op_failed : Operation :=
  {| op_name := "operations/1"; op_done := true;
     op_error := Some {| op_message := "quota exceeded for project" |};
     op_response := Some (response_with (Some ["violence"]) "https://example.com/v.mp4");
     op_result := None |}.

(** Completed, with a locator that is no URL. *)
Definition op_relative : Operation := op_with None "videos/1.mp4".

Definition env_with (stop : option nat) (submits polls : list (JsError + Operation))
    (reply : FetchReply) : Env :=
  {| pre_aborted := false; stop_at := stop;
     abort_message := "signal is aborted without reason";
     env_key := "ENVKEY"; encode_reply := inr "BASE64";
     submit_replies := submits; poll_replies := polls; fetch_reply := reply |}.

Definition ok_reply : FetchReply := FetchResponse true "OK" (inr "VIDEO").

(** An uneventful call: submitted at once, completed at the first refresh,
    downloaded.  Its awaits: 0 encode, 1 submit, 2 and 3 the two waits,
    4 refresh, 5 fetch, 6 body. *)
Definition env_ok : Env := env_with None [inr op_started] [inr op_finished] ok_reply.

(** The same call with Stop pressed during await [k]. *)
Definition env_stop (k : nat) : Env :=
  env_with (Some k) [inr op_started] [inr op_finished] ok_reply.

(** One rate-limited submission, then as [env_ok]; Stop during await [k].
    Await 2 is the backoff wait, await 5 the wait of the polling loop. *)
Definition env_retry_stop (k : nat) : Env :=
  env_with (Some k) [inl rate_limited; inr op_started] [inr op_finished] ok_reply.

Definition env_exhausting : Env :=
  env_with None (repeat (inl rate_limited) 60) [] ok_reply.

Definition env_backoff : Env :=
  env_with None (repeat (inl rate_limited) 7 ++ [inr op_started]) [] ok_reply.

Definition env_lost : Env :=
  env_with None [inl rate_limited; inr op_started] (repeat (inl not_found) 120) ok_reply.

Definition env_filtered : Env := env_with None [inr op_started] [inr op_filtered] ok_reply.

Definition env_relative : Env := env_with None [inr op_started] [inr op_relative] ok_reply.

Definition env_denied : Env :=
  env_with None [inr op_started] [inr op_finished] (FetchResponse false "Forbidden" (inl "")).

Definition vertex_cfg (loc : string) : VertexConfig :=
  {| projectId := "my-project"; location := loc; accessToken := " ya29.token " |}.

Definition file_of (i : string) : NewFile :=
  {| nf_id := i; nf_file := image; nf_thumbnail := "thumb" |}.

Definition three_files : list NewFile := [file_of "a"; file_of "b"; file_of "c"].

Definition state_or (o : option State) : State :=
  match o with Some s => s | None => init_state end.

(** Three files added to the empty queue; no key in the settings, so the
    key of the environment is the one used. *)
Definition queued : State := handleAddFiles init_state three_files.

(** The first job is processing, the user has pressed Stop, and the driver
    call is about to be rejected. *)
Definition stop_events : list Event :=
  [AddFiles three_files; AutoStart; LoopHead; Progress "Encoding image..."; Stop].

Definition before_reject : State := state_or (run init_state stop_events).

Definition after_reject : State :=
  state_or (step before_reject (Rejected (AbortException "Aborted"))).

Definition summary (s : State) : list (string * JobStatus * option string) :=
  map (fun j => (id j, status j, error j)) (jobs s).

Definition is_fetch (ev : Effect) : bool :=
  match ev with EFetch _ => true | _ => false end.

(** Of a pass: the queue at its end, whether a pass is still running, and
    the number of submissions the driver calls made. *)
Definition outcome_of (r : State * list Event * list Effect)
  : list (string * JobStatus * option string) * bool * nat :=
  let '(s, _, effs) := r in (summary s, isProcessing s, count_submits effs).

End Fixtures.

(** ** Further vocabulary: the driver *)

Definition is_poll (ev : Effect) : bool :=
  match ev with EPoll _ => true | _ => false end.

(** The number of status calls in a trace. *)
Definition count_polls (tr : list Effect) : nat := length (filter is_poll tr).

(** The texts handed to [onProgress] in a trace, in order. *)
Definition progress_reports (tr : list Effect) : list string :=
  flat_map (fun ev => match ev with EProgress s => [s] | _ => [] end) tr.

(** What the submission loop does while the failures [errs] come in, from
    the counters [startAttempt] and [startBackoff] on: a submission, the
    progress report, the backoff wait, for each failure. *)
Fixpoint retry_trace (req : SubmitRequest) (errs : list JsError)
    (startAttempt startBackoff : Z) : list Effect :=
  match errs with
  | [] => []
  | e :: errs' =>
      ESubmit req
      :: EProgress (retry_message e startBackoff (startAttempt + 1))
      :: EWait startBackoff
      :: retry_trace req errs' (startAttempt + 1) (next_backoff startBackoff)
  end.

(** The seconds the retry reports show: the backoff in seconds, rounded. *)
Definition shown_seconds (n : nat) : Z := nth n [20; 30; 45; 68; 101]%Z 120%Z.

(** A status failure the polling loop answers with the extra wait. *)
Definition rate_limited_poll (e : JsError) : bool :=
  negb (isNotFound e) && isRateLimit_poll e.

(** What the polling loop does while [errs], all rate-limited, come in. *)
Fixpoint rate_limited_trace (op : Operation) (errs : list JsError) : list Effect :=
  match errs with
  | [] => []
  | _ :: errs' => EWait 10000 :: EPoll op :: EWait 20000 :: rate_limited_trace op errs'
  end.

(** The effects of a call up to the submission loop. *)
Definition opening {url_api : UrlApi} (env : Env) (imageFile : File)
    (customApiKey : option string) (vertexConfig : option VertexConfig) : list Effect :=
  trace (init env customApiKey vertexConfig 0)
  ++ [EProgress "Encoding image..."; EEncode imageFile;
      EProgress "Initializing generation..."].

(** What the polling loop does for [n] status calls on the snapshot [op]:
    the wait of the loop, then the call. *)
Fixpoint polling_trace (op : Operation) (n : nat) : list Effect :=
  match n with
  | O => []
  | S n' => EWait 10000 :: EPoll op :: polling_trace op n'
  end.

(** The effects of a call from the reply that ends the submission loop to
    the first turn of the polling loop. *)
Definition handover (req : SubmitRequest) : list Effect :=
  [ESubmit req; EProgress "Generating video (this may take a minute)..."; EWait 10000].

(** The seconds a retry report shows for the wait before retry [n + 1]:
    [Math.round] of the backoff in seconds. *)
Definition retry_report (e : JsError) (n : nat) : string :=
  (if isRateLimit_start e then "Rate limit (429)"
   else if is_num (e_status e) 503 then "Server error (503)"
   else "Server error (500)")
  +++ ". Waiting " +++ Js.show_Z (shown_seconds n) +++ "s before retry ("
  +++ Js.show_Z (Z.of_nat n + 1) +++ "/50)...".

(** The status calls of a run of refreshes: each asks for the snapshot the
    one before it brought. *)
Fixpoint refresh_trace (op : Operation) (results : list Operation) : list Effect :=
  match results with
  | [] => []
  | r :: results' => EWait 10000 :: EPoll op :: refresh_trace r results'
  end.

(** The request the download makes for the parsed locator [u]. *)
Definition download_request {url_api : UrlApi} (env : Env) (usingVertex : bool)
    (customApiKey : option string) (vertexConfig : option VertexConfig) (u : URL)
  : FetchRequest :=
  if usingVertex then
    {| fr_url := URL_toString u;
       fr_headers :=
         [("Authorization",
           "Bearer " +++ match vertexConfig with
                         | Some vc => Js.trim (accessToken vc)
                         | None => "undefined"
                         end)];
       fr_credentials := Unset |}
  else
    {| fr_url :=
         URL_toString
           match resolve_key customApiKey (env_key env) with
           | Some apiKey => if Js.truthy apiKey then URL_set u "key" apiKey else u
           | None => u
           end;
       fr_headers := [];
       fr_credentials := Omit |}.

(** The user presses Stop during await [k] of the call, not before. *)
Definition stopped_during (env : Env) (k : nat) : Prop :=
  pre_aborted env = false /\ stop_at env = Some k.

(** ** The job card ([components/JobCard.tsx]) *)

Module JobCard.
Import App.

Definition is_completed (job : VideoJob) : bool :=
  match status job with COMPLETED => true | _ => false end.

(** [o || d] for an optional string *)
Definition or_default (o : option string) (d : string) : string :=
  match o with Some s => Js.or_else s d | None => d end.

(** The remove button is rendered. *)
Definition showsRemove (job : VideoJob) : bool := negb (is_processing job).

(** The content area: the video player, or the thumbnail, dimmed while the
    job is processing. *)
Inductive Media :=
| Player (src : string)
| Thumbnail (src : string) (dimmed : bool).

Definition media (job : VideoJob) : Media :=
  if is_completed job && Js.truthy (or_default (videoUrl job) "")
  then Player (or_default (videoUrl job) "")
  else Thumbnail (thumbnailUrl job) (is_processing job).

(** The overlay, one per status. *)
Inductive Overlay :=
| Spinner (text : string)
| Failure (text : string)
| PendingBadge
| Ready (href : option string) (download : string).

Definition overlay (job : VideoJob) : Overlay :=
  match status job with
  | PROCESSING => Spinner (or_default (progress job) "Processing...")
  | FAILED => Failure (or_default (error job) "Generation failed")
  | PENDING => PendingBadge
  | COMPLETED => Ready (videoUrl job) ("veo-video-" +++ id job +++ ".mp4")
  end.

End JobCard.

(** ** The upload area ([components/UploadArea.tsx]) *)

Module UploadArea.

Definition is_image (file : File) : bool := Js.startsWith (file_type file) "image/".

(** [handleDrop]: the files handed to [onFilesSelected], if it is called. *)
Definition handleDrop (dropped : list File) : option (list File) :=
  let files := filter is_image dropped in
  if (0 <? length files)%nat then Some files else None.

(** [handleFiles], of the two file inputs; [None] for [e.target.files]
    being null. *)
Definition handleFiles (chosen : option (list File)) : option (list File) :=
  match chosen with
  | Some l => handleDrop l
  | None => None
  end.

End UploadArea.

(** ** The page ([App.tsx], what it renders) *)

Module AppView.
Import App.

(** The Stop button and the Clear All button are rendered. *)
Definition showsStop (s : State) : bool := isProcessing s.

Definition showsClearAll (s : State) : bool :=
  (0 <? length (jobs s))%nat && negb (isProcessing s).

(** What the page, as rendered in state [s], lets happen next: files come
    through the upload area, a job is removed by the button of its card,
    Stop and Clear All by their buttons; the rest is not the user's. *)
Definition offered (s : State) (ev : Event) : Prop :=
  match ev with
  | AddFiles files =>
      exists chosen, UploadArea.handleFiles chosen = Some (map nf_file files)
  | RemoveJob jid =>
      exists job, In job (jobs s) /\ JobCard.showsRemove job = true /\ id job = jid
  | Stop => showsStop s = true
  | ClearAll => showsClearAll s = true
  | _ => True
  end.

(** The states the application reaches when used through the page. *)
Inductive reachable : State -> Prop :=
| reach_initial (s : State) : Queue.initial s -> reachable s
| reach_step (s s' : State) (ev : Event) :
    reachable s -> offered s ev -> step s ev = Some s' -> reachable s'.

End AppView.

(** *** Vocabulary for the job records *)

Module JobRecord.
Import App.

(** The optional fields a job carries, by status. *)
Definition well_formed (j : VideoJob) : Prop :=
  match status j with
  | PENDING => progress j = None /\ videoUrl j = None /\ error j = None
  | PROCESSING => progress j <> None /\ videoUrl j = None /\ error j = None
  | COMPLETED =>
      progress j = Some "Done" /\ error j = None
      /\ exists url, videoUrl j = Some url /\ url <> ""
  | FAILED => videoUrl j = None /\ exists msg, error j = Some msg /\ msg <> ""
  end.

Definition settled (j : VideoJob) : Prop := status j = COMPLETED \/ status j = FAILED.

Definition image_job (j : VideoJob) : Prop := UploadArea.is_image (file j) = true.

(** Every job the queue processor knows of holds an image. *)
Definition images (s : State) : Prop :=
  Forall image_job (jobs s) /\ Forall image_job (pendingJobs s)
  /\ forall j, current s = Some j -> image_job j.

End JobRecord.

(** *** Vocabulary for a pass *)

Module Pass.
Import App.

(** The progress reports of a driver call, as the queue processor gets
    them. *)
Definition reports (tr : list Effect) : list Event :=
  flat_map (fun ev => match ev with EProgress p => [Progress p] | _ => [] end) tr.

(** What a driver call is made with, apart from the file and the signal. *)
Definition settings (s : State) : AuthMode * string * VertexConfig * ProcessingConfig :=
  (authMode s, customApiKey s, vertexConfig s, config s).

(** The key and the Vertex configuration a driver call is made with: of the
    two, the one of the mode chosen in the settings. *)
Definition call_key (s : State) : option string :=
  match authMode s with aistudio => Some (customApiKey s) | vertex => None end.

Definition call_vertex (s : State) : option VertexConfig :=
  match authMode s with vertex => Some (vertexConfig s) | aistudio => None end.

(** No job of the queue is pending. *)
Definition none_pending (s : State) : Prop :=
  Forall (fun j => status j <> PENDING) (jobs s).

(** Every pending job of the queue [l] is among the entries [q] the loop
    has still to reach. *)
Definition covered (l q : list VideoJob) : Prop :=
  forall j, In j l -> status j = PENDING -> In (id j) (Queue.ids q).

(** Ids and statuses of a queue, in order. *)
Definition shape (l : list VideoJob) : list (string * JobStatus) :=
  map (fun j => (id j, status j)) l.

(** A driver call made in state [s0] that is not cancelled and settles. *)
Definition settles {url_api : UrlApi} (s0 : State) (env : Env) : Prop :=
  stop_at env = None
  /\ forall job, out (Batch.call_driver s0 env job) <> Awaiting.

(** The pass is over. *)
Definition idle (s : State) : Prop :=
  isProcessing s = false /\ abortControllerRef s = None
  /\ pendingJobs s = [] /\ current s = None.

End Pass.

(** ** Further concrete runs *)

Module Scenarios.
Import App Fixtures.

(** A submission refused for good after one rate-limited attempt. *)
Definition env_fatal : Env :=
  env_with None [inl rate_limited; inl forbidden] [] ok_reply.

Definition op_unnamed : Operation :=
  {| op_name := ""; op_done := false; op_error := None;
     op_response := None; op_result := None |}.

Definition env_unnamed : Env := env_with None [inr op_unnamed] [] ok_reply.

(** The submission returns the completed operation. *)
Definition env_done : Env := env_with None [inr op_finished] [] ok_reply.

(** Two rate-limited status calls, then the completed operation. *)
Definition env_throttled : Env :=
  env_with None [inr op_started]
    (map inl [rate_limited; rate_limited] ++ inr op_finished :: []) ok_reply.

(** Twice a hundred not-found status calls, a refresh between them. *)
Definition env_flaky : Env :=
  env_with None [inr op_started]
    (map inl (repeat not_found 100) ++ inr op_started
       :: map inl (repeat not_found 100) ++ inr op_finished :: []) ok_reply.

(** One retry, one refresh that is not done, then the completed operation. *)
Definition env_happy : Env :=
  env_with None (map inl [rate_limited] ++ inr op_started :: [])
    (map inr [op_started] ++ inr op_finished :: []) ok_reply.

(** Stop pressed during the second submission call (await 3). *)
Definition env_stop_submit : Env :=
  env_with (Some 3) (map inl [rate_limited] ++ inl forbidden :: []) [] ok_reply.

(** Stop pressed during the second status call (await 6). *)
Definition env_stop_status : Env :=
  env_with (Some 6) [inr op_started] (map inr [op_started] ++ inl forbidden :: []) ok_reply.

(** No key in the environment. *)
Definition env_nokey : Env :=
  {| pre_aborted := false; stop_at := None;
     abort_message := "signal is aborted without reason";
     env_key := ""; encode_reply := inr "BASE64";
     submit_replies := [inr op_started]; poll_replies := [inr op_finished];
     fetch_reply := ok_reply |}.

(** A status failure that both tests of the polling loop match: the
    status is 429, and the serialized failure holds the text 404. *)
Definition throttled_404 : JsError :=
  {| e_name := "ApiError"; e_message := "Quota exceeded for operations/404";
     e_status := Some 429%Z; e_code := None;
     e_json := "{" +++ dquote +++ "status" +++ dquote +++ ":429,"
               +++ dquote +++ "message" +++ dquote +++ ":"
               +++ dquote +++ "Quota exceeded for operations/404" +++ dquote +++ "}" |}.

(** The submission accepted at once, then 120 such status failures. *)
Definition env_throttled_404 : Env :=
  env_with None [inr op_started] (repeat (inl throttled_404) 120) ok_reply.

(** Completed, with two videos. *)
Definition op_two_videos : Operation :=
  {| op_name := "operations/1"; op_done := true; op_error := None;
     op_response :=
       Some {| raiMediaFilteredReasons := None;
               generatedVideos :=
                 Some [ {| video := Some {| uri := "https://example.com/first.mp4" |} |};
                        {| video := Some {| uri := "https://example.com/second.mp4" |} |} ] |};
     op_result := None |}.

(** Completed, the first video without a locator, the second with one. *)
Definition op_first_blank : Operation :=
  {| op_name := "operations/1"; op_done := true; op_error := None;
     op_response :=
       Some {| raiMediaFilteredReasons := Some [];
               generatedVideos :=
                 Some [ {| video := None |};
                        {| video := Some {| uri := "https://example.com/second.mp4" |} |} ] |};
     op_result := None |}.

(** A configuration with no prompt. *)
Definition cfg_blank : ProcessingConfig :=
  {| prompt := ""; resolution := R720p; aspectRatio := A9x16 |}.

Definition job_a : VideoJob := new_job (file_of "a").
Definition job_b : VideoJob := new_job (file_of "b").
Definition job_c : VideoJob := new_job (file_of "c").

(** The pass has begun, the loop has not. *)
Definition snapshot : State := autoStart queued.

(** The first job is processing. *)
Definition started : State := state_or (step snapshot LoopHead).

Definition first_job (s : State) : VideoJob := hd job_a (jobs s).

(** The locator of [op_finished], parsed. *)
Definition parsed_link : @URL SimpleUrl.api :=
  SimpleUrl.Build_t "https://example.com/v.mp4" [("alt", "media")].

End Scenarios.

(** * Verification *)

(** ** Strings *)

Section StringFacts.

Lemma length_append (s t : string) :
  String.length (s +++ t) = String.length s + String.length t.
Proof. induction s as [|c s IH]; cbn; [reflexivity | now rewrite IH]. Qed.

Lemma app_assoc_s (a b c : string) : (a +++ b) +++ c = a +++ b +++ c.
Proof. induction a as [|x a IH]; cbn; [reflexivity | now rewrite IH]. Qed.

Lemma app_empty_r (s : string) : s +++ "" = s.
Proof. induction s as [|c s IH]; cbn; [reflexivity | now rewrite IH]. Qed.

Lemma substring_skip (a b : string) (m : nat) :
  substring (String.length a) m (a +++ b) = substring 0 m b.
Proof. induction a as [|c a IH]; cbn; [reflexivity | exact IH]. Qed.

Lemma substring_take (a b : string) :
  substring 0 (String.length a) (a +++ b) = a.
Proof.
  induction a as [|c a IH]; cbn.
  - now destruct b.
  - now rewrite IH.
Qed.

Lemma trimStart_ws (ws s : string) :
  Js.all_ws ws = true -> Js.trimStart (ws +++ s) = Js.trimStart s.
Proof.
  induction ws as [|c ws IH]; cbn; [reflexivity|].
  intros H. apply andb_prop in H as [Hc Hws]. now rewrite Hc, IH.
Qed.

Lemma trimEnd_all_ws (ws : string) : Js.all_ws ws = true -> Js.trimEnd ws = "".
Proof.
  induction ws as [|c ws IH]; cbn; [reflexivity|].
  intros H. apply andb_prop in H as [Hc Hws]. now rewrite IH, Hc.
Qed.

Lemma trimEnd_ws (s ws : string) :
  Js.all_ws ws = true -> Js.trimEnd (s +++ ws) = Js.trimEnd s.
Proof.
  intros H. induction s as [|c s IH]; cbn.
  - now apply trimEnd_all_ws.
  - now rewrite IH.
Qed.

Lemma trimEnd_last (s : string) (c : ascii) :
  Js.is_ws c = false -> Js.trimEnd (s +++ String c "") = s +++ String c "".
Proof.
  intros Hc. induction s as [|a s IH]; cbn.
  - now rewrite Hc.
  - rewrite IH. now destruct s.
Qed.

(** Trimming a quoted token surrounded by white space leaves the quoted
    token. *)
Lemma trim_quoted (ws1 ws2 t : string) (q : ascii) :
  Js.all_ws ws1 = true -> Js.all_ws ws2 = true -> Js.is_ws q = false ->
  Js.trim (ws1 +++ String q (t +++ String q ws2)) = String q (t +++ String q "").
Proof.
  intros H1 H2 Hq. unfold Js.trim.
  rewrite trimStart_ws by assumption.
  cbn [Js.trimStart]. rewrite Hq.
  change (String q (t +++ String q ws2)) with ((String q t) +++ String q ws2).
  change (String q ws2) with (String q "" +++ ws2).
  rewrite <- app_assoc_s, trimEnd_ws by assumption.
  now rewrite trimEnd_last.
Qed.

Lemma endsWith_last (s : string) (q : ascii) :
  Js.endsWith (s +++ String q "") (String q "") = true.
Proof.
  unfold Js.endsWith. rewrite length_append. cbn [String.length].
  replace (String.length s + 1 - 1) with (String.length s) by lia.
  rewrite substring_skip. cbn.
  rewrite Ascii.eqb_refl. destruct (String.length s); reflexivity.
Qed.

Lemma startsWith_first (s : string) (q : ascii) :
  Js.startsWith (String q s) (String q "") = true.
Proof.
  unfold Js.startsWith. cbn. destruct (ascii_dec q q); [|congruence].
  now destruct s.
Qed.

Lemma slice_inner (t : string) (q : ascii) :
  Js.slice (String q (t +++ String q "")) 1 (-1) = t.
Proof.
  unfold Js.slice. cbn [String.length Z.ltb Z.compare].
  rewrite length_append. cbn [String.length].
  replace (Z.min 1 (Z.of_nat (S (String.length t + 1)))) with 1%Z by lia.
  replace (Z.max (Z.of_nat (S (String.length t + 1)) + -1) 0)
    with (Z.of_nat (String.length t) + 1)%Z by lia.
  replace (Z.to_nat (Z.of_nat (String.length t) + 1 - 1)) with (String.length t) by lia.
  cbn [Z.to_nat Pos.to_nat Pos.iter_op Nat.add substring].
  apply substring_take.
Qed.

(** The round trip: a token wrapped in matching quotes and surrounded by
    white space sanitizes to the token, whatever white space the token
    itself holds. *)
Lemma sanitizeKey_roundtrip (ws1 ws2 t q : string) :
  Js.all_ws ws1 = true -> Js.all_ws ws2 = true ->
  q = dquote \/ q = squote ->
  sanitizeKey (ws1 +++ q +++ t +++ q +++ ws2) = Some t.
Proof.
  intros H1 H2 Hq. unfold sanitizeKey.
  assert (Hk : exists c, q = String c "" /\ Js.is_ws c = false
                         /\ (c = ascii_of_nat 34 \/ c = ascii_of_nat 39)).
  { destruct Hq as [-> | ->]; eexists; repeat split; auto. }
  destruct Hk as (c & -> & Hc & Hcq).
  cbn [String.append].
  replace (Js.truthy (ws1 +++ String c (t +++ String c ws2))) with true
    by (destruct ws1; reflexivity).
  cbn [negb]. rewrite trim_quoted by assumption.
  change (String c (t +++ String c "")) with (String c t +++ String c "") at 2 4.
  rewrite !slice_inner.
  destruct Hcq as [-> | ->].
  - unfold dquote. now rewrite endsWith_last, startsWith_first.
  - unfold squote. rewrite endsWith_last, startsWith_first.
    now rewrite orb_true_r.
Qed.

End StringFacts.

(** ** The driver's monad *)

Section MonadFacts.

Lemma prepend_nil {A} (r : Res A) : prepend [] r = r.
Proof. now destruct r. Qed.

Lemma prepend_prepend {A} (l1 l2 : list Effect) (r : Res A) :
  prepend l1 (prepend l2 r) = prepend (l1 ++ l2) r.
Proof. unfold prepend. cbn. now rewrite app_assoc. Qed.

Lemma bind_returned {A B} (m : M A) (f : A -> M B) c a c' tr :
  m c = mkRes (Returned a) c' tr -> bind m f c = prepend tr (f a c').
Proof. intros H. unfold bind. now rewrite H. Qed.

Lemma bind_thrown {A B} (m : M A) (f : A -> M B) c e c' tr :
  m c = mkRes (Thrown e) c' tr -> bind m f c = mkRes (Thrown e) c' tr.
Proof. intros H. unfold bind. now rewrite H. Qed.

Lemma bind_prepend {A B} (m : M A) (f : A -> M B) c l (r : Res A) :
  m c = prepend l r ->
  bind m f c = prepend l (match out r with
                          | Returned a => prepend (trace r) (f a (clk r))
                          | Thrown e => mkRes (Thrown e) (clk r) (trace r)
                          | Awaiting => mkRes Awaiting (clk r) (trace r)
                          end).
Proof.
  intros H. unfold bind. rewrite H.
  destruct r as [[a|e|] c' tr]; unfold prepend; cbn; now rewrite ?app_assoc.
Qed.

Lemma trace_all_ret {A} P (a : A) : trace_all P (ret a).
Proof. intros c. constructor. Qed.

Lemma trace_all_throw {A} P e : trace_all P (@throw A e).
Proof. intros c. constructor. Qed.

Lemma trace_all_awaiting {A} P : trace_all P (@awaiting A).
Proof. intros c. constructor. Qed.

Lemma trace_all_tick P : trace_all P tick.
Proof. intros c. constructor. Qed.

Lemma trace_all_now P : trace_all P now.
Proof. intros c. constructor. Qed.

Lemma trace_all_emit (P : Effect -> Prop) ev : P ev -> trace_all P (emit ev).
Proof. intros H c. cbn. now repeat constructor. Qed.

Lemma trace_all_bind {A B} P (m : M A) (f : A -> M B) :
  trace_all P m -> (forall a, trace_all P (f a)) -> trace_all P (bind m f).
Proof.
  intros Hm Hf c. unfold bind. specialize (Hm c).
  destruct (m c) as [[a|e|] c' tr]; cbn in *; auto.
  apply Forall_app. split; [assumption | apply Hf].
Qed.

Lemma trace_all_try_catch {A} P (m : M A) (h : JsError -> M A) :
  trace_all P m -> (forall e, trace_all P (h e)) -> trace_all P (try_catch m h).
Proof.
  intros Hm Hh c. unfold try_catch. specialize (Hm c).
  destruct (m c) as [[a|e|] c' tr]; cbn in *; auto.
  apply Forall_app. split; [assumption | apply Hh].
Qed.

Lemma trace_all_if {A} P (b : bool) (m1 m2 : M A) :
  trace_all P m1 -> trace_all P m2 -> trace_all P (if b then m1 else m2).
Proof. now destruct b. Qed.

End MonadFacts.

Create HintDb traces.

#[local] Hint Resolve trace_all_ret trace_all_throw trace_all_awaiting
  trace_all_tick trace_all_now trace_all_emit trace_all_bind
  trace_all_try_catch trace_all_if : traces.

Lemma count_submits_app (l1 l2 : list Effect) :
  count_submits (l1 ++ l2) = count_submits l1 + count_submits l2.
Proof. unfold count_submits. now rewrite filter_app, length_app. Qed.

Lemma waits_app (l1 l2 : list Effect) : waits (l1 ++ l2) = waits l1 ++ waits l2.
Proof. unfold waits. now rewrite flat_map_app. Qed.

(** ** Phase A: the submission loop *)

Section SubmitFacts.
Context {url_api : UrlApi}.
Variable env : Env.

Arguments aborted : simpl never.

Lemma aborted_never c : never_stopped env -> aborted env c = false.
Proof. intros [H1 H2]. unfold aborted. now rewrite H1, H2. Qed.

Ltac run_quiet Hn :=
  unfold bind, check_abort, wait, onProgress, emit, tick, now, throw, ret,
    awaiting, prepend;
  repeat (rewrite ?(fun c => aborted_never c Hn); cbn).

Lemma submit_loop_retry req e replies a b c :
  never_stopped env -> retryable e = true -> (a + 1 <= MAX_START_RETRIES)%Z ->
  submit_loop env req (inl e :: replies) a b c
  = prepend [ESubmit req; EProgress (retry_message e b (a + 1)); EWait b]
      (submit_loop env req replies (a + 1) (next_backoff b) (S (S c))).
Proof.
  intros Hn He Ha. unfold retryable in He.
  cbn [submit_loop]. run_quiet Hn. rewrite He.
  destruct (a + 1 >? MAX_START_RETRIES)%Z eqn:E; [lia|].
  run_quiet Hn. reflexivity.
Qed.

Lemma submit_loop_exhausted req e replies a b c :
  never_stopped env -> retryable e = true -> (a + 1 > MAX_START_RETRIES)%Z ->
  submit_loop env req (inl e :: replies) a b c
  = mkRes (Thrown (Error msg_retries_exhausted)) (S c) [ESubmit req].
Proof.
  intros Hn He Ha. unfold retryable in He.
  cbn [submit_loop]. run_quiet Hn. rewrite He.
  destruct (a + 1 >? MAX_START_RETRIES)%Z eqn:E; [|lia].
  reflexivity.
Qed.

Lemma submit_loop_fatal req e replies a b c :
  never_stopped env -> retryable e = false ->
  submit_loop env req (inl e :: replies) a b c
  = mkRes (Thrown (Error (Js.or_else (e_message e) "Failed to start generation")))
      (S c) [ESubmit req].
Proof.
  intros Hn He. unfold retryable in He.
  cbn [submit_loop]. run_quiet Hn. rewrite He. reflexivity.
Qed.

Lemma submit_loop_ok req op replies a b c :
  never_stopped env ->
  submit_loop env req (inr op :: replies) a b c
  = mkRes (Returned op) (S c) [ESubmit req].
Proof. intros Hn. cbn [submit_loop]. run_quiet Hn. reflexivity. Qed.

Lemma iter_backoffs (b : Z) (n : nat) :
  map (fun i => Nat.iter i next_backoff b) (seq 0 (S n))
  = b :: map (fun i => Nat.iter i next_backoff (next_backoff b)) (seq 0 n).
Proof.
  cbn [seq map Nat.iter nat_rect]. f_equal.
  rewrite <- seq_shift, map_map. apply map_ext. intros i.
  now rewrite Nat.iter_succ_r.
Qed.

(** [k] retryable failures in a row, the counter allowing: [k] submissions,
    [k] waits of growing length, and the loop goes on with the counters
    advanced. *)
Lemma submit_loop_retries req errs : forall replies a b c,
  never_stopped env -> Forall (fun e => retryable e = true) errs ->
  (a + Z.of_nat (length errs) <= MAX_START_RETRIES)%Z ->
  exists tr,
    submit_loop env req (map inl errs ++ replies) a b c
    = prepend tr (submit_loop env req replies (a + Z.of_nat (length errs))
                    (Nat.iter (length errs) next_backoff b) (2 * length errs + c))
    /\ count_submits tr = length errs
    /\ waits tr = map (fun i => Nat.iter i next_backoff b) (seq 0 (length errs)).
Proof.
  induction errs as [|e errs IH]; intros replies a b c Hn Hall Hle.
  - exists []. cbn [map app length seq Nat.iter nat_rect Nat.mul Nat.add Z.of_nat].
    rewrite Z.add_0_r, prepend_nil. repeat split.
  - inversion Hall as [|? ? He Hall']; subst.
    cbn [map app length] in *.
    rewrite submit_loop_retry by (auto; lia).
    destruct (IH replies (a + 1)%Z (next_backoff b) (S (S c)) Hn Hall')
      as (tr & Heq & Hcnt & Hw); [lia |].
    exists ([ESubmit req; EProgress (retry_message e b (a + 1)); EWait b] ++ tr).
    split; [|split].
    + rewrite Heq, prepend_prepend. rewrite Nat.iter_succ_r.
      replace (a + 1 + Z.of_nat (length errs))%Z
        with (a + Z.of_nat (S (length errs)))%Z by lia.
      replace (2 * length errs + S (S c)) with (2 * S (length errs) + c) by lia.
      reflexivity.
    + rewrite count_submits_app, Hcnt. reflexivity.
    + rewrite waits_app, Hw, iter_backoffs. reflexivity.
Qed.

End SubmitFacts.

(** ** The backoff sequence *)

Lemma next_backoff_cap : next_backoff 120000 = 120000%Z.
Proof. reflexivity. Qed.

Lemma iter_backoff_cap n : Nat.iter n next_backoff 120000%Z = 120000%Z.
Proof.
  induction n as [|n IH]; [reflexivity|].
  cbn [Nat.iter nat_rect]. fold (Nat.iter n next_backoff 120000%Z).
  now rewrite IH.
Qed.

Lemma iter_backoff_seq n : Nat.iter n next_backoff 20000%Z = backoff_seq n.
Proof.
  do 5 (destruct n as [|n]; [reflexivity|]).
  replace (S (S (S (S (S n))))) with (n + 5) by lia.
  rewrite Nat.iter_add.
  change (Nat.iter 5 next_backoff 20000%Z) with 120000%Z.
  rewrite iter_backoff_cap.
  replace (n + 5) with (S (S (S (S (S n))))) by lia.
  unfold backoff_seq. cbn [nth]. now destruct n.
Qed.

(** The integer arithmetic of [next_backoff] agrees with the rational
    arithmetic of the source, and the table [backoff_seq] with the rule
    of the specification. *)

Module BackoffRule.
Import QArith Qpower Qminmax.
Local Open Scope Q_scope.

Lemma times_1_5_exact (b : Z) :
  Z.even b = true -> inject_Z (b * 3 / 2) == inject_Z b * (3 # 2).
Proof.
  intros H. apply Z.even_spec in H as [k ->].
  replace (2 * k * 3 / 2)%Z with (3 * k)%Z.
  - unfold Qeq, inject_Z, Qmult. cbn [Qnum Qden Pos.mul]. lia.
  - replace (2 * k * 3)%Z with (3 * k * 2)%Z by lia. now rewrite Z.div_mul by lia.
Qed.

Lemma next_backoff_exact (b : Z) :
  Z.even b = true ->
  inject_Z (next_backoff b) == Qmin (inject_Z b * (3 # 2)) (inject_Z 120000).
Proof.
  intros H. unfold next_backoff. rewrite <- times_1_5_exact by assumption.
  destruct (Z.min_spec (b * 3 / 2) 120000) as [[Hlt ->] | [Hle ->]].
  - rewrite Q.min_l; [reflexivity|]. rewrite <- Zle_Qle. lia.
  - rewrite Q.min_r; [reflexivity|]. rewrite <- Zle_Qle. lia.
Qed.

Lemma backoff_seq_even n : Z.even (backoff_seq n) = true.
Proof. unfold backoff_seq. do 6 (destruct n as [|n]; [reflexivity|]). reflexivity. Qed.

Lemma power_step n : (3 # 2) ^ Z.of_nat (S n) == (3 # 2) * (3 # 2) ^ Z.of_nat n.
Proof.
  rewrite Nat2Z.inj_succ. unfold Z.succ. rewrite Qpower_plus by discriminate. 
  rewrite Qmult_comm. reflexivity.
Qed.

Lemma power_large n : 6 <= (3 # 2) ^ Z.of_nat (5 + n).
Proof.
  induction n as [|n IH].
  - vm_compute. discriminate.
  - replace (5 + S n)%nat with (S (5 + n)) by lia. rewrite power_step.
    apply Qle_trans with (1 * (3 # 2) ^ Z.of_nat (5 + n)).
    + now rewrite Qmult_1_l.
    + apply Qmult_le_compat_r; [discriminate|].
      apply Qle_trans with 6; [discriminate | assumption].
Qed.

Lemma backoff_seq_rule n : inject_Z (backoff_seq n) == backoff_rule n.
Proof.
  unfold backoff_rule.
  do 5 (destruct n as [|n]; [vm_compute; reflexivity|]).
  change (S (S (S (S (S n))))) with (5 + n)%nat.
  rewrite Q.min_r.
  - unfold backoff_seq. cbn. destruct n; reflexivity.
  - apply Qle_trans with (inject_Z 20000 * 6).
    + vm_compute. discriminate.
    + rewrite !(Qmult_comm (inject_Z 20000)). apply Qmult_le_compat_r; [apply power_large | discriminate].
Qed.
End BackoffRule.

(** On every value of the sequence the integer arithmetic of
    [next_backoff] is the arithmetic of the source. *)
Lemma next_backoff_on_sequence (n : nat) :
  QArith_base.Qeq
    (QArith_base.inject_Z (next_backoff (backoff_seq n)))
    (Qminmax.Qmin
       (QArith_base.Qmult (QArith_base.inject_Z (backoff_seq n)) (QArith_base.Qmake 3 2))
       (QArith_base.inject_Z 120000)).
Proof. apply BackoffRule.next_backoff_exact, BackoffRule.backoff_seq_even. Qed.


(** ** The driver up to the submission loop *)

Section DriverFacts.
Context {url_api : UrlApi}.
Variable env : Env.

Arguments aborted : simpl never.

Ltac run_quiet Hn :=
  unfold bind, check_abort, wait, onProgress, emit, tick, now, throw, ret,
    awaiting, prepend;
  repeat (rewrite ?(fun c => aborted_never env c Hn); cbn).

Lemma init_direct_clock key c :
  init_direct env key c
  = mkRes (out (init_direct env key 0)) c (trace (init_direct env key 0)).
Proof.
  unfold init_direct.
  destruct (resolve_key key (env_key env)) as [k|]; [|reflexivity].
  destruct (Js.truthy k); reflexivity.
Qed.

Lemma init_clock key vc c :
  init env key vc c = mkRes (out (init env key vc 0)) c (trace (init env key vc 0)).
Proof.
  unfold init.
  destruct vc as [vc|]; [|apply init_direct_clock].
  destruct (Js.truthy (projectId vc) && Js.truthy (accessToken vc));
    [|apply init_direct_clock].
  destruct (negb (Js.truthy (location vc))); reflexivity.
Qed.

Lemma init_trace key vc :
  trace_all (fun ev => match ev with EInit _ => True | _ => False end) (init env key vc).
Proof.
  intros c. unfold init, init_direct.
  destruct vc as [vc|];
    [destruct (Js.truthy (projectId vc) && Js.truthy (accessToken vc));
     [destruct (negb (Js.truthy (location vc)))|]|];
  try (destruct (resolve_key key (env_key env)) as [k|]; [destruct (Js.truthy k)|]);
  cbn; repeat constructor.
Qed.

Lemma init_quiet key vc c :
  count_submits (trace (init env key vc c)) = 0 /\ waits (trace (init env key vc c)) = [].
Proof.
  pose proof (init_trace key vc c) as H.
  induction H as [|ev l Hev _ [IH1 IH2]]; [now split|].
  destruct ev; try contradiction. now split.
Qed.

Lemma check_abort_quiet c : never_stopped env -> check_abort env c = mkRes (Returned tt) c [].
Proof. intros Hn. unfold check_abort. run_quiet Hn. reflexivity. Qed.

Lemma wait_quiet ms c :
  never_stopped env -> wait env ms c = mkRes (Returned tt) (S c) [EWait ms].
Proof. intros Hn. unfold wait. run_quiet Hn. reflexivity. Qed.

Lemma fileToBase64_ok f b64 c :
  encode_reply env = inr b64 ->
  fileToBase64 env f c = mkRes (Returned b64) (S c) [EEncode f].
Proof. intros He. unfold fileToBase64. run_quiet I. now rewrite He. Qed.

Lemma init_returned key vc uv c :
  out (init env key vc 0) = Returned uv ->
  init env key vc c = mkRes (Returned uv) c (trace (init env key vc 0)).
Proof. intros H. now rewrite init_clock, H. Qed.

Lemma generateVideo_phaseA f cfg key vc uv b64 :
  reaches_submission env key vc uv b64 ->
  generateVideo env f cfg key vc 0
  = prepend (trace (init env key vc 0)
             ++ [EProgress "Encoding image..."; EEncode f;
                 EProgress "Initializing generation..."])
      (bind (submit_loop env (submit_request f cfg b64) (submit_replies env) 0 20000)
            (fun operation => after_submission env operation uv key vc) 1).
Proof.
  intros (Hn & Hi & He).
  unfold generateVideo.
  erewrite bind_returned by (apply check_abort_quiet; exact Hn).
  erewrite bind_returned by (apply init_returned; exact Hi).
  erewrite bind_returned by reflexivity.
  erewrite bind_returned by (apply fileToBase64_ok; exact He).
  erewrite bind_returned by reflexivity.
  rewrite !prepend_prepend. cbn [app]. rewrite <- !app_assoc. reflexivity.
Qed.


(** Whatever the cancellation does, a script of retryable failures never
    makes the loop return, nor submit more than 51 times. *)

Ltac fin := split; [cbn; lia | intros ? ?; discriminate].

Lemma submit_loop_bound req replies : forall a b c,
  (0 <= a <= MAX_START_RETRIES)%Z ->
  Forall retryable_failure replies ->
  count_submits (trace (submit_loop env req replies a b c)) <= Z.to_nat (51 - a)
  /\ (forall op, out (submit_loop env req replies a b c) <> Returned op).
Proof.
  unfold MAX_START_RETRIES.
  induction replies as [|r replies IH]; intros a b c Ha Hall.
  - cbn [submit_loop]. unfold bind, check_abort, now, awaiting, throw, ret, prepend. cbn.
    destruct (aborted env c); cbn; fin.
  - inversion Hall as [|? ? Hr Hall']; subst.
    destruct r as [e|op]; [|contradiction]. cbn in Hr. unfold retryable in Hr.
    assert (Hb1 : 1 <= Z.to_nat (51 - a)) by lia.
    assert (Hb2 : (a + 1 <= 50)%Z -> 1 + Z.to_nat (51 - (a + 1)) <= Z.to_nat (51 - a)) by lia.
    set (bound := Z.to_nat (51 - a)) in *. clearbody bound.
    cbn [submit_loop].
    unfold wait.
    unfold bind, check_abort, onProgress, emit, tick, now, throw, ret, awaiting, prepend.
    cbn.
    destruct (aborted env c); cbn; [fin|].
    destruct (aborted env (S c)) eqn:A1; cbn; [fin|].
    rewrite Hr. unfold MAX_START_RETRIES.
    destruct (a + 1 >? 50)%Z eqn:E; cbn; [fin|].
    rewrite ?A1; cbn. destruct (aborted env (S (S c))); cbn; [fin|].
    destruct (IH (a + 1)%Z (next_backoff b) (S (S c))) as [IH1 IH2]; [lia | assumption |].
    specialize (Hb2 ltac:(lia)).
    set (bound' := Z.to_nat (51 - (a + 1))) in *. clearbody bound'.
    destruct (out (submit_loop env req replies (a + 1) (next_backoff b) (S (S c)))) eqn:Eo;
      cbn; [exfalso; eapply IH2; eauto | |];
      (split; [|intros ? ?; discriminate]);
      unfold count_submits in *; cbn [filter is_submit length]; lia.
Qed.

End DriverFacts.

(** ** Traces of the driver's building blocks *)

Section TraceFacts.
Context {url_api : UrlApi}.
Variable env : Env.
Variable P : Effect -> Prop.

Lemma check_abort_trace : trace_all P (check_abort env).
Proof.
  unfold check_abort. apply trace_all_bind; [apply trace_all_now|].
  intros c. apply trace_all_if; auto with traces.
Qed.

Lemma wait_trace ms : P (EWait ms) -> trace_all P (wait env ms).
Proof.
  intros H. unfold wait.
  repeat (apply trace_all_bind; [|intros ?]);
    auto using check_abort_trace with traces.
Qed.

Lemma onProgress_trace s : P (EProgress s) -> trace_all P (onProgress s).
Proof. intros H. now apply trace_all_emit. Qed.

Lemma init_direct_trace key : (forall c, P (EInit c)) -> trace_all P (init_direct env key).
Proof.
  intros H. unfold init_direct.
  destruct (resolve_key key (env_key env)) as [k|]; [|auto with traces].
  apply trace_all_if; auto with traces.
Qed.

Lemma init_trace_all key vc : (forall c, P (EInit c)) -> trace_all P (init env key vc).
Proof.
  intros H. unfold init.
  destruct vc as [vc|]; [|now apply init_direct_trace].
  apply trace_all_if; [|now apply init_direct_trace].
  apply trace_all_if; auto with traces.
Qed.

Lemma fileToBase64_trace f : P (EEncode f) -> trace_all P (fileToBase64 env f).
Proof.
  intros H. unfold fileToBase64.
  repeat (apply trace_all_bind; [|intros ?]); auto with traces.
  destruct (encode_reply env); auto with traces.
Qed.

Lemma submit_loop_trace req replies : forall a b,
  P (ESubmit req) -> (forall s, P (EProgress s)) -> (forall ms, P (EWait ms)) ->
  trace_all P (submit_loop env req replies a b).
Proof.
  induction replies as [|r replies IH]; intros a b H1 H2 H3; cbn [submit_loop].
  - apply trace_all_bind; [apply check_abort_trace | auto with traces].
  - apply trace_all_bind; [apply check_abort_trace | intros _].
    apply trace_all_bind; [auto with traces | intros _].
    apply trace_all_bind; [auto with traces | intros _].
    destruct r as [e|op]; [|auto with traces].
    apply trace_all_bind; [apply check_abort_trace | intros _].
    apply trace_all_if; [|auto with traces].
    apply trace_all_if; [auto with traces|].
    apply trace_all_bind; [now apply onProgress_trace | intros _].
    apply trace_all_bind; [now apply wait_trace | intros _].
    now apply IH.
Qed.

Lemma poll_loop_trace replies : forall op rc,
  (forall o, P (EPoll o)) -> (forall ms, P (EWait ms)) ->
  trace_all P (poll_loop env replies op rc).
Proof.
  induction replies as [|r replies IH]; intros op rc H1 H2; cbn [poll_loop].
  - apply trace_all_if; [auto with traces|].
    apply trace_all_bind; [apply check_abort_trace | intros _].
    apply trace_all_bind; [now apply wait_trace | auto with traces].
  - apply trace_all_if; [auto with traces|].
    apply trace_all_bind; [apply check_abort_trace | intros _].
    apply trace_all_bind; [now apply wait_trace | intros _].
    apply trace_all_bind; [auto with traces | intros _].
    apply trace_all_bind; [auto with traces | intros _].
    destruct r as [e|res]; [|now apply IH].
    apply trace_all_bind; [apply check_abort_trace | intros _].
    apply trace_all_if.
    + apply trace_all_if; [auto with traces | now apply IH].
    + apply trace_all_if; [|auto with traces].
      apply trace_all_bind; [now apply wait_trace | intros _]. now apply IH.
Qed.

Lemma fetch_trace r : P (EFetch r) -> trace_all P (fetch env r).
Proof.
  intros H. unfold fetch.
  apply trace_all_bind; [auto with traces | intros _].
  apply trace_all_bind; [auto with traces | intros c].
  apply trace_all_if; [auto with traces|].
  apply trace_all_bind; [auto with traces | intros _].
  apply trace_all_bind; [auto with traces | intros c'].
  apply trace_all_if; [auto with traces|].
  destruct (fetch_reply env); auto with traces.
Qed.

Lemma read_blob_trace body : P EBlob -> trace_all P (read_blob env body).
Proof.
  intros H. unfold read_blob.
  apply trace_all_bind; [auto with traces | intros _].
  apply trace_all_bind; [auto with traces | intros _].
  apply trace_all_bind; [auto with traces | intros c].
  apply trace_all_if; [auto with traces|].
  destruct body; auto with traces.
Qed.

Lemma download_trace link uv key vc :
  (forall r, P (EFetch r)) -> P EBlob -> trace_all P (download env link uv key vc).
Proof.
  intros H1 H2. unfold download, new_URL.
  apply trace_all_try_catch; [|auto with traces].
  apply trace_all_bind; [destruct (URL_new link); auto with traces | intros url].
  destruct uv.
  - apply trace_all_bind; [now apply fetch_trace | intros [[ok st] body]].
    apply trace_all_if; [auto with traces | now apply read_blob_trace].
  - apply trace_all_bind; [now apply fetch_trace | intros [[ok st] body]].
    apply trace_all_if; [auto with traces | now apply read_blob_trace].
Qed.

End TraceFacts.

Section GenerateVideoTrace.
Context {url_api : UrlApi}.
Variable env : Env.
Variable P : Effect -> Prop.

Lemma after_polling_trace op uv key vc :
  (forall ev, is_submit ev = false -> P ev) ->
  trace_all P (after_polling env op uv key vc).
Proof.
  intros H. unfold after_polling.
  destruct (extract_result op); [auto with traces|].
  apply trace_all_bind; [now apply onProgress_trace, H | intros _].
  apply download_trace; intros; now apply H.
Qed.

Lemma after_submission_trace op uv key vc :
  (forall ev, is_submit ev = false -> P ev) ->
  trace_all P (after_submission env op uv key vc).
Proof.
  intros H. unfold after_submission.
  apply trace_all_if; [auto with traces|].
  apply trace_all_bind; [now apply onProgress_trace, H | intros _].
  apply trace_all_bind; [now apply wait_trace, H | intros _].
  apply trace_all_bind; [apply poll_loop_trace; intros; now apply H | intros op'].
  now apply after_polling_trace.
Qed.

Lemma generateVideo_trace f cfg key vc :
  (forall ev, is_submit ev = false -> P ev) ->
  (forall b64, P (ESubmit (submit_request f cfg b64))) ->
  trace_all P (generateVideo env f cfg key vc).
Proof.
  intros H Hs. unfold generateVideo.
  apply trace_all_bind; [apply check_abort_trace | intros _].
  apply trace_all_bind; [apply init_trace_all; intros; now apply H | intros uv].
  apply trace_all_bind; [now apply onProgress_trace, H | intros _].
  apply trace_all_bind; [now apply fileToBase64_trace, H | intros b64].
  apply trace_all_bind; [now apply onProgress_trace, H | intros _].
  apply trace_all_bind; [| intros op; now apply after_submission_trace].
  apply submit_loop_trace; [apply Hs | |]; intros; now apply H.
Qed.

End GenerateVideoTrace.

Lemma count_submits_quiet (l : list Effect) :
  Forall (fun ev => is_submit ev = false) l -> count_submits l = 0.
Proof.
  induction 1 as [|ev l Hev _ IH]; [reflexivity|].
  unfold count_submits in *. cbn [filter]. now rewrite Hev.
Qed.

Lemma count_bind_quiet {A B} (m : M A) (f : A -> M B) n c :
  trace_all (fun ev => is_submit ev = false) m ->
  (forall a c', count_submits (trace (f a c')) <= n) ->
  count_submits (trace (bind m f c)) <= n.
Proof.
  intros Hm Hf. unfold bind. pose proof (count_submits_quiet _ (Hm c)) as H0.
  destruct (m c) as [[a|e|] c' tr]; cbn [trace prepend] in *; try lia.
  rewrite count_submits_app, H0. apply Hf.
Qed.

Section SubmissionBound.
Context {url_api : UrlApi}.
Variable env : Env.

(** Whatever the cancellation does: if every reply to a submission is a
    retryable failure, the driver submits at most 51 times. *)
Lemma generateVideo_submits_bound f cfg key vc c :
  Forall retryable_failure (submit_replies env) ->
  count_submits (trace (generateVideo env f cfg key vc c)) <= 51.
Proof.
  intros Hall. unfold generateVideo.
  apply count_bind_quiet; [apply check_abort_trace | intros _ c1].
  apply count_bind_quiet; [now apply init_trace_all | intros uv c2].
  apply count_bind_quiet; [now apply onProgress_trace | intros _ c3].
  apply count_bind_quiet; [now apply fileToBase64_trace | intros b64 c4].
  apply count_bind_quiet; [now apply onProgress_trace | intros _ c5].
  destruct (submit_loop_bound env (submit_request f cfg b64) (submit_replies env)
              0 20000 c5) as [Hb Hnr]; [unfold MAX_START_RETRIES; lia | assumption |].
  unfold bind.
  destruct (submit_loop env (submit_request f cfg b64) (submit_replies env) 0 20000 c5)
    as [[op|e|] c6 tr]; cbn [out trace] in *;
    [exfalso; now apply (Hnr op) | |]; exact Hb.
Qed.

End SubmissionBound.

(** ** Claims about the submission loop *)

Section SubmissionClaims.
Context {url_api : UrlApi}.
Variable env : Env.

Lemma failures_are_errors (replies : list (JsError + Operation)) :
  Forall retryable_failure replies ->
  exists errs, replies = map inl errs /\ Forall (fun e => retryable e = true) errs.
Proof.
  induction 1 as [|r l Hr _ (errs & -> & Hall)].
  - now exists [].
  - destruct r as [e|op]; [|contradiction]. exists (e :: errs). split; [reflexivity|].
    now constructor.
Qed.

Lemma exhausted_exact f cfg key vc uv b64 errs more :
  reaches_submission env key vc uv b64 ->
  submit_replies env = map inl errs ++ more ->
  length errs = 51 ->
  Forall (fun e => retryable e = true) errs ->
  out (generateVideo env f cfg key vc 0) = Thrown (Error msg_retries_exhausted)
  /\ count_submits (trace (generateVideo env f cfg key vc 0)) = 51.
Proof.
  intros Hr Hs Hlen Hall.
  rewrite (generateVideo_phaseA env f cfg key vc uv b64 Hr).
  destruct Hr as (Hn & Hi & He).
  assert (Hsplit : exists errs50 e, errs = errs50 ++ [e] /\ length errs50 = 50).
  { destruct (exists_last (l := errs)) as (l & e & ->); [now destruct errs|].
    exists l, e. split; [reflexivity|]. rewrite length_app in Hlen. cbn in Hlen. lia. }
  destruct Hsplit as (errs50 & e & -> & Hlen50).
  apply Forall_app in Hall as [Hall50 He51]. inversion He51 as [|? ? Hre _]; subst.
  rewrite Hs, map_app, <- app_assoc. cbn [map app].
  destruct (submit_loop_retries env (submit_request f cfg b64) errs50
              (inl e :: more) 0 20000 1 Hn Hall50) as (tr & Heq & Hcnt & _).
  { rewrite Hlen50. unfold MAX_START_RETRIES. lia. }
  erewrite bind_thrown.
  2:{ rewrite Heq, submit_loop_exhausted; auto.
      - unfold prepend. cbn. reflexivity.
      - rewrite Hlen50. unfold MAX_START_RETRIES. lia. }
  unfold prepend. cbn [out trace clk]. split; [reflexivity|].
  rewrite !count_submits_app, Hcnt, Hlen50.
  destruct (init_quiet env key vc 0) as [-> _]. reflexivity.
Qed.

(** C2.  When every reply to a submission is a failure classified as
    rate-limited or transient, the driver never submits more than 51 times,
    whatever the cancellation does; and in a run that is not cancelled and
    gets 51 such replies, the 51st failure makes the driver fail with the
    retries-exhausted error, after exactly 51 submissions. *)
Theorem retries_exhausted_after_51 f cfg key vc uv b64 :
  Forall retryable_failure (submit_replies env) ->
  count_submits (trace (generateVideo env f cfg key vc 0)) <= 51
  /\ (reaches_submission env key vc uv b64 ->
      51 <= length (submit_replies env) ->
      out (generateVideo env f cfg key vc 0) = Thrown (Error msg_retries_exhausted)
      /\ count_submits (trace (generateVideo env f cfg key vc 0)) = 51).
Proof.
  intros Hall. split; [now apply generateVideo_submits_bound|].
  intros Hr Hlen.
  destruct (failures_are_errors _ Hall) as (errs & Heq & Herrs).
  rewrite Heq, length_map in Hlen.
  apply (exhausted_exact f cfg key vc uv b64 (firstn 51 errs) (map inl (skipn 51 errs)));
    auto.
  - now rewrite Heq, <- map_app, firstn_skipn.
  - rewrite length_firstn. lia.
  - rewrite <- (firstn_skipn 51 errs) in Herrs. now apply Forall_app in Herrs.
Qed.

(** C4.  In a run that is not cancelled, the timers armed while the first
    [k <= 50] submissions fail with retryable failures are, in order,
    20000, 30000, 45000, 67500, 101250, 120000, 120000, ...: the [n]-th wait
    is [backoff_seq n], which is 20000 times 1.5 to the [n], capped at
    120000. *)
Theorem backoff_sequence f cfg key vc uv b64 errs more n :
  reaches_submission env key vc uv b64 ->
  submit_replies env = map inl errs ++ more ->
  Forall (fun e => retryable e = true) errs ->
  length errs <= 50 ->
  n < length errs ->
  nth_error (waits (trace (generateVideo env f cfg key vc 0))) n = Some (backoff_seq n)
  /\ QArith_base.Qeq (QArith_base.inject_Z (backoff_seq n)) (backoff_rule n).
Proof.
  intros Hr Hs Hall Hlen Hn. split; [|apply BackoffRule.backoff_seq_rule].
  rewrite (generateVideo_phaseA env f cfg key vc uv b64 Hr).
  destruct Hr as (Hq & Hi & He).
  destruct (submit_loop_retries env (submit_request f cfg b64) errs more 0 20000 1 Hq Hall)
    as (tr & Heq & _ & Hw).
  { unfold MAX_START_RETRIES. lia. }
  rewrite Hs. erewrite bind_prepend by exact Heq.
  unfold prepend at 1 2. cbn [trace].
  rewrite !waits_app. destruct (init_quiet env key vc 0) as [_ ->].
  cbn [waits flat_map app]. rewrite Hw.
  rewrite nth_error_app1 by (now rewrite length_map, length_seq).
  rewrite nth_error_map, nth_error_seq.
  destruct (Nat.ltb_spec n (length errs)); [|lia].
  cbn [option_map Nat.add]. f_equal. apply iter_backoff_seq.
Qed.

End SubmissionClaims.

(** ** Phase B: the polling loop *)

Section PollFacts.
Context {url_api : UrlApi}.
Variable env : Env.

Arguments aborted : simpl never.

Ltac run_quiet Hn :=
  unfold wait;
  unfold bind, check_abort, onProgress, emit, tick, now, throw, ret,
    awaiting, prepend;
  repeat (rewrite ?(fun c => aborted_never env c Hn); cbn).

Lemma poll_loop_done replies op rc c :
  op_done op = true -> poll_loop env replies op rc c = mkRes (Returned op) c [].
Proof. intros H. destruct replies; cbn [poll_loop]; now rewrite H. Qed.

Lemma poll_loop_refresh replies op rc c res :
  never_stopped env -> op_done op = false ->
  poll_loop env (inr res :: replies) op rc c
  = prepend [EWait 10000; EPoll op] (poll_loop env replies res 0 (2 + c)).
Proof.
  intros Hn Hop. cbn [poll_loop]. rewrite Hop. run_quiet Hn. reflexivity.
Qed.

Lemma poll_loop_not_found replies op rc c e :
  never_stopped env -> op_done op = false ->
  isNotFound e = true -> (rc + 1 < MAX_POLLING_RETRIES)%Z ->
  poll_loop env (inl e :: replies) op rc c
  = prepend [EWait 10000; EPoll op] (poll_loop env replies op (rc + 1) (2 + c)).
Proof.
  intros Hn Hop He Hrc. cbn [poll_loop]. rewrite Hop. run_quiet Hn. rewrite He.
  destruct (rc + 1 >=? MAX_POLLING_RETRIES)%Z eqn:E; [lia|]. reflexivity.
Qed.

Lemma poll_loop_timeout replies op rc c e :
  never_stopped env -> op_done op = false ->
  isNotFound e = true -> (rc + 1 >= MAX_POLLING_RETRIES)%Z ->
  poll_loop env (inl e :: replies) op rc c
  = mkRes (Thrown (Error msg_polling_timeout)) (2 + c) [EWait 10000; EPoll op].
Proof.
  intros Hn Hop He Hrc. cbn [poll_loop]. rewrite Hop. run_quiet Hn. rewrite He.
  destruct (rc + 1 >=? MAX_POLLING_RETRIES)%Z eqn:E; [|lia]. reflexivity.
Qed.

Lemma poll_loop_rate_limited replies op rc c e :
  never_stopped env -> op_done op = false ->
  isNotFound e = false -> isRateLimit_poll e = true ->
  poll_loop env (inl e :: replies) op rc c
  = prepend [EWait 10000; EPoll op; EWait 20000] (poll_loop env replies op rc (3 + c)).
Proof.
  intros Hn Hop He Hr. cbn [poll_loop]. rewrite Hop. run_quiet Hn. rewrite He, Hr.
  run_quiet Hn. reflexivity.
Qed.

Lemma poll_loop_fatal replies op rc c e :
  never_stopped env -> op_done op = false ->
  isNotFound e = false -> isRateLimit_poll e = false ->
  poll_loop env (inl e :: replies) op rc c
  = mkRes (Thrown e) (2 + c) [EWait 10000; EPoll op].
Proof.
  intros Hn Hop He Hr. cbn [poll_loop]. rewrite Hop. run_quiet Hn. now rewrite He, Hr.
Qed.

(** Not-found failures in a row, short of the cap: the loop goes on with
    the counter advanced by their number. *)
Lemma poll_loop_not_found_run errs : forall replies op rc c,
  never_stopped env -> op_done op = false ->
  Forall (fun e => isNotFound e = true) errs ->
  (rc + Z.of_nat (length errs) < MAX_POLLING_RETRIES)%Z ->
  exists tr,
    poll_loop env (map inl errs ++ replies) op rc c
    = prepend tr (poll_loop env replies op (rc + Z.of_nat (length errs))
                    (2 * length errs + c)).
Proof.
  induction errs as [|e errs IH]; intros replies op rc c Hn Hop Hall Hrc.
  - exists []. cbn [map app length Z.of_nat Nat.mul Nat.add].
    now rewrite Z.add_0_r, prepend_nil.
  - inversion Hall as [|? ? He Hall']; subst. cbn [map app length] in *.
    rewrite poll_loop_not_found by (auto; lia).
    destruct (IH replies op (rc + 1)%Z (2 + c) Hn Hop Hall') as (tr & Heq); [lia|].
    exists ([EWait 10000; EPoll op] ++ tr).
    rewrite Heq, prepend_prepend.
    replace (rc + 1 + Z.of_nat (length errs))%Z with (rc + Z.of_nat (S (length errs)))%Z by lia.
    replace (2 * length errs + (2 + c)) with (2 * S (length errs) + c) by lia.
    reflexivity.
Qed.

(** 120 not-found failures in a row from a counter at 0: the loop fails
    with the polling-timeout error. *)
Lemma poll_loop_120 errs replies op c :
  never_stopped env -> op_done op = false ->
  Forall (fun e => isNotFound e = true) errs ->
  length errs = 120 ->
  exists tr,
    poll_loop env (map inl errs ++ replies) op 0 c
    = mkRes (Thrown (Error msg_polling_timeout)) (240 + c) tr.
Proof.
  intros Hn Hop Hall Hlen.
  destruct (exists_last (l := errs)) as (l & e & ->); [now destruct errs|].
  rewrite length_app in Hlen. cbn [length] in Hlen.
  apply Forall_app in Hall as [Hl He]. inversion He as [|? ? Hnf _]; subst.
  rewrite map_app, <- app_assoc. cbn [map app].
  destruct (poll_loop_not_found_run l (inl e :: replies) op 0 c Hn Hop Hl) as (tr & Heq).
  { unfold MAX_POLLING_RETRIES. lia. }
  rewrite Heq, poll_loop_timeout by (auto; unfold MAX_POLLING_RETRIES; lia).
  eexists. unfold prepend. cbn [out clk trace]. f_equal. lia.
Qed.

End PollFacts.

Section PollClaims.
Context {url_api : UrlApi}.
Variable env : Env.

Lemma after_submission_timeout op0 uv key vc perrs more c :
  never_stopped env ->
  Js.truthy (op_name op0) = true -> op_done op0 = false ->
  poll_replies env = map inl perrs ++ more ->
  Forall (fun e => isNotFound e = true) perrs -> length perrs = 120 ->
  out (after_submission env op0 uv key vc c) = Thrown (Error msg_polling_timeout).
Proof.
  intros Hn Hname Hop Hp Hall Hlen. unfold after_submission.
  rewrite Hname. cbn [negb].
  erewrite bind_returned by reflexivity.
  erewrite bind_returned by (apply wait_quiet; exact Hn).
  destruct (poll_loop_120 env perrs more op0 (S c) Hn Hop Hall Hlen) as (tr & Heq).
  rewrite Hp. erewrite bind_thrown by exact Heq. reflexivity.
Qed.

(** The not-found counter does not start from the submission counter:
    however many submissions were retried, the 120th not-found failure in a
    row is the one that fails the driver. *)
Lemma polling_timeout_after_retries f cfg key vc uv b64 serrs op0 more_s perrs more_p :
  reaches_submission env key vc uv b64 ->
  submit_replies env = map inl serrs ++ inr op0 :: more_s ->
  Forall (fun e => retryable e = true) serrs -> length serrs <= 50 ->
  Js.truthy (op_name op0) = true -> op_done op0 = false ->
  poll_replies env = map inl perrs ++ more_p ->
  Forall (fun e => isNotFound e = true) perrs -> length perrs = 120 ->
  out (generateVideo env f cfg key vc 0) = Thrown (Error msg_polling_timeout).
Proof.
  intros Hr Hs Hsall Hslen Hname Hop Hp Hpall Hplen.
  rewrite (generateVideo_phaseA env f cfg key vc uv b64 Hr).
  destruct Hr as (Hn & Hi & He).
  destruct (submit_loop_retries env (submit_request f cfg b64) serrs (inr op0 :: more_s)
              0 20000 1 Hn Hsall) as (tr & Heq & _ & _).
  { unfold MAX_START_RETRIES. lia. }
  rewrite submit_loop_ok in Heq by assumption.
  rewrite Hs. erewrite bind_prepend by exact Heq.
  unfold prepend. cbn [out clk trace].
  eapply after_submission_timeout; eauto.
Qed.

(** C3, amended.  The polling loop, in a run that is not cancelled, for an
    operation that is not done: a successful refresh replaces the snapshot
    and sets the not-found counter to 0; a failure the not-found test
    matches, whatever else it matches, advances the counter and fails with
    the polling-timeout error when the counter reaches 120, so that 120
    such failures in a row after a refresh (or from the start) fail the
    driver, however many submissions were retried before; a failure the
    not-found test does not match and the rate-limit test does arms one
    more timer of 20000 ms and leaves the counter as it is; a failure that
    neither test matches is thrown as it is. *)
Theorem polling_policy replies op rc c :
  never_stopped env -> op_done op = false ->
  (forall res,
     poll_loop env (inr res :: replies) op rc c
     = prepend [EWait 10000; EPoll op] (poll_loop env replies res 0 (2 + c)))
  /\ (forall e, isNotFound e = true -> (rc + 1 < 120)%Z ->
        poll_loop env (inl e :: replies) op rc c
        = prepend [EWait 10000; EPoll op] (poll_loop env replies op (rc + 1) (2 + c)))
  /\ (forall e, isNotFound e = true -> (rc + 1 >= 120)%Z ->
        poll_loop env (inl e :: replies) op rc c
        = mkRes (Thrown (Error msg_polling_timeout)) (2 + c) [EWait 10000; EPoll op])
  /\ (forall errs, Forall (fun e => isNotFound e = true) errs -> length errs = 120 ->
        out (poll_loop env (map inl errs ++ replies) op 0 c)
        = Thrown (Error msg_polling_timeout))
  /\ (forall e, isNotFound e = false -> isRateLimit_poll e = true ->
        poll_loop env (inl e :: replies) op rc c
        = prepend [EWait 10000; EPoll op; EWait 20000]
            (poll_loop env replies op rc (3 + c)))
  /\ (forall e, isNotFound e = false -> isRateLimit_poll e = false ->
        poll_loop env (inl e :: replies) op rc c
        = mkRes (Thrown e) (2 + c) [EWait 10000; EPoll op])
  /\ (forall f cfg key vc uv b64 serrs more_s perrs more_p,
        reaches_submission env key vc uv b64 ->
        submit_replies env = map inl serrs ++ inr op :: more_s ->
        Forall (fun e => retryable e = true) serrs -> length serrs <= 50 ->
        Js.truthy (op_name op) = true ->
        poll_replies env = map inl perrs ++ more_p ->
        Forall (fun e => isNotFound e = true) perrs -> length perrs = 120 ->
        out (generateVideo env f cfg key vc 0) = Thrown (Error msg_polling_timeout)).
Proof.
  intros Hn Hop. repeat split.
  - intros. now apply poll_loop_refresh.
  - intros. now apply poll_loop_not_found.
  - intros. now apply poll_loop_timeout.
  - intros errs Hall Hlen.
    destruct (poll_loop_120 env errs replies op c Hn Hop Hall Hlen) as (tr & ->).
    reflexivity.
  - intros. now apply poll_loop_rate_limited.
  - intros. now apply poll_loop_fatal.
  - intros. eapply polling_timeout_after_retries; eauto.
Qed.

End PollClaims.

(** ** Phase C and the credentials *)

Section ExtractionClaims.
Context {url_api : UrlApi}.

Lemma after_polling_error env op uv key vc c e :
  extract_result op = inl e ->
  after_polling env op uv key vc c = mkRes (Thrown e) c [].
Proof. intros H. unfold after_polling. now rewrite H. Qed.

(** A run in which the first status refresh brings the completed operation
    [op], and extraction fails: the driver throws the extraction error and
    never calls [fetch]. *)
Lemma generateVideo_extraction_error env f cfg key vc uv b64 op0 more_s op more_p e :
  reaches_submission env key vc uv b64 ->
  submit_replies env = inr op0 :: more_s ->
  Js.truthy (op_name op0) = true -> op_done op0 = false ->
  poll_replies env = inr op :: more_p -> op_done op = true ->
  extract_result op = inl e ->
  generateVideo env f cfg key vc 0
  = mkRes (Thrown e) 5
      (trace (init env key vc 0)
       ++ [EProgress "Encoding image..."; EEncode f;
           EProgress "Initializing generation...";
           ESubmit (submit_request f cfg b64);
           EProgress "Generating video (this may take a minute)...";
           EWait 10000; EWait 10000; EPoll op0]).
Proof.
  intros Hr Hs Hname Hop0 Hp Hop He.
  rewrite (generateVideo_phaseA env f cfg key vc uv b64 Hr).
  destruct Hr as (Hn & Hi & Henc).
  rewrite Hs. erewrite bind_returned by (apply submit_loop_ok; exact Hn).
  unfold after_submission. rewrite Hname. cbn [negb].
  erewrite bind_returned by reflexivity.
  erewrite bind_returned by (apply wait_quiet; exact Hn).
  rewrite Hp.
  erewrite bind_returned.
  2:{ rewrite poll_loop_refresh by assumption. rewrite poll_loop_done by assumption.
      reflexivity. }
  rewrite (after_polling_error env op uv key vc _ e He).
  unfold prepend. cbn [out clk trace app]. f_equal.
  now rewrite <- !app_assoc.
Qed.

(** C6.  Result extraction looks at the completed operation in this order:
    an error payload makes it fail with the payload's message, or with a
    generic message when that is empty; otherwise a non-empty list of
    moderation-filter reasons makes it fail with the content-filtered error
    carrying the first reason, whether or not a video locator is present;
    otherwise the locator of the first produced video is the result,
    whatever videos follow it, and when there is no first video, or it has
    no locator, the result is the no-locator error, whatever locators the
    videos after it have.  The driver throws the extraction error as it is,
    before any download. *)
Theorem result_extraction_order (op : Operation) :
  (forall err, op_error op = Some err ->
     extract_result op
     = inl (Error (if Js.truthy (op_message err) then op_message err
                   else "Unknown error during video generation")))
  /\ (forall reason more,
        op_error op = None ->
        filter_reasons (operationResponse op) = reason :: more ->
        extract_result op = inl (Error ("Content blocked by safety filter: " +++ reason)))
  /\ (forall resp g more v,
        op_error op = None -> filter_reasons (operationResponse op) = [] ->
        operationResponse op = Some resp ->
        generatedVideos resp = Some (g :: more) ->
        video g = Some v -> uri v <> "" ->
        extract_result op = inr (uri v))
  /\ (op_error op = None -> filter_reasons (operationResponse op) = [] ->
      (forall resp g more v,
         operationResponse op = Some resp ->
         generatedVideos resp = Some (g :: more) ->
         video g = Some v -> uri v = "") ->
      extract_result op
      = inl (Error "No video URI returned. Check console for operation details."))
  /\ (forall env f cfg key vc uv b64 op0 more_s more_p e,
        reaches_submission env key vc uv b64 ->
        submit_replies env = inr op0 :: more_s ->
        Js.truthy (op_name op0) = true -> op_done op0 = false ->
        poll_replies env = inr op :: more_p -> op_done op = true ->
        extract_result op = inl e ->
        out (generateVideo env f cfg key vc 0) = Thrown e
        /\ Forall (fun ev => match ev with EFetch _ => False | _ => True end)
             (trace (generateVideo env f cfg key vc 0))).
Proof.
  repeat split.
  - intros err H. unfold extract_result. now rewrite H.
  - intros reason more He Hf. unfold extract_result. rewrite He.
    destruct (operationResponse op) as [[[l|] vids]|]; cbn in Hf; try discriminate.
    now subst l.
  - intros resp g more v He Hf Hr Hg Hv Hu. unfold extract_result. rewrite He.
    rewrite Hr in *. destruct resp as [[[|r l]|] vids]; cbn in Hf, Hg;
      try discriminate; subst vids; cbn [first_uri generatedVideos]; rewrite Hv;
      (destruct (uri v); [contradiction | reflexivity]).
  - intros He Hf Hnone. unfold extract_result. rewrite He.
    destruct (operationResponse op) as [[[[|r l]|] vids]|] eqn:Hr; cbn in Hf;
      try discriminate; try reflexivity;
      (destruct vids as [[|g more]|]; try reflexivity;
       cbn [first_uri generatedVideos];
       destruct (video g) as [v|] eqn:Hv; [|reflexivity];
       rewrite (Hnone _ g more v eq_refl eq_refl Hv); reflexivity).
  - erewrite generateVideo_extraction_error by eassumption. reflexivity.
  - erewrite generateVideo_extraction_error by eassumption. cbn [trace].
    apply Forall_app. split.
    + eapply Forall_impl; [|apply (init_trace env key vc 0)].
      intros ev. now destruct ev.
    + repeat constructor.
Qed.

End ExtractionClaims.

Section CredentialClaims.
Context {url_api : UrlApi}.
Variable env : Env.

Lemma nonempty_truthy (s : string) : Js.truthy s = true <-> s <> "".
Proof. destruct s; cbn; split; congruence. Qed.

Lemma resolve_key_raw key envk : resolve_key key envk = sanitizeKey (raw_key key envk).
Proof. unfold resolve_key, raw_key, Js.or_else. now destruct key. Qed.

Lemma generateVideo_init_error f cfg key vc e :
  pre_aborted env = false ->
  init env key vc 0 = mkRes (Thrown e) 0 [] ->
  generateVideo env f cfg key vc 0 = mkRes (Thrown e) 0 [].
Proof.
  intros Hp Hi. unfold generateVideo.
  erewrite bind_returned.
  2:{ unfold check_abort, bind, now, aborted. rewrite Hp. cbn.
      destruct (stop_at env); reflexivity. }
  erewrite bind_thrown by exact Hi. reflexivity.
Qed.

(** C7.  The Vertex mode is chosen exactly when the delegated
    configuration has a non-empty project id and a non-empty access token.
    In that mode an empty location fails with the missing-location error,
    and otherwise the SDK is built with the project, the location and the
    trimmed token.  In every other case the key is the explicit one if it
    is not blank, else the one of the environment, sanitized; an empty
    result fails with the missing-credentials error, and otherwise the SDK
    is built with the key.  Both failures leave an empty trace: nothing was
    called. *)
Theorem credential_resolution f cfg key vc :
  pre_aborted env = false ->
  (vertex_mode vc = true
   <-> exists v, vc = Some v /\ projectId v <> "" /\ accessToken v <> "")
  /\ (forall v, vc = Some v -> vertex_mode vc = true -> location v = "" ->
        generateVideo env f cfg key vc 0 = mkRes (Thrown (Error msg_missing_location)) 0 [])
  /\ (forall v, vc = Some v -> vertex_mode vc = true -> location v <> "" ->
        init env key vc 0
        = mkRes (Returned true) 0
            [EInit (VertexAI (projectId v) (location v) (Js.trim (accessToken v)))])
  /\ (vertex_mode vc = false ->
      forall k, sanitizeKey (raw_key key (env_key env)) = Some k -> k <> "" ->
        init env key vc 0 = mkRes (Returned false) 0 [EInit (ApiKey k)])
  /\ (vertex_mode vc = false ->
      sanitizeKey (raw_key key (env_key env)) = None
      \/ sanitizeKey (raw_key key (env_key env)) = Some "" ->
      generateVideo env f cfg key vc 0
      = mkRes (Thrown (Error msg_missing_credentials)) 0 []).
Proof.
  intros Hp. split; [|split; [|split; [|split]]].
  - unfold vertex_mode. destruct vc as [v|].
    + rewrite andb_true_iff, !nonempty_truthy. split.
      * intros [H1 H2]. now exists v.
      * intros (v' & [= <-] & H1 & H2). now split.
    + split; [discriminate | intros (v & [=] & _)].
  - intros v -> Hm Hloc. apply generateVideo_init_error; [assumption|].
    unfold init. unfold vertex_mode in Hm. now rewrite Hm, Hloc.
  - intros v -> Hm Hloc. unfold init. unfold vertex_mode in Hm. rewrite Hm.
    apply nonempty_truthy in Hloc. now rewrite Hloc.
  - intros Hm k Hk Hne. apply nonempty_truthy in Hne.
    assert (Hd : init_direct env key 0 = mkRes (Returned false) 0 [EInit (ApiKey k)]).
    { unfold init_direct. now rewrite resolve_key_raw, Hk, Hne. }
    unfold init. destruct vc as [v|]; [|exact Hd].
    unfold vertex_mode in Hm. now rewrite Hm.
  - intros Hm Hk. apply generateVideo_init_error; [assumption|].
    assert (Hd : init_direct env key 0 = mkRes (Thrown (Error msg_missing_credentials)) 0 []).
    { unfold init_direct. rewrite resolve_key_raw. now destruct Hk as [-> | ->]. }
    unfold init. destruct vc as [v|]; [|exact Hd].
    unfold vertex_mode in Hm. now rewrite Hm.
Qed.

(** C9.  The prompt of every submission of every call, cancelled or not, is
    the user's prompt, or the text "Silent video, simple motion" when that
    is empty, followed by a full stop, a space and the clause
    "(Video must be completely silent, no sound, no music, no audio track)",
    with which it ends. *)
Theorem silence_clause_always f cfg key vc c r :
  In (ESubmit r) (trace (generateVideo env f cfg key vc c)) ->
  sr_prompt r
  = (if Js.truthy (prompt cfg) then prompt cfg else "Silent video, simple motion")
    +++ ". "
    +++ "(Video must be completely silent, no sound, no music, no audio track)"
  /\ ends_with_suffix (sr_prompt r)
       "(Video must be completely silent, no sound, no music, no audio track)".
Proof.
  intros Hin.
  assert (H : Forall (fun ev => match ev with
                                | ESubmit r => sr_prompt r = finalPrompt cfg
                                | _ => True
                                end) (trace (generateVideo env f cfg key vc c))).
  { apply generateVideo_trace.
    - intros ev Hev. now destruct ev.
    - reflexivity. }
  rewrite Forall_forall in H. specialize (H _ Hin). cbv beta iota in H.
  rewrite H. split.
  - reflexivity.
  - exists (Js.or_else (prompt cfg) "Silent video, simple motion" +++ ". ").
    unfold finalPrompt, silence_clause. now rewrite app_assoc_s.
Qed.

End CredentialClaims.

(** ** The download *)

Section DownloadClaims.
Context {url_api : UrlApi}.
Variable env : Env.

Arguments aborted : simpl never.

Ltac run_quiet Hn :=
  unfold wait;
  unfold bind, check_abort, onProgress, emit, tick, now, throw, ret,
    awaiting, prepend;
  repeat (rewrite ?(fun c => aborted_never env c Hn); cbn).

Lemma fetch_quiet r c :
  never_stopped env ->
  fetch env r c
  = match fetch_reply env with
    | FetchRejected msg => mkRes (Thrown (TypeError msg)) (S c) [EFetch r]
    | FetchResponse ok st body => mkRes (Returned (ok, st, body)) (S c) [EFetch r]
    end.
Proof.
  intros Hn. unfold fetch. run_quiet Hn. now destruct (fetch_reply env).
Qed.

Lemma read_blob_quiet body c :
  never_stopped env ->
  read_blob env body c
  = match body with
    | inl msg => mkRes (Thrown (TypeError msg)) (S c) [EBlob]
    | inr b => mkRes (Returned b) (S c) [EBlob]
    end.
Proof.
  intros Hn. unfold read_blob. run_quiet Hn. now destruct body.
Qed.

Lemma download_vertex link key v u c :
  never_stopped env -> URL_new link = inr u ->
  download env link true key (Some v) c
  = match fetch_reply env with
    | FetchRejected msg =>
        mkRes (Thrown (Error ("Video download error: " +++ msg))) (S c)
          [EFetch (vertex_request u v)]
    | FetchResponse false st _ =>
        mkRes (Thrown (Error ("Video download error: Download failed: " +++ st))) (S c)
          [EFetch (vertex_request u v)]
    | FetchResponse true _ (inr b) =>
        mkRes (Returned b) (S (S c)) [EFetch (vertex_request u v); EBlob]
    | FetchResponse true _ (inl msg) =>
        mkRes (Thrown (Error ("Video download error: " +++ msg))) (S (S c))
          [EFetch (vertex_request u v); EBlob]
    end.
Proof.
  intros Hn Hu. unfold download, try_catch, new_URL. rewrite Hu.
  erewrite bind_returned by reflexivity. rewrite prepend_nil.
  unfold bind. rewrite fetch_quiet by assumption.
  unfold vertex_request.
  destruct (fetch_reply env) as [msg | [|] st [msg|b]]; cbn [negb];
    rewrite ?read_blob_quiet by assumption; reflexivity.
Qed.

Lemma download_key link key vc u k c :
  never_stopped env -> URL_new link = inr u ->
  resolve_key key (env_key env) = Some k -> Js.truthy k = true ->
  download env link false key vc c
  = match fetch_reply env with
    | FetchRejected msg =>
        mkRes (Thrown (Error ("Video download error: " +++ msg))) (S c)
          [EFetch (key_request u k)]
    | FetchResponse false st _ =>
        mkRes (Thrown (Error ("Video download error: Download failed: " +++ st))) (S c)
          [EFetch (key_request u k)]
    | FetchResponse true _ (inr b) =>
        mkRes (Returned b) (S (S c)) [EFetch (key_request u k); EBlob]
    | FetchResponse true _ (inl msg) =>
        mkRes (Thrown (Error ("Video download error: " +++ msg))) (S (S c))
          [EFetch (key_request u k); EBlob]
    end.
Proof.
  intros Hn Hu Hk Ht. unfold download, try_catch, new_URL. rewrite Hu, Hk, Ht.
  erewrite bind_returned by reflexivity. rewrite prepend_nil.
  unfold bind. rewrite fetch_quiet by assumption.
  unfold key_request.
  destruct (fetch_reply env) as [msg | [|] st [msg|b]]; cbn [negb];
    rewrite ?read_blob_quiet by assumption; reflexivity.
Qed.

Lemma download_unparsable link uv key vc msg c :
  URL_new link = inl msg ->
  download env link uv key vc c
  = mkRes (Thrown (Error ("Video download error: " +++ msg))) c [].
Proof.
  intros Hu. unfold download, try_catch, new_URL. rewrite Hu. reflexivity.
Qed.

Lemma keyonly_download link key c :
  never_stopped env ->
  exists r,
    KeyOnly.download env link key c
    = prepend [EFetch {| fr_url := KeyOnly.finalUrl link key; fr_headers := [];
                         fr_credentials := Unset |}] r.
Proof.
  intros Hn. unfold KeyOnly.download, try_catch.
  unfold bind. rewrite fetch_quiet by assumption.
  destruct (fetch_reply env) as [msg | [|] st [msg|b]]; cbn [negb];
    rewrite ?read_blob_quiet by assumption;
    unfold throw, prepend; cbn [out clk trace app];
    eexists (mkRes _ _ _); cbn [out clk trace]; reflexivity.
Qed.

(** C8, amended.  In a run that is not cancelled: with the Vertex
    credential the driver fetches the parsed locator as it is, with the
    trimmed access token in a Bearer authorization header; with the API key
    it sets the sanitized key as the query parameter [key] of the parsed
    locator and fetches with [credentials: 'omit'].  A locator that does
    not parse is not fetched at all: the driver fails with the download
    error carrying the parser's message.  A response that is not ok fails
    with the download error carrying the status text.  The key-only variant
    of the driver is the one that falls back to string concatenation, with
    ["&key="] when the locator holds a ["?"] and ["?key="] otherwise; it
    appends the trimmed key and leaves the fetch credentials unset. *)
Theorem download_credentials link key vc c :
  never_stopped env ->
  (forall v u, vc = Some v -> URL_new link = inr u ->
     download env link true key vc c
     = match fetch_reply env with
       | FetchRejected msg =>
           mkRes (Thrown (Error ("Video download error: " +++ msg))) (S c)
             [EFetch (vertex_request u v)]
       | FetchResponse false st _ =>
           mkRes (Thrown (Error ("Video download error: Download failed: " +++ st)))
             (S c) [EFetch (vertex_request u v)]
       | FetchResponse true _ (inr b) =>
           mkRes (Returned b) (S (S c)) [EFetch (vertex_request u v); EBlob]
       | FetchResponse true _ (inl msg) =>
           mkRes (Thrown (Error ("Video download error: " +++ msg))) (S (S c))
             [EFetch (vertex_request u v); EBlob]
       end)
  /\ (forall u k, URL_new link = inr u ->
        sanitizeKey (raw_key key (env_key env)) = Some k -> k <> "" ->
        download env link false key vc c
        = match fetch_reply env with
          | FetchRejected msg =>
              mkRes (Thrown (Error ("Video download error: " +++ msg))) (S c)
                [EFetch (key_request u k)]
          | FetchResponse false st _ =>
              mkRes (Thrown (Error ("Video download error: Download failed: " +++ st)))
                (S c) [EFetch (key_request u k)]
          | FetchResponse true _ (inr b) =>
              mkRes (Returned b) (S (S c)) [EFetch (key_request u k); EBlob]
          | FetchResponse true _ (inl msg) =>
              mkRes (Thrown (Error ("Video download error: " +++ msg))) (S (S c))
                [EFetch (key_request u k); EBlob]
          end)
  /\ (forall uv msg, URL_new link = inl msg ->
        download env link uv key vc c
        = mkRes (Thrown (Error ("Video download error: " +++ msg))) c [])
  /\ (forall apiKey,
        (forall msg, URL_new link = inl msg ->
           KeyOnly.finalUrl link apiKey
           = if Js.includes link "?" then link +++ "&key=" +++ Js.trim apiKey
             else link +++ "?key=" +++ Js.trim apiKey)
        /\ (forall u, URL_new link = inr u ->
              KeyOnly.finalUrl link apiKey
              = URL_toString (URL_append u "key" (Js.trim apiKey)))
        /\ exists r,
             KeyOnly.download env link apiKey c
             = prepend [EFetch {| fr_url := KeyOnly.finalUrl link apiKey;
                                  fr_headers := [];
                                  fr_credentials := Unset |}] r).
Proof.
  intros Hn. split; [|split; [|split]].
  - intros v u -> Hu. now apply download_vertex.
  - intros u k Hu Hk Hne. apply download_key; auto.
    + now rewrite resolve_key_raw.
    + now apply nonempty_truthy.
  - intros uv msg Hu. now apply download_unparsable.
  - intros apiKey. split; [|split].
    + intros msg Hu. unfold KeyOnly.finalUrl. now rewrite Hu.
    + intros u Hu. unfold KeyOnly.finalUrl. now rewrite Hu.
    + now apply keyonly_download.
Qed.

End DownloadClaims.


(** ** The queue processor *)

Module QueueFacts.
Import App Queue.

Lemma mem_In (x : string) (l : list string) : mem x l = true <-> In x l.
Proof.
  unfold mem. rewrite existsb_exists. split.
  - intros (y & Hy & E). apply String.eqb_eq in E. now subst.
  - intros H. exists x. split; [assumption | apply String.eqb_refl].
Qed.

Lemma mem_false (x : string) (l : list string) : mem x l = false <-> ~ In x l.
Proof.
  rewrite <- mem_In. destruct (mem x l); split; congruence.
Qed.

Lemma distinct_NoDup (l : list string) : distinct l = true -> NoDup l.
Proof.
  induction l as [|x l IH]; cbn; [constructor|].
  intros H. apply andb_prop in H as [Hx Hl].
  constructor; [|now apply IH].
  apply mem_false. now destruct (mem x l).
Qed.

Lemma In_ids (j : VideoJob) (l : list VideoJob) : In j l -> In (id j) (ids l).
Proof. apply in_map. Qed.

Lemma ids_app (l1 l2 : list VideoJob) : ids (l1 ++ l2) = ids l1 ++ ids l2.
Proof. apply map_app. Qed.

Lemma same_id_same_job (l : list VideoJob) (j k : VideoJob) :
  NoDup (ids l) -> In j l -> In k l -> id j = id k -> j = k.
Proof.
  induction l as [|a l IH]; cbn; [contradiction|].
  intros Hnd Hj Hk E. inversion Hnd as [|? ? Hna Hnd']; subst.
  destruct Hj as [-> | Hj], Hk as [-> | Hk]; auto.
  - exfalso. apply Hna. rewrite E. now apply In_ids.
  - exfalso. apply Hna. rewrite <- E. now apply In_ids.
Qed.

Lemma ids_map (g : VideoJob -> VideoJob) (l : list VideoJob) :
  (forall j, id (g j) = id j) -> ids (map g l) = ids l.
Proof.
  intros H. unfold ids. rewrite map_map. apply map_ext. exact H.
Qed.

Lemma ids_filter (p : string -> bool) (l : list VideoJob) :
  ids (filter (fun j => p (id j)) l) = filter p (ids l).
Proof.
  unfold ids. induction l as [|a l IH]; cbn; [reflexivity|].
  destruct (p (id a)); cbn; now rewrite IH.
Qed.

Lemma NoDup_filter_ids (p : VideoJob -> bool) (l : list VideoJob) :
  NoDup (ids l) -> NoDup (ids (filter p l)).
Proof.
  induction l as [|a l IH]; cbn; [constructor|].
  intros H. inversion H as [|? ? Hna Hnd]; subst.
  destruct (p a); cbn; [|now apply IH].
  constructor; [|now apply IH].
  intros Hin. apply Hna. unfold ids in *. apply in_map_iff in Hin as (k & E & Hk).
  apply filter_In in Hk as [Hk _]. rewrite <- E. now apply in_map.
Qed.

Lemma filter_none {A} (p : A -> bool) (l : list A) :
  (forall x, In x l -> p x = false) -> filter p l = [].
Proof.
  induction l as [|a l IH]; cbn; [reflexivity|].
  intros H. rewrite (H a) by now left. apply IH. intros x Hx. apply H. now right.
Qed.

Lemma filter_all {A} (p : A -> bool) (l : list A) :
  (forall x, In x l -> p x = true) -> filter p l = l.
Proof.
  induction l as [|a l IH]; cbn; [reflexivity|].
  intros H. rewrite (H a) by now left. f_equal. apply IH. intros x Hx. apply H. now right.
Qed.

Lemma filter_filter {A} (p q : A -> bool) (l : list A) :
  filter p (filter q l) = filter (fun x => q x && p x) l.
Proof.
  induction l as [|a l IH]; cbn; [reflexivity|].
  destruct (q a); cbn; [destruct (p a)|]; now rewrite IH.
Qed.

Lemma allowed_refl (a : JobStatus) : allowed a a = true.
Proof. now destruct a. Qed.

Lemma strict_allowed (a b : JobStatus) : strict a b = true -> allowed a b = true.
Proof. now destruct a, b. Qed.

(** The pending ids when each job is rewritten without changing its id or
    whether it is pending. *)
Lemma pending_ids_map (g : VideoJob -> VideoJob) (l : list VideoJob) :
  (forall k, In k l -> id (g k) = id k /\ is_pending (g k) = is_pending k) ->
  ids (filter is_pending (map g l)) = ids (filter is_pending l).
Proof.
  induction l as [|a l IH]; cbn [map filter]; [reflexivity|].
  intros H. destruct (H a (or_introl eq_refl)) as [Hid Hp]. rewrite Hp.
  assert (IH' : ids (filter is_pending (map g l)) = ids (filter is_pending l)).
  { apply IH. intros k Hk. apply H. now right. }
  destruct (is_pending a); [|exact IH'].
  unfold ids in *. cbn [map]. now rewrite Hid, IH'.
Qed.

Lemma count_processing_le (l : list VideoJob) (i : string) :
  NoDup (ids l) ->
  (forall k, In k l -> status k = PROCESSING -> id k = i) ->
  length (filter is_processing l) <= 1.
Proof.
  induction l as [|a l IH]; cbn; [lia|].
  intros Hnd H. inversion Hnd as [|? ? Hna Hnd']; subst.
  destruct (is_processing a) eqn:Ea.
  - cbn. rewrite (filter_none is_processing l); [cbn; lia|].
    intros k Hk. destruct (is_processing k) eqn:Ek; [|reflexivity].
    exfalso. apply Hna.
    unfold is_processing in Ea, Ek.
    rewrite (H a) by (auto; now destruct (status a)).
    rewrite <- (H k) by (auto; now destruct (status k)).
    now apply In_ids.
  - apply IH; auto.
Qed.

Lemma inv_at_most_one (s : State) : Inv s -> at_most_one_processing s.
Proof.
  intros I. unfold at_most_one_processing, count_processing.
  destruct (current s) as [j|] eqn:Ec.
  - apply (count_processing_le _ (id j)); [apply I|].
    intros k Hk Hs. apply (inv_processing s I) in Hs; [|assumption].
    destruct Hs as (j' & E & <-). congruence.
  - rewrite filter_none; [cbn; lia|].
    intros k Hk. unfold is_processing. destruct (status k) eqn:Es; try reflexivity.
    apply (inv_processing s I) in Es; [|assumption].
    destruct Es as (j' & E & _). congruence.
Qed.

End QueueFacts.

Module QueueInvariant.
Import App Queue QueueFacts.

Lemma inv_initial (s : State) : initial s -> Inv s.
Proof.
  intros (Hj & Hp & Ha & Hq & Hc & Hi).
  constructor; unfold pending_ids, live_ids; rewrite ?Hj, ?Hq, ?Hc; cbn.
  - constructor.
  - intros x [].
  - intros x [].
  - discriminate.
  - auto.
  - intros k [].
  - intros r k [].
  - constructor.
  - now exists [].
Qed.

(** The invariant reads the queue, the pass and the issued ids only. *)
Lemma inv_ext (s s' : State) :
  jobs s' = jobs s -> pendingJobs s' = pendingJobs s -> current s' = current s ->
  issued s' = issued s -> (isProcessing s' = false -> isProcessing s = false) ->
  Inv s -> Inv s'.
Proof.
  intros Hj Hq Hc Hi Hp I.
  constructor; unfold pending_ids, live_ids, is_current; rewrite ?Hj, ?Hq, ?Hc, ?Hi;
    try apply I.
  intros H. apply I. auto.
Qed.

Lemma inv_stop (s : State) : Inv s -> Inv (handleStop s).
Proof.
  intros I. unfold handleStop. destruct (abortControllerRef s); [|assumption].
  now apply (inv_ext s).
Qed.

Lemma live_ids_nil (s : State) : pendingJobs s = [] -> live_ids s = [].
Proof. intros H. unfold live_ids. now rewrite H. Qed.

Lemma inv_finish (s : State) : Inv s -> current s = None -> Inv (finish s).
Proof.
  intros I Hc.
  constructor; cbn; try apply I.
  - intros x [].
  - discriminate.
  - auto.
  - intros k Hk. rewrite (inv_processing s I k Hk). unfold is_current. cbn.
    rewrite Hc. split; intros (j & E & _); discriminate.
  - intros r k [].
  - constructor.
  - exists (pending_ids s). reflexivity.
Qed.

Lemma inv_clear (s : State) : Inv s -> Inv (handleClearAll s).
Proof.
  intros I. unfold handleClearAll.
  assert (I' : Inv (if isProcessing s then handleStop s else s)).
  { destruct (isProcessing s); [now apply inv_stop | assumption]. }
  set (t := if isProcessing s then handleStop s else s) in *. clearbody t.
  constructor; unfold pending_ids, live_ids; cbn; try apply I'.
  - constructor.
  - intros x [].
  - intros k [].
  - intros r k _ [].
  - exists []. rewrite filter_none; [reflexivity|]. auto.
Qed.

Lemma inv_remove (s : State) (x : string) : Inv s -> Inv (handleRemoveJob s x).
Proof.
  intros I. set (q := fun i => negb (i =? x)%string).
  assert (Hids : ids (jobs (handleRemoveJob s x)) = filter q (ids (jobs s))).
  { cbn. apply (ids_filter q). }
  constructor; cbn [handleRemoveJob set_jobs jobs pendingJobs current issued isProcessing].
  - fold (ids (filter (fun job => q (id job)) (jobs s))). apply NoDup_filter_ids, I.
  - intros i Hi. apply (inv_issued s I).
    unfold ids in *. apply in_map_iff in Hi as (k & <- & Hk).
    apply filter_In in Hk as [Hk _]. now apply in_map.
  - apply I.
  - apply I.
  - apply I.
  - intros k Hk. apply filter_In in Hk as [Hk _]. now apply (inv_processing s I).
  - intros r k Hr Hk. apply filter_In in Hk as [Hk _]. now apply (inv_waiting s I r).
  - apply I.
  - destruct (inv_order s I) as (added & Ho). exists (filter q added).
    unfold pending_ids, live_ids in *.
    cbn [handleRemoveJob set_jobs jobs pendingJobs].
    change (filter (fun job => negb (id job =? x)%string) (jobs s))
      with (filter (fun job => q (id job)) (jobs s)).
    rewrite (ids_filter q (jobs s)).
    rewrite filter_filter.
    rewrite (filter_ext _ (fun j => is_pending j && q (id j)))
      by (intros j; apply andb_comm).
    rewrite <- filter_filter, (ids_filter q), Ho, filter_app. f_equal.
    rewrite filter_filter. apply filter_ext_in. intros i Hi.
    destruct (mem i (filter q (ids (jobs s)))) eqn:E.
    + apply mem_In, filter_In in E as [E1 E2].
      apply mem_In in E1. now rewrite E1, E2.
    + destruct (mem i (ids (jobs s))) eqn:E1; [|reflexivity].
      destruct (q i) eqn:E2; [|reflexivity].
      exfalso. apply mem_false in E. apply E. apply filter_In. split; [|assumption].
      now apply mem_In.
Qed.


Lemma fresh_not_issued (s : State) (files : list NewFile) (i : string) :
  fresh_ids s files = true -> In i (map nf_id files) -> ~ In i (issued s).
Proof.
  unfold fresh_ids. intros H Hi. apply andb_prop in H as [_ H].
  rewrite forallb_forall in H. apply in_map_iff in Hi as (f & <- & Hf).
  specialize (H f Hf). apply mem_false. now destruct (mem (nf_id f) (issued s)).
Qed.

Lemma ids_new_jobs (files : list NewFile) : ids (map new_job files) = map nf_id files.
Proof. unfold ids. rewrite map_map. reflexivity. Qed.

Lemma inv_add (s : State) (files : list NewFile) :
  Inv s -> fresh_ids s files = true -> Inv (handleAddFiles s files).
Proof.
  intros I Hf.
  assert (Hnew : forall i, In i (map nf_id files) -> ~ In i (issued s))
    by (intros i; now apply fresh_not_issued).
  constructor; cbn [handleAddFiles jobs pendingJobs current issued isProcessing].
  - rewrite ids_app, ids_new_jobs. apply NoDup_app; [apply I | |].
    + apply distinct_NoDup. unfold fresh_ids in Hf. now apply andb_prop in Hf as [Hf _].
    + intros i Hi Hi'. apply (Hnew i Hi'). now apply (inv_issued s I).
  - rewrite ids_app, ids_new_jobs. apply incl_app.
    + apply incl_appl, I.
    + apply incl_appr, incl_refl.
  - apply incl_appl, I.
  - intros j Hj. apply in_or_app. left. now apply (inv_issued_current s I).
  - apply I.
  - intros k Hk. apply in_app_or in Hk as [Hk | Hk].
    + rewrite (inv_processing s I k Hk). unfold is_current. cbn. reflexivity.
    + apply in_map_iff in Hk as (f & <- & Hfi). cbn [new_job status id].
      split; [discriminate|].
      intros (j & Hc & E). exfalso. apply (Hnew (nf_id f)).
      * now apply in_map.
      * rewrite <- E. now apply (inv_issued_current s I).
  - intros r k Hr Hk E. apply in_app_or in Hk as [Hk | Hk].
    + now apply (inv_waiting s I r).
    + apply in_map_iff in Hk as (f & <- & Hfi). reflexivity.
  - apply I.
  - destruct (inv_order s I) as (added & Ho).
    exists (added ++ map nf_id files).
    unfold pending_ids, live_ids in *.
    cbn [handleAddFiles jobs pendingJobs].
    rewrite filter_app, ids_app, Ho, <- app_assoc. f_equal.
    + apply filter_ext_in. intros i Hi.
      rewrite ids_app, ids_new_jobs. unfold mem. rewrite existsb_app.
      fold (mem i (ids (jobs s))). fold (mem i (map nf_id files)).
      replace (mem i (map nf_id files)) with false; [now rewrite orb_false_r|].
      symmetry. apply mem_false. intros Hi'. apply (Hnew i Hi').
      now apply (inv_issued_pass s I).
    + f_equal. rewrite filter_all, ids_new_jobs; [reflexivity|].
      intros k Hk. apply in_map_iff in Hk as (f & <- & _). reflexivity.
Qed.

Lemma inv_autoStart (s : State) : Inv s -> Inv (autoStart s).
Proof.
  intros I. unfold autoStart, processQueue.
  destruct (existsb is_pending (jobs s) && negb (isProcessing s)) eqn:E; [|assumption].
  apply andb_prop in E as [_ E]. destruct (isProcessing s) eqn:Ep; [discriminate|].
  destruct (inv_idle s I Ep) as [Hq Hc].
  constructor; cbn [set_pass jobs pendingJobs current issued isProcessing];
    try apply I.
  - intros i Hi. apply (inv_issued s I). unfold ids in *.
    apply in_map_iff in Hi as (k & <- & Hk). apply filter_In in Hk as [Hk _].
    now apply in_map.
  - discriminate.
  - discriminate.
  - intros k Hk. rewrite (inv_processing s I k Hk). unfold is_current. cbn.
    rewrite Hc. reflexivity.
  - intros r k Hr Hk Eid. apply filter_In in Hr as [Hr Hp].
    rewrite (same_id_same_job (jobs s) k r); auto; [|apply I].
    unfold is_pending in Hp. now destruct (status r).
  - apply NoDup_filter_ids, I.
  - exists []. unfold pending_ids, live_ids. cbn [set_pass jobs pendingJobs].
    rewrite app_nil_r, (filter_all (fun i => mem i (ids (jobs s)))); [reflexivity|].
    intros i Hi. apply mem_In. unfold ids in *.
    apply in_map_iff in Hi as (k & <- & Hk). apply filter_In in Hk as [Hk _].
    now apply in_map.
Qed.

(** Rewriting jobs without touching ids or statuses keeps the invariant. *)
Lemma inv_map (s : State) (g : VideoJob -> VideoJob) :
  (forall k, id (g k) = id k) -> (forall k, status (g k) = status k) ->
  Inv s -> Inv (set_jobs s (map g)).
Proof.
  intros Hid Hst I.
  assert (Hids : ids (map g (jobs s)) = ids (jobs s)) by now apply ids_map.
  constructor; cbn [set_jobs jobs pendingJobs current issued isProcessing];
    rewrite ?Hids; try apply I.
  - intros k' Hk'. apply in_map_iff in Hk' as (k & <- & Hk).
    rewrite Hst, Hid. now apply (inv_processing s I).
  - intros r k' Hr Hk' E. apply in_map_iff in Hk' as (k & <- & Hk).
    rewrite Hst. rewrite Hid in E. now apply (inv_waiting s I r).
  - destruct (inv_order s I) as (added & Ho). exists added.
    unfold pending_ids, live_ids in *. cbn [set_jobs jobs pendingJobs].
    rewrite Hids, <- Ho. apply pending_ids_map.
    intros k _. split; [apply Hid|]. unfold is_pending. now rewrite Hst.
Qed.


Lemma filter_neq_notin (x : string) (l : list string) :
  ~ In x l -> filter (fun i => negb (i =? x)%string) l = l.
Proof.
  intros H. apply filter_all. intros i Hi.
  destruct (String.eqb_spec i x); [subst; contradiction | reflexivity].
Qed.

Lemma pending_ids_incl (l : list VideoJob) : incl (ids (filter is_pending l)) (ids l).
Proof.
  intros i Hi. unfold ids in *. apply in_map_iff in Hi as (k & <- & Hk).
  apply filter_In in Hk as [Hk _]. now apply in_map.
Qed.

(** The pending ids once the job [x] is marked as processing. *)
Lemma pending_ids_mark (x : string) (l : list VideoJob) :
  ids (filter is_pending (markProcessing x l))
  = filter (fun i => negb (i =? x)%string) (ids (filter is_pending l)).
Proof.
  unfold markProcessing, ids. induction l as [|a l IH]; [reflexivity|].
  cbn [map filter]. destruct (String.eqb_spec (id a) x) as [E|E].
  - cbn [with_status_progress is_pending status]. rewrite IH.
    destruct (is_pending a); [|reflexivity].
    cbn [map filter]. now rewrite E, String.eqb_refl.
  - destruct (is_pending a); [|exact IH].
    cbn [map filter]. rewrite IH.
    destruct (String.eqb_spec (id a) x); [contradiction | reflexivity].
Qed.

Lemma ids_markProcessing (x : string) (l : list VideoJob) :
  ids (markProcessing x l) = ids l.
Proof.
  apply ids_map. intros j. now destruct (id j =? x)%string.
Qed.

Lemma inv_start (s : State) (r : VideoJob) (rest : list VideoJob) :
  Inv s -> current s = None -> isProcessing s = true -> pendingJobs s = r :: rest ->
  Inv (set_loop (set_jobs s (markProcessing (id r))) rest (Some r)).
Proof.
  intros I Hc Hp Hq.
  pose proof (inv_pass_nodup s I) as Hnd. rewrite Hq in Hnd. cbn in Hnd.
  inversion Hnd as [|? ? Hr Hrest]; subst.
  constructor; cbn [set_loop set_jobs jobs pendingJobs current issued isProcessing];
    rewrite ?ids_markProcessing; try apply I.
  - intros i Hi. apply (inv_issued_pass s I). rewrite Hq. now right.
  - intros j [= <-]. apply (inv_issued_pass s I). rewrite Hq. now left.
  - rewrite Hp. discriminate.
  - intros k' Hk'. apply in_map_iff in Hk' as (k & <- & Hk).
    unfold is_current. cbn [set_loop set_jobs current].
    destruct (String.eqb_spec (id k) (id r)) as [E|E].
    + cbn. split; [|reflexivity]. intros _. now exists r.
    + rewrite (inv_processing s I k Hk). unfold is_current. rewrite Hc.
      split; [intros (j & [=] & _) | intros (j & [= <-] & E')]. congruence.
  - intros r' k' Hr' Hk' E. apply in_map_iff in Hk' as (k & <- & Hk).
    destruct (String.eqb_spec (id k) (id r)) as [E'|E'].
    + exfalso. apply Hr. cbn in E. rewrite <- E', E. now apply In_ids.
    + apply (inv_waiting s I r'); auto. rewrite Hq. now right.
  - exact Hrest.
  - destruct (inv_order s I) as (added & Ho). exists added.
    assert (Hnp : NoDup (pending_ids s)) by (apply NoDup_filter_ids, I).
    unfold pending_ids, live_ids in *.
    cbn [set_loop set_jobs jobs pendingJobs].
    rewrite ids_markProcessing, pending_ids_mark.
    rewrite Ho in Hnp. rewrite Ho.
    pose proof (pending_ids_incl (jobs s)) as Hincl. rewrite Ho in Hincl.
    rewrite Hq in *. unfold ids in *. cbn [map filter] in *.
    destruct (mem (id r) (map id (jobs s))) eqn:Em.
    + cbn [app filter] in *. inversion Hnp as [|? ? Hni _]; subst.
      rewrite String.eqb_refl. cbn [negb].
      now apply filter_neq_notin.
    + apply filter_neq_notin. intros Hin. apply mem_false in Em. apply Em.
      now apply Hincl.
Qed.

Lemma inv_loopHead (s : State) :
  Inv s -> isProcessing s = true -> current s = None -> Inv (loopHead s).
Proof.
  intros I Hp Hc. unfold loopHead.
  destruct (pendingJobs s) as [|r rest] eqn:Hq; [now apply inv_finish|].
  destruct (abortControllerRef s) as [[|]|];
    [now apply inv_finish | now apply inv_start | now apply inv_start].
Qed.

(** The call in flight settles and the loop goes on: the job of the call
    gets a final status, no other job changes. *)
Lemma inv_settle (s : State) (cur : VideoJob) (g : VideoJob -> VideoJob) :
  Inv s -> current s = Some cur ->
  (forall k, id (g k) = id k) ->
  (forall k, id k <> id cur -> g k = k) ->
  (forall k, id k = id cur -> status (g k) = COMPLETED \/ status (g k) = FAILED) ->
  Inv (set_loop (set_jobs s (map g)) (pendingJobs s) None).
Proof.
  intros I Hc Hid Hother Hcur.
  assert (Hids : ids (map g (jobs s)) = ids (jobs s)) by now apply ids_map.
  assert (Hproc : forall k, In k (jobs s) -> id k = id cur -> status k = PROCESSING).
  { intros k Hk E. apply (inv_processing s I k Hk). now exists cur. }
  constructor; cbn [set_loop set_jobs jobs pendingJobs current issued isProcessing];
    rewrite ?Hids; try apply I.
  - discriminate.
  - intros H. split; [apply (inv_idle s I H) | reflexivity].
  - intros k' Hk'. apply in_map_iff in Hk' as (k & <- & Hk).
    unfold is_current. cbn [set_loop set_jobs current].
    split; [|intros (j & [=] & _)].
    intros Hs. exfalso.
    destruct (String.eqb_spec (id k) (id cur)) as [E|E].
    + destruct (Hcur k E) as [H|H]; congruence.
    + rewrite (Hother k E) in Hs. apply (inv_processing s I k Hk) in Hs.
      destruct Hs as (j & Hj & Ej). congruence.
  - intros r k' Hr Hk' E. apply in_map_iff in Hk' as (k & <- & Hk).
    rewrite Hid in E.
    destruct (String.eqb_spec (id k) (id cur)) as [E'|E'].
    + exfalso. pose proof (Hproc k Hk E') as H1.
      pose proof (inv_waiting s I r k Hr Hk E) as H2. congruence.
    + rewrite (Hother k E'). now apply (inv_waiting s I r).
  - destruct (inv_order s I) as (added & Ho). exists added.
    unfold pending_ids, live_ids in *. cbn [set_loop set_jobs jobs pendingJobs].
    rewrite Hids, <- Ho. apply pending_ids_map.
    intros k Hk. split; [apply Hid|].
    destruct (String.eqb_spec (id k) (id cur)) as [E|E].
    + unfold is_pending. rewrite (Hproc k Hk E).
      destruct (Hcur k E) as [-> | ->]; reflexivity.
    + now rewrite (Hother k E).
Qed.

Lemma inv_resolved (s : State) (cur : VideoJob) (b : Blob) :
  Inv s -> current s = Some cur -> Inv (onResolved s cur b).
Proof.
  intros I Hc. unfold onResolved, markCompleted. apply (inv_settle s cur); auto.
  - intros k. now destruct (id k =? id cur)%string.
  - intros k E. now destruct (String.eqb_spec (id k) (id cur)).
  - intros k E. rewrite E, String.eqb_refl. now left.
Qed.

Lemma inv_cancelled (s : State) (cur : VideoJob) :
  Inv s -> current s = Some cur -> Inv (finish (set_jobs s (markCancelled (id cur)))).
Proof.
  intros I Hc.
  set (g := fun j => if (id j =? id cur)%string then with_failed j "Cancelled"
                     else if is_pending j then with_failed j "Stopped by user" else j).
  assert (Hid : forall k, id (g k) = id k).
  { intros k. unfold g. destruct (id k =? id cur)%string; [reflexivity|].
    now destruct (is_pending k). }
  assert (Hids : ids (markCancelled (id cur) (jobs s)) = ids (jobs s))
    by (apply (ids_map g); exact Hid).
  constructor; cbn [finish set_pass set_jobs jobs pendingJobs current issued isProcessing];
    rewrite ?Hids; try apply I.
  - intros x [].
  - discriminate.
  - auto.
  - intros k' Hk'. apply in_map_iff in Hk' as (k & <- & Hk).
    unfold is_current. cbn [finish set_pass current].
    split; [|intros (j & [=] & _)].
    intros Hs. exfalso.
    destruct (String.eqb_spec (id k) (id cur)) as [E|E]; [discriminate|].
    unfold is_pending in Hs. destruct (status k) eqn:Es; cbn in Hs; try congruence.
    apply (inv_processing s I k Hk) in Es. destruct Es as (j & Hj & Ej). congruence.
  - intros r k [].
  - constructor.
  - eexists. unfold live_ids. cbn [finish set_pass pendingJobs ids map filter app].
    reflexivity.
Qed.

Lemma inv_rejected (s : State) (cur : VideoJob) (e : JsError) :
  Inv s -> current s = Some cur -> Inv (onRejected s cur e).
Proof.
  intros I Hc. unfold onRejected.
  destruct (is_abort e); [now apply inv_cancelled|].
  set (t := if Js.includes (e_message e) "API Key" || Js.includes (e_message e) "Access Token"
            then set_showSettings s true else s).
  assert (It : Inv t /\ current t = Some cur /\ pendingJobs t = pendingJobs s).
  { unfold t.
    destruct (Js.includes (e_message e) "API Key" || Js.includes (e_message e) "Access Token").
    - split; [now apply (inv_ext s) | split; [exact Hc | reflexivity]].
    - split; [exact I | split; [exact Hc | reflexivity]]. }
  destruct It as (It & Hct & Hqt).
  replace (pendingJobs s) with (pendingJobs t). clearbody t.
  unfold markFailed. apply (inv_settle t cur); auto.
  - intros k. now destruct (id k =? id cur)%string.
  - intros k E. now destruct (String.eqb_spec (id k) (id cur)).
  - intros k E. rewrite E, String.eqb_refl. now right.
Qed.

(** Every step keeps the invariant. *)
Lemma inv_step (s s' : State) (ev : Event) :
  Inv s -> step s ev = Some s' -> Inv s'.
Proof.
  intros I Hs. destruct ev; cbn [step] in Hs.
  - destruct (fresh_ids s files) eqn:Hf; [|discriminate].
    injection Hs as <-. now apply inv_add.
  - injection Hs as <-. now apply inv_remove.
  - injection Hs as <-. now apply inv_stop.
  - injection Hs as <-. now apply inv_clear.
  - injection Hs as <-. now apply inv_autoStart.
  - destruct (isProcessing s) eqn:Hp; [|discriminate].
    destruct (current s) eqn:Hc; [discriminate|].
    injection Hs as <-. now apply inv_loopHead.
  - destruct (current s) as [cur|] eqn:Hc; [|discriminate].
    injection Hs as <-. unfold setProgress. apply inv_map; auto.
    + intros k. now destruct (id k =? id cur)%string.
    + intros k. now destruct (id k =? id cur)%string.
  - destruct (current s) as [cur|] eqn:Hc; [|discriminate].
    injection Hs as <-. now apply inv_resolved.
  - destruct (current s) as [cur|] eqn:Hc; [|discriminate].
    injection Hs as <-. now apply inv_rejected.
Qed.

Lemma inv_run (evs : list Event) : forall s s',
  Inv s -> run s evs = Some s' -> Inv s'.
Proof.
  induction evs as [|ev evs IH]; intros s s' I Hr; cbn [run] in Hr.
  - now injection Hr as <-.
  - destruct (step s ev) as [s1|] eqn:Hs; [|discriminate].
    apply (IH s1); [|assumption]. now apply (inv_step s s1 ev).
Qed.

End QueueInvariant.

Module QueueSteps.
Import App Queue QueueFacts QueueInvariant.

(** A step after which every job of the queue that was there before is as
    it was. *)
Lemma ok_same (s s' : State) :
  (forall j j', In j (jobs s) -> In j' (jobs s') -> id j' = id j -> j' = j) ->
  StepOk s s'.
Proof.
  intros H. constructor.
  - intros j j' Hj Hj' E. rewrite (H j j' Hj Hj' E). apply allowed_refl.
  - intros j j' Hj Hj' E Hp Hf. rewrite (H j j' Hj Hj' E) in Hf. congruence.
  - intros l1 j l2 j' Hl Hp Hj' E Hs.
    assert (Hj : In j (jobs s)) by (rewrite Hl; apply in_elt).
    rewrite (H j j' Hj Hj' E) in Hs. congruence.
Qed.

Lemma ok_subset (s s' : State) :
  NoDup (ids (jobs s)) -> incl (jobs s') (jobs s) -> StepOk s s'.
Proof.
  intros Hnd Hincl. apply ok_same. intros j j' Hj Hj' E.
  apply (same_id_same_job (jobs s)); auto.
Qed.

(** A step that rewrites each job by [g], ids kept. *)
Lemma mapped_job (s : State) (g : VideoJob -> VideoJob) (j j' : VideoJob) :
  NoDup (ids (jobs s)) -> (forall k, id (g k) = id k) ->
  In j (jobs s) -> In j' (map g (jobs s)) -> id j' = id j -> j' = g j.
Proof.
  intros Hnd Hid Hj Hj' E. apply in_map_iff in Hj' as (k & <- & Hk).
  rewrite Hid in E. f_equal. apply (same_id_same_job (jobs s)); auto.
Qed.

Lemma ok_mapped (s s' : State) (g : VideoJob -> VideoJob) :
  NoDup (ids (jobs s)) -> jobs s' = map g (jobs s) -> (forall k, id (g k) = id k) ->
  (forall j, In j (jobs s) -> allowed (status j) (status (g j)) = true) ->
  (forall j, In j (jobs s) -> status j = PENDING -> status (g j) = FAILED ->
             error (g j) = Some "Stopped by user") ->
  (forall l1 j l2, jobs s = l1 ++ j :: l2 -> status j = PENDING ->
                   status (g j) = PROCESSING ->
                   Forall (fun k => status k <> PENDING) l1) ->
  StepOk s s'.
Proof.
  intros Hnd Hj Hid Ht Hk Ho. constructor.
  - intros j j' Hin Hin' E. rewrite Hj in Hin'.
    rewrite (mapped_job s g j j'); auto.
  - intros j j' Hin Hin' E Hp Hf. rewrite Hj in Hin'.
    assert (Ej : j' = g j) by (apply (mapped_job s g j j'); auto).
    subst j'. now apply Hk.
  - intros l1 j l2 j' Hl Hp Hin' E Hs. rewrite Hj in Hin'.
    assert (Hin : In j (jobs s)) by (rewrite Hl; apply in_elt).
    rewrite (mapped_job s g j j') in Hs; auto. now apply (Ho l1 j l2).
Qed.

Lemma ok_add (s : State) (files : list NewFile) :
  Inv s -> fresh_ids s files = true -> StepOk s (handleAddFiles s files).
Proof.
  intros I Hf. apply ok_same. intros j j' Hj Hj' E.
  cbn [handleAddFiles jobs] in Hj'. apply in_app_or in Hj' as [Hj' | Hj'].
  - apply (same_id_same_job (jobs s)); auto. apply I.
  - exfalso. apply (fresh_not_issued s files (id j') Hf).
    + rewrite <- ids_new_jobs. now apply In_ids.
    + rewrite E. apply (inv_issued s I). now apply In_ids.
Qed.

Lemma ok_finish (s : State) : Inv s -> StepOk s (finish s).
Proof. intros I. apply ok_subset; [apply I | apply incl_refl]. Qed.

Lemma first_pending (l1 l2 : list VideoJob) (j : VideoJob) (rest : list string) :
  NoDup (ids (l1 ++ j :: l2)) ->
  ids (filter is_pending (l1 ++ j :: l2)) = id j :: rest ->
  Forall (fun k => status k <> PENDING) l1.
Proof.
  intros Hnd Hp. apply Forall_forall. intros k Hk Hs.
  rewrite filter_app, ids_app in Hp.
  destruct (filter is_pending l1) as [|a l] eqn:Ef.
  - assert (Hin : In k (filter is_pending l1)).
    { apply filter_In. split; [assumption|]. unfold is_pending. now rewrite Hs. }
    now rewrite Ef in Hin.
  - cbn in Hp. injection Hp as Ea _.
    assert (Ha : In a l1).
    { assert (H : In a (filter is_pending l1)) by (rewrite Ef; now left).
      now apply filter_In in H. }
    rewrite ids_app in Hnd. apply NoDup_remove_2 in Hnd. apply Hnd.
    apply in_or_app. left. rewrite <- Ea. now apply In_ids.
Qed.

Lemma ok_start (s : State) (r : VideoJob) (rest : list VideoJob) :
  Inv s -> pendingJobs s = r :: rest ->
  StepOk s (set_loop (set_jobs s (markProcessing (id r))) rest (Some r)).
Proof.
  intros I Hq.
  apply (ok_mapped s _ (fun j => if (id j =? id r)%string
                                 then with_status_progress j PROCESSING "Starting..."
                                 else j)).
  - apply I.
  - reflexivity.
  - intros k. now destruct (id k =? id r)%string.
  - intros j Hj. destruct (String.eqb_spec (id j) (id r)) as [E|E];
      [|apply allowed_refl].
    rewrite (inv_waiting s I r j); auto. rewrite Hq. now left.
  - intros j Hj Hp Hf. destruct (id j =? id r)%string; [discriminate | congruence].
  - intros l1 j l2 Hl Hp Hs.
    destruct (String.eqb_spec (id j) (id r)) as [E|E]; [|congruence].
    destruct (inv_order s I) as (added & Ho).
    unfold pending_ids, live_ids in Ho. rewrite Hq in Ho. unfold ids in Ho at 3.
    cbn [map filter] in Ho.
    assert (Hm : mem (id r) (ids (jobs s)) = true).
    { apply mem_In. rewrite <- E, Hl. apply In_ids, in_elt. }
    rewrite Hm in Ho. cbn [app] in Ho. rewrite Hl, <- E in Ho.
    eapply first_pending; [|exact Ho].
    rewrite <- Hl. apply I.
Qed.

Lemma ok_loopHead (s : State) : Inv s -> StepOk s (loopHead s).
Proof.
  intros I. unfold loopHead.
  destruct (pendingJobs s) as [|r rest] eqn:Hq; [now apply ok_finish|].
  destruct (abortControllerRef s) as [[|]|];
    [now apply ok_finish | now apply ok_start | now apply ok_start].
Qed.

Lemma ok_progress (s : State) (cur : VideoJob) (p : string) :
  Inv s -> StepOk s (set_jobs s (setProgress (id cur) p)).
Proof.
  intros I.
  apply (ok_mapped s _ (fun j => if (id j =? id cur)%string then with_progress j p else j)).
  - apply I.
  - reflexivity.
  - intros k. now destruct (id k =? id cur)%string.
  - intros j _. destruct (id j =? id cur)%string; apply allowed_refl.
  - intros j _ Hp Hf. destruct (id j =? id cur)%string; cbn in Hf; congruence.
  - intros l1 j l2 _ Hp Hs. destruct (id j =? id cur)%string; cbn in Hs; congruence.
Qed.

Lemma current_is_processing (s : State) (cur j : VideoJob) :
  Inv s -> current s = Some cur -> In j (jobs s) -> id j = id cur ->
  status j = PROCESSING.
Proof. intros I Hc Hj E. apply (inv_processing s I j Hj). now exists cur. Qed.

Lemma ok_resolved (s : State) (cur : VideoJob) (b : Blob) :
  Inv s -> current s = Some cur -> StepOk s (onResolved s cur b).
Proof.
  intros I Hc.
  apply (ok_mapped s _ (fun j => if (id j =? id cur)%string
                                 then with_completed j (createObjectURL b) else j)).
  - apply I.
  - reflexivity.
  - intros k. now destruct (id k =? id cur)%string.
  - intros j Hj. destruct (String.eqb_spec (id j) (id cur)) as [E|E];
      [|apply allowed_refl].
    now rewrite (current_is_processing s cur j).
  - intros j Hj Hp Hf. destruct (id j =? id cur)%string; cbn in Hf; congruence.
  - intros l1 j l2 _ Hp Hs. destruct (id j =? id cur)%string; cbn in Hs; congruence.
Qed.

Lemma ok_failed (s : State) (cur : VideoJob) (msg : string) (rest : list VideoJob) :
  Inv s -> current s = Some cur ->
  StepOk s (set_loop (set_jobs s (markFailed (id cur) msg)) rest None).
Proof.
  intros I Hc.
  apply (ok_mapped s _ (fun j => if (id j =? id cur)%string
                                 then with_failed j (Js.or_else msg "Failed") else j)).
  - apply I.
  - reflexivity.
  - intros k. now destruct (id k =? id cur)%string.
  - intros j Hj. destruct (String.eqb_spec (id j) (id cur)) as [E|E];
      [|apply allowed_refl].
    now rewrite (current_is_processing s cur j).
  - intros j Hj Hp Hf. destruct (String.eqb_spec (id j) (id cur)) as [E|E];
      [|congruence].
    rewrite (current_is_processing s cur j) in Hp; auto. discriminate.
  - intros l1 j l2 _ Hp Hs. destruct (id j =? id cur)%string; cbn in Hs; congruence.
Qed.

Lemma ok_cancelled (s : State) (cur : VideoJob) :
  Inv s -> current s = Some cur ->
  StepOk s (finish (set_jobs s (markCancelled (id cur)))).
Proof.
  intros I Hc.
  apply (ok_mapped s _ (fun j => if (id j =? id cur)%string then with_failed j "Cancelled"
                                 else if is_pending j then with_failed j "Stopped by user"
                                 else j)).
  - apply I.
  - reflexivity.
  - intros k. destruct (id k =? id cur)%string; [reflexivity|].
    now destruct (is_pending k).
  - intros j Hj. destruct (String.eqb_spec (id j) (id cur)) as [E|E].
    + now rewrite (current_is_processing s cur j).
    + unfold is_pending. destruct (status j) eqn:Es; cbn; rewrite ?Es; reflexivity.
  - intros j Hj Hp Hf. destruct (String.eqb_spec (id j) (id cur)) as [E|E].
    + rewrite (current_is_processing s cur j) in Hp; auto. discriminate.
    + unfold is_pending. now rewrite Hp.
  - intros l1 j l2 _ Hp Hs. destruct (id j =? id cur)%string; [discriminate|].
    unfold is_pending in Hs. rewrite Hp in Hs. discriminate.
Qed.

Lemma ok_rejected (s : State) (cur : VideoJob) (e : JsError) :
  Inv s -> current s = Some cur -> StepOk s (onRejected s cur e).
Proof.
  intros I Hc. unfold onRejected.
  destruct (is_abort e); [now apply ok_cancelled|].
  destruct (Js.includes (e_message e) "API Key" || Js.includes (e_message e) "Access Token").
  - destruct (ok_failed s cur (e_message e) (pendingJobs s) I Hc) as [H1 H2 H3].
    constructor; [exact H1 | exact H2 | exact H3].
  - now apply ok_failed.
Qed.

Lemma ok_step (s s' : State) (ev : Event) :
  Inv s -> step s ev = Some s' -> StepOk s s'.
Proof.
  intros I Hs. destruct ev; cbn [step] in Hs.
  - destruct (fresh_ids s files) eqn:Hf; [|discriminate].
    injection Hs as <-. now apply ok_add.
  - injection Hs as <-. apply ok_subset; [apply I|].
    intros j Hj. cbn in Hj. now apply filter_In in Hj.
  - injection Hs as <-. apply ok_subset; [apply I|].
    unfold handleStop. destruct (abortControllerRef s); apply incl_refl.
  - injection Hs as <-. apply ok_subset; [apply I|]. intros j [].
  - injection Hs as <-. apply ok_subset; [apply I|].
    unfold autoStart, processQueue.
    destruct (existsb is_pending (jobs s) && negb (isProcessing s));
      [destruct (isProcessing s)|]; apply incl_refl.
  - destruct (isProcessing s); [|discriminate].
    destruct (current s); [discriminate|].
    injection Hs as <-. now apply ok_loopHead.
  - destruct (current s) as [cur|] eqn:Hc; [|discriminate].
    injection Hs as <-. now apply ok_progress.
  - destruct (current s) as [cur|] eqn:Hc; [|discriminate].
    injection Hs as <-. now apply ok_resolved.
  - destruct (current s) as [cur|] eqn:Hc; [|discriminate].
    injection Hs as <-. now apply ok_rejected.
Qed.

(** C5, amended.  In every state the queue processor reaches, and for
    every step it takes from there: each job keeps its status or moves
    from pending to processing, from processing to completed or failed, or
    from pending straight to failed, and the last only with the error
    "Stopped by user"; no job comes back to pending; at most one job is
    processing, before the step and after it; and a job that starts
    processing has no pending job before it in the queue. *)
Theorem queue_discipline (s0 s s' : State) (evs : list Event) (ev : Event) :
  initial s0 -> run s0 evs = Some s -> step s ev = Some s' ->
  transitions allowed s s'
  /\ skips_only_when_stopped s s'
  /\ at_most_one_processing s /\ at_most_one_processing s'
  /\ in_order s s'.
Proof.
  intros H0 Hr Hs.
  assert (I : Inv s) by (apply (inv_run evs s0); [now apply inv_initial | assumption]).
  assert (I' : Inv s') by now apply (inv_step s s' ev).
  destruct (ok_step s s' ev I Hs) as [H1 H2 H3].
  repeat split; auto using inv_at_most_one.
Qed.

End QueueSteps.

(** ** Concrete runs of the driver *)

Module DriverRuns.
Import Fixtures SimpleUrl.

Example run_ok :
  generateVideo env_ok image cfg0 (Some " 'KEY' ") None 0
  = mkRes (Returned "VIDEO") 7
      [EInit (ApiKey "KEY"); EProgress "Encoding image..."; EEncode image;
       EProgress "Initializing generation...";
       ESubmit (submit_request image cfg0 "BASE64");
       EProgress "Generating video (this may take a minute)...";
       EWait 10000; EWait 10000; EPoll op_started;
       EProgress "Downloading result...";
       EFetch {| fr_url := "https://example.com/v.mp4?alt=media&key=KEY";
                 fr_headers := []; fr_credentials := Omit |};
       EBlob].
Proof. vm_compute. reflexivity. Qed.

Example run_vertex :
  trace (generateVideo env_ok image cfg0 None (Some (vertex_cfg "us-central1")) 0)
  = [EInit (VertexAI "my-project" "us-central1" "ya29.token");
     EProgress "Encoding image..."; EEncode image;
     EProgress "Initializing generation...";
     ESubmit (submit_request image cfg0 "BASE64");
     EProgress "Generating video (this may take a minute)...";
     EWait 10000; EWait 10000; EPoll op_started;
     EProgress "Downloading result...";
     EFetch {| fr_url := "https://example.com/v.mp4?alt=media";
               fr_headers := [("Authorization", "Bearer ya29.token")];
               fr_credentials := Unset |};
     EBlob].
Proof. vm_compute. reflexivity. Qed.

Example run_retry_message :
  nth_error (trace (generateVideo env_backoff image cfg0 (Some "KEY") None 0)) 17
  = Some (EProgress "Rate limit (429). Waiting 101s before retry (5/50)...").
Proof. vm_compute. reflexivity. Qed.

Lemma reaches_env_with submits polls reply :
  reaches_submission (env_with None submits polls reply) (Some "KEY") None false "BASE64".
Proof. repeat split. Defined.

Lemma all_rate_limited n :
  Forall (fun e => retryable e = true) (repeat rate_limited n).
Proof.
  apply Forall_forall. intros r Hr. apply repeat_spec in Hr. now subst r.
Defined.

Lemma all_not_found n :
  Forall (fun e => isNotFound e = true) (repeat not_found n).
Proof.
  apply Forall_forall. intros r Hr. apply repeat_spec in Hr. now subst r.
Defined.

Lemma all_failures n :
  Forall retryable_failure (repeat (inl rate_limited) n : list (JsError + Operation)).
Proof.
  apply Forall_forall. intros r Hr. apply repeat_spec in Hr. now subst r.
Defined.

(** Witness of C2: a script of 60 rate-limited replies. *)
Lemma retries_exhausted_witness :
  count_submits (trace (generateVideo env_exhausting image cfg0 (Some "KEY") None 0)) <= 51
  /\ out (generateVideo env_exhausting image cfg0 (Some "KEY") None 0)
     = Thrown (Error msg_retries_exhausted)
  /\ count_submits (trace (generateVideo env_exhausting image cfg0 (Some "KEY") None 0))
     = 51.
Proof.
  split.
  - apply (retries_exhausted_after_51 env_exhausting image cfg0 (Some "KEY") None
             false "BASE64"). apply all_failures.
  - apply (retries_exhausted_after_51 env_exhausting image cfg0 (Some "KEY") None
             false "BASE64").
    + apply all_failures.
    + apply reaches_env_with.
    + cbn [submit_replies env_exhausting env_with]. rewrite repeat_length. lia.
Defined.

(** Witness of C3: a refresh, a not-found failure, a rate-limited one and
    one that is neither, each at the head of the script; then one retried
    submission followed by 120 not-found replies. *)
Lemma polling_policy_witness :
  never_stopped env_lost /\ op_done op_started = false
  /\ poll_loop env_lost [inr op_finished] op_started 7 0
     = prepend [EWait 10000; EPoll op_started] (poll_loop env_lost [] op_finished 0 2)
  /\ poll_loop env_lost [inl not_found] op_started 7 0
     = prepend [EWait 10000; EPoll op_started] (poll_loop env_lost [] op_started 8 2)
  /\ poll_loop env_lost [inl rate_limited] op_started 7 0
     = prepend [EWait 10000; EPoll op_started; EWait 20000]
         (poll_loop env_lost [] op_started 7 3)
  /\ poll_loop env_lost [inl forbidden] op_started 7 0
     = mkRes (Thrown forbidden) 2 [EWait 10000; EPoll op_started]
  /\ out (generateVideo env_lost image cfg0 (Some "KEY") None 0)
     = Thrown (Error msg_polling_timeout).
Proof.
  assert (Hn : never_stopped env_lost) by (split; reflexivity).
  split; [exact Hn | split; [reflexivity|]].
  destruct (polling_policy env_lost [] op_started 7 0 Hn eq_refl)
    as (H1 & H2 & _ & _ & H5 & H6 & _).
  destruct (polling_policy env_lost [] op_started 0 0 Hn eq_refl)
    as (_ & _ & _ & _ & _ & _ & H).
  split; [apply H1|].
  split; [apply H2; [reflexivity | lia]|].
  split; [apply H5; reflexivity|].
  split; [apply H6; reflexivity|].
  apply (H image cfg0 (Some "KEY") None false "BASE64"
           [rate_limited] [] (repeat not_found 120) []).
  - apply reaches_env_with.
  - reflexivity.
  - apply (all_rate_limited 1).
  - cbn. lia.
  - reflexivity.
  - cbn [poll_replies env_lost env_with]. now rewrite map_repeat, app_nil_r.
  - apply all_not_found.
  - apply repeat_length.
Defined.

(** Counterexample to C3 as stated: a failure with status 429 whose
    serialized text holds 404.  The rate-limit test matches it, yet the
    loop counts it as not found: no wait of 20000 ms, the counter advanced,
    and 120 of them in a row are the polling timeout. *)
Lemma rate_limited_not_found_is_counted :
  isRateLimit_poll Scenarios.throttled_404 = true
  /\ poll_loop Scenarios.env_throttled_404 [inl Scenarios.throttled_404] op_started 0 0
     = prepend [EWait 10000; EPoll op_started]
         (poll_loop Scenarios.env_throttled_404 [] op_started 1 2)
  /\ out (generateVideo Scenarios.env_throttled_404 image cfg0 (Some "KEY") None 0)
     = Thrown (Error msg_polling_timeout)
  /\ waits (trace (generateVideo Scenarios.env_throttled_404 image cfg0 (Some "KEY") None 0))
     = repeat 10000%Z 121.
Proof. repeat split; vm_compute; reflexivity. Qed.

(** Witness of C4: seven rate-limited replies; the sixth wait is capped. *)
Lemma backoff_sequence_witness :
  nth_error (waits (trace (generateVideo env_backoff image cfg0 (Some "KEY") None 0))) 5
  = Some 120000%Z
  /\ QArith_base.Qeq (QArith_base.inject_Z (backoff_seq 5)) (backoff_rule 5).
Proof.
  apply (backoff_sequence env_backoff image cfg0 (Some "KEY") None false "BASE64"
           (repeat rate_limited 7) [inr op_started] 5).
  - apply reaches_env_with.
  - cbn [submit_replies env_backoff env_with]. now rewrite map_repeat.
  - apply all_rate_limited.
  - rewrite repeat_length. lia.
  - rewrite repeat_length. lia.
Defined.

(** Witness of C6: an operation with an error payload, filter reasons and
    a locator; one that is filtered and has a locator; one with two videos;
    one whose first video has no locator and whose second has. *)
Lemma result_extraction_witness :
  extract_result op_failed = inl (Error "quota exceeded for project")
  /\ extract_result op_filtered
     = inl (Error ("Content blocked by safety filter: " +++ "violence"))
  /\ extract_result Scenarios.op_two_videos = inr "https://example.com/first.mp4"
  /\ extract_result Scenarios.op_first_blank
     = inl (Error "No video URI returned. Check console for operation details.").
Proof.
  split; [|split; [|split]].
  - destruct (result_extraction_order op_failed) as (H & _).
    apply (H {| op_message := "quota exceeded for project" |}). reflexivity.
  - destruct (result_extraction_order op_filtered) as (_ & H & _).
    apply (H "violence" ["other"]); reflexivity.
  - destruct (result_extraction_order Scenarios.op_two_videos) as (_ & _ & H & _).
    apply (H {| raiMediaFilteredReasons := None;
                generatedVideos :=
                  Some [ {| video := Some {| uri := "https://example.com/first.mp4" |} |};
                         {| video := Some {| uri := "https://example.com/second.mp4" |} |} ] |}
             {| video := Some {| uri := "https://example.com/first.mp4" |} |}
             [ {| video := Some {| uri := "https://example.com/second.mp4" |} |} ]
             {| uri := "https://example.com/first.mp4" |});
      try reflexivity. discriminate.
  - destruct (result_extraction_order Scenarios.op_first_blank) as (_ & _ & _ & H & _).
    apply H; try reflexivity.
    intros resp g more v Hr Hg Hv.
    injection Hr as <-. injection Hg as <- <-. discriminate.
Defined.

(** Witness of C9: the one submission of an uneventful call, with the
    configuration of the application and with no prompt at all. *)
Lemma silence_clause_witness :
  (In (ESubmit (submit_request image cfg0 "BASE64"))
      (trace (generateVideo env_ok image cfg0 (Some "KEY") None 0))
   /\ sr_prompt (submit_request image cfg0 "BASE64")
      = "Silent video. No audio. Add simple motion.. (Video must be completely silent, no sound, no music, no audio track)")
  /\ (In (ESubmit (submit_request image Scenarios.cfg_blank "BASE64"))
         (trace (generateVideo env_ok image Scenarios.cfg_blank (Some "KEY") None 0))
      /\ sr_prompt (submit_request image Scenarios.cfg_blank "BASE64")
         = "Silent video, simple motion. (Video must be completely silent, no sound, no music, no audio track)").
Proof.
  assert (H1 : In (ESubmit (submit_request image cfg0 "BASE64"))
                 (trace (generateVideo env_ok image cfg0 (Some "KEY") None 0)))
    by (vm_compute; do 4 right; left; reflexivity).
  assert (H2 : In (ESubmit (submit_request image Scenarios.cfg_blank "BASE64"))
                 (trace (generateVideo env_ok image Scenarios.cfg_blank (Some "KEY") None 0)))
    by (vm_compute; do 4 right; left; reflexivity).
  split; (split; [assumption|]).
  - exact (proj1 (silence_clause_always env_ok image cfg0 (Some "KEY") None 0 _ H1)).
  - exact (proj1 (silence_clause_always env_ok image Scenarios.cfg_blank (Some "KEY") None 0
                    _ H2)).
Defined.

(** Witness of C7: project and token given, location empty. *)
Lemma credential_resolution_witness :
  generateVideo env_ok image cfg0 (Some "KEY") (Some (vertex_cfg "")) 0
  = mkRes (Thrown (Error msg_missing_location)) 0 [].
Proof.
  destruct (credential_resolution env_ok image cfg0 (Some "KEY") (Some (vertex_cfg ""))
              eq_refl) as (_ & H & _).
  apply (H (vertex_cfg "")); reflexivity.
Defined.

(** Witness of C8: the response to the download is not ok. *)
Lemma download_credentials_witness :
  download env_denied "https://example.com/v.mp4" false (Some "KEY") None 0
  = mkRes (Thrown (Error ("Video download error: Download failed: " +++ "Forbidden"))) 1
      [EFetch {| fr_url := "https://example.com/v.mp4?key=KEY"; fr_headers := [];
                 fr_credentials := Omit |}].
Proof.
  assert (Hn : never_stopped env_denied) by (split; reflexivity).
  destruct (download_credentials env_denied "https://example.com/v.mp4" (Some "KEY") None 0 Hn)
    as (_ & H & _).
  apply (H {| base := "https://example.com/v.mp4"; query := [] |} "KEY");
    [reflexivity | reflexivity | discriminate].
Defined.

(** Counterexample to C8 as stated: a locator that is no URL is not fetched
    with the key concatenated to it; it is not fetched at all. *)
Lemma unparsable_locator_is_not_fetched :
  out (generateVideo env_relative image cfg0 (Some "KEY") None 0)
  = Thrown (Error "Video download error: Invalid URL")
  /\ existsb is_fetch (trace (generateVideo env_relative image cfg0 (Some "KEY") None 0))
     = false
  /\ KeyOnly.finalUrl "videos/1.mp4" "KEY" = "videos/1.mp4?key=KEY".
Proof. vm_compute. repeat split. Qed.

End DriverRuns.

(** ** Batch passes *)

Module BatchFacts.
Import App Queue QueueFacts QueueInvariant QueueSteps Batch.

Lemma run_app (evs1 evs2 : list Event) : forall s,
  run s (evs1 ++ evs2)
  = match run s evs1 with Some s1 => run s1 evs2 | None => None end.
Proof.
  induction evs1 as [|ev evs1 IH]; intros s; cbn [app run]; [reflexivity|].
  destruct (step s ev); [apply IH | reflexivity].
Qed.

Section Passes.
Context {url_api : UrlApi}.

(** The events of a pass are a run of the queue processor. *)
Lemma drive_run (envs : list Env) : forall s s' evs effs,
  drive envs s = (s', evs, effs) -> run s evs = Some s'.
Proof.
  induction envs as [|env envs IH]; intros s s' evs effs H; cbn [drive] in H.
  - destruct (step s LoopHead) as [s1|] eqn:Hs.
    + destruct (current s1); injection H as <- <- <-; cbn [run]; now rewrite Hs.
    + now injection H as <- <- <-.
  - destruct (step s LoopHead) as [s1|] eqn:Hs; [|now injection H as <- <- <-].
    destruct (current s1) as [job|];
      [|injection H as <- <- <-; cbn [run]; now rewrite Hs].
    destruct (run s1 (settle_events env (call_driver s1 env job))) as [s2|] eqn:Hr;
      [|injection H as <- <- <-; cbn [run]; now rewrite Hs].
    destruct (drive envs s2) as [[s3 evs3] effs3] eqn:Hd.
    injection H as <- <- <-. cbn [run]. rewrite Hs, run_app, Hr.
    now apply (IH s2 s3 evs3 effs3).
Qed.

Lemma pass_run (envs : list Env) (s s' : State) evs effs :
  pass envs s = (s', evs, effs) -> run s evs = Some s'.
Proof.
  unfold pass. destruct (drive envs (autoStart s)) as [[s1 evs1] effs1] eqn:Hd.
  intros [= <- <- <-]. cbn [run step]. now apply (drive_run envs _ _ _ effs1).
Qed.

(** Whatever the driver calls do, a pass leaves the queue in a state where
    at most one job is processing. *)
Lemma pass_at_most_one (envs : list Env) (s s' : State) evs effs :
  Inv s -> pass envs s = (s', evs, effs) -> at_most_one_processing s'.
Proof.
  intros I H. apply inv_at_most_one, (inv_run evs s); [assumption|].
  now apply (pass_run envs s s' evs effs).
Qed.

(** Whatever goes wrong in the download, cancellation included, the error
    the driver throws is not one the queue processor takes for a
    cancellation. *)
Lemma download_error_not_abort env link uv key vc c e :
  out (download env link uv key vc c) = Thrown e -> is_abort e = false.
Proof.
  unfold download, try_catch.
  match goal with |- context [match ?m c with _ => _ end] => destruct (m c) as [[b|e'|] c' tr] end;
    cbn [out prepend throw]; try discriminate.
  intros [= <-]. reflexivity.
Qed.

End Passes.
End BatchFacts.

Module QueueRuns.
Import App Queue Fixtures SimpleUrl Batch.

Lemma initial_init_state : initial init_state.
Proof. repeat split. Defined.

(** Witness of C5: three files queued, the first processing, Stop pressed,
    the driver call rejected as aborted. *)
Lemma queue_discipline_witness :
  transitions allowed before_reject after_reject
  /\ skips_only_when_stopped before_reject after_reject
  /\ at_most_one_processing before_reject /\ at_most_one_processing after_reject
  /\ in_order before_reject after_reject.
Proof.
  apply (QueueSteps.queue_discipline init_state before_reject after_reject stop_events
           (Rejected (AbortException "Aborted"))).
  - apply initial_init_state.
  - reflexivity.
  - reflexivity.
Defined.

(** Counterexample to C5 as stated: in that step the jobs "b" and "c" go
    from pending to failed without having been processing. *)
Lemma pending_job_fails_unprocessed :
  run init_state stop_events = Some before_reject
  /\ step before_reject (Rejected (AbortException "Aborted")) = Some after_reject
  /\ summary before_reject
     = [("a", PROCESSING, None); ("b", PENDING, None); ("c", PENDING, None)]
  /\ summary after_reject
     = [("a", FAILED, Some "Cancelled"); ("b", FAILED, Some "Stopped by user");
        ("c", FAILED, Some "Stopped by user")]
  /\ ~ transitions strict before_reject after_reject.
Proof.
  repeat split.
  intros H.
  specialize (H (new_job (file_of "b"))
                (with_failed (new_job (file_of "b")) "Stopped by user")).
  cbn in H. discriminate H; auto.
Qed.

(** Stop pressed during a wait: the backoff wait of the submission loop
    (await 2 of [env_retry_stop]), the wait of the polling loop (await 5 of
    [env_retry_stop]).  The running job is cancelled, the pending ones are
    stopped, and the pass submits nothing more. *)
Lemma cancel_during_wait_stops_batch :
  outcome_of (pass [env_retry_stop 2; env_ok; env_ok] queued)
  = ([("a", FAILED, Some "Cancelled"); ("b", FAILED, Some "Stopped by user");
      ("c", FAILED, Some "Stopped by user")], false, 1)
  /\ outcome_of (pass [env_retry_stop 5; env_ok; env_ok] queued)
     = ([("a", FAILED, Some "Cancelled"); ("b", FAILED, Some "Stopped by user");
         ("c", FAILED, Some "Stopped by user")], false, 2).
Proof. vm_compute. split; reflexivity. Qed.

(** C1, the failing run.  Stop pressed during the download (await 5 of
    [env_stop], the [fetch]): the driver wraps the rejection of [fetch]
    into a download error, the queue processor does not take it for a
    cancellation, the running job fails with the download error instead of
    "Cancelled", and the two pending jobs stay pending.  The pass ends
    without another submission, but the queue is idle with pending jobs,
    so the effect starts a new pass, which submits both. *)
Theorem cancel_during_download_is_missed :
  outcome_of (pass [env_stop 5; env_ok; env_ok] queued)
  = ([("a", FAILED, Some "Video download error: signal is aborted without reason");
      ("b", PENDING, None); ("c", PENDING, None)], false, 1)
  /\ outcome_of (pass [env_ok; env_ok]
                   (fst (fst (pass [env_stop 5; env_ok; env_ok] queued))))
     = ([("a", FAILED, Some "Video download error: signal is aborted without reason");
         ("b", COMPLETED, None); ("c", COMPLETED, None)], false, 2).
Proof. vm_compute. split; reflexivity. Qed.

End QueueRuns.

(** ** The lone quote *)

(** C10, the failing input.  A key that is one quote character has no
    matching quote, and is stripped all the same. *)
Theorem lone_quote_is_stripped :
  sanitizeKey dquote = Some "" /\ sanitizeKey squote = Some ""
  /\ sanitizeKey (" " +++ dquote +++ " ") = Some "".
Proof. vm_compute. repeat split. Qed.

(** The other halves of C10 on examples: quotes that do not match, and no
    quotes, are left in place. *)
Example sanitize_examples :
  sanitizeKey ("  " +++ dquote +++ "ab cd" +++ dquote +++ " ") = Some "ab cd"
  /\ sanitizeKey (dquote +++ "abc" +++ squote) = Some (dquote +++ "abc" +++ squote)
  /\ sanitizeKey (dquote +++ "abc") = Some (dquote +++ "abc")
  /\ sanitizeKey " abc " = Some "abc"
  /\ sanitizeKey (squote +++ dquote +++ "abc" +++ dquote +++ squote)
     = Some (dquote +++ "abc" +++ dquote)
  /\ sanitizeKey "" = None.
Proof. vm_compute. repeat split. Qed.

(** ** Keys that are not wrapped in quotes *)

Section Unwrapped.

Lemma substring_last (k : string) :
  1 <= String.length k ->
  k = substring 0 (String.length k - 1) k +++ substring (String.length k - 1) 1 k.
Proof.
  induction k as [|c k IH]; cbn [String.length]; [lia|].
  intros _. destruct k as [|c' k'].
  - reflexivity.
  - replace (S (String.length (String c' k')) - 1) with (S (String.length (String c' k') - 1))
      by (cbn [String.length]; lia).
    cbn [substring String.append]. f_equal. apply IH. cbn [String.length]. lia.
Qed.

Lemma endsWith_char (k : string) (c : ascii) :
  Js.endsWith k (String c "") = true -> exists s, k = s +++ String c "".
Proof.
  unfold Js.endsWith. cbn [String.length]. intros H.
  apply andb_prop in H as [Hlen Heq].
  apply Nat.leb_le in Hlen. apply String.eqb_eq in Heq.
  exists (substring 0 (String.length k - 1) k).
  rewrite <- Heq. now apply substring_last.
Qed.

Lemma startsWith_char (k : string) (c : ascii) :
  Js.startsWith k (String c "") = true -> exists s, k = String c s.
Proof.
  unfold Js.startsWith. destruct k as [|a k]; cbn; [discriminate|].
  destruct (ascii_dec c a) as [->|]; [|discriminate]. intros _. now exists k.
Qed.

Lemma quoted_both_ends (k : string) (c : ascii) :
  Js.startsWith k (String c "") && Js.endsWith k (String c "") = true ->
  k = String c "" \/ exists t, k = String c "" +++ t +++ String c "".
Proof.
  intros H. apply andb_prop in H as [Hs He].
  apply startsWith_char in Hs as (s & ->).
  apply endsWith_char in He as (s' & He).
  destruct s' as [|a s']; cbn in He.
  - left. exact He.
  - right. injection He as <- ->. now exists s'.
Qed.

(** Unmatched or absent quotes are left in place, the key that is one
    quote character apart. *)
Lemma sanitizeKey_unwrapped (key : string) :
  key <> "" -> ~ wrapped (Js.trim key) ->
  Js.trim key <> dquote -> Js.trim key <> squote ->
  sanitizeKey key = Some (Js.trim key).
Proof.
  intros Hk Hw Hd Hs. unfold sanitizeKey.
  replace (Js.truthy key) with true by (destruct key; [contradiction | reflexivity]).
  cbn [negb].
  destruct (Js.startsWith (Js.trim key) dquote && Js.endsWith (Js.trim key) dquote) eqn:E1.
  { apply quoted_both_ends in E1 as [E | (t & E)]; [contradiction|].
    exfalso. apply Hw. exists dquote, t. split; [now left | exact E]. }
  destruct (Js.startsWith (Js.trim key) squote && Js.endsWith (Js.trim key) squote) eqn:E2.
  { apply quoted_both_ends in E2 as [E | (t & E)]; [contradiction|].
    exfalso. apply Hw. exists squote, t. split; [now right | exact E]. }
  reflexivity.
Qed.

End Unwrapped.

(** ** Cancellation, in general *)

Module Cancellation.
Import App Queue Fixtures SimpleUrl Batch.

Section Waits.
Context {url_api : UrlApi}.
Variable env : Env.

(** Stop pressed while a timer runs: the wait rejects with the abort
    exception. *)
Lemma wait_stopped (ms : Z) (c : nat) :
  pre_aborted env = false -> stop_at env = Some c ->
  wait env ms c = mkRes (Thrown (AbortException "Aborted")) (S c) [EWait ms].
Proof.
  intros Hp Hs. unfold wait, check_abort, bind, now, emit, tick, aborted.
  rewrite Hp, Hs. cbn [orb].
  rewrite Nat.ltb_irrefl. cbn.
  rewrite Nat.leb_refl. reflexivity.
Qed.

(** Stop pressed before the wait begins: no timer is armed. *)
Lemma wait_after_stop (ms : Z) (c k : nat) :
  stop_at env = Some k -> k < c ->
  wait env ms c = mkRes (Thrown (AbortException "Aborted")) c [].
Proof.
  intros Hs Hk. unfold wait, check_abort, bind, now, aborted.
  rewrite Hs. replace (k <? c)%nat with true by (symmetry; now apply Nat.ltb_lt).
  rewrite orb_true_r. reflexivity.
Qed.

End Waits.

Lemma abort_exception_is_abort (msg : string) : is_abort (AbortException msg) = true.
Proof. reflexivity. Qed.

(** What the queue processor does with a rejection it takes for a
    cancellation: the job of the call fails as cancelled, every other
    pending job fails as stopped, no job is pending any more, and the pass
    is over. *)
Lemma onRejected_abort (s : State) (cur : VideoJob) (e : JsError) :
  is_abort e = true ->
  jobs (onRejected s cur e) = markCancelled (id cur) (jobs s)
  /\ isProcessing (onRejected s cur e) = false
  /\ Forall (fun j => status j <> PENDING) (jobs (onRejected s cur e))
  /\ (forall k, In k (jobs s) -> id k = id cur ->
        In (with_failed k "Cancelled") (jobs (onRejected s cur e)))
  /\ (forall k, In k (jobs s) -> id k <> id cur -> status k = PENDING ->
        In (with_failed k "Stopped by user") (jobs (onRejected s cur e))).
Proof.
  intros He. unfold onRejected. rewrite He.
  cbn [finish set_pass set_jobs jobs isProcessing]. repeat split.
  - apply Forall_forall. intros j' Hj'. unfold markCancelled in Hj'.
    apply in_map_iff in Hj' as (k & <- & _).
    destruct (id k =? id cur)%string; [discriminate|].
    unfold is_pending. destruct (status k) eqn:Es; cbn; congruence.
  - intros k Hk E. unfold markCancelled. apply in_map_iff. exists k.
    split; [|assumption]. now rewrite E, String.eqb_refl.
  - intros k Hk E Hp. unfold markCancelled. apply in_map_iff. exists k.
    split; [|assumption].
    destruct (String.eqb_spec (id k) (id cur)); [contradiction|].
    unfold is_pending. now rewrite Hp.
Qed.

(** What it does with any other rejection, the download error of a
    cancelled download among them: only the job of the call changes, so
    every pending job stays pending. *)
Lemma onRejected_other (s : State) (cur : VideoJob) (e : JsError) :
  is_abort e = false ->
  jobs (onRejected s cur e) = markFailed (id cur) (e_message e) (jobs s)
  /\ (forall k, In k (jobs s) -> id k <> id cur -> In k (jobs (onRejected s cur e))).
Proof.
  intros He. unfold onRejected. rewrite He.
  destruct (Js.includes (e_message e) "API Key" || Js.includes (e_message e) "Access Token");
    cbn [set_loop set_jobs set_showSettings jobs]; (split; [reflexivity|]);
    intros k Hk E; unfold markFailed; apply in_map_iff; exists k;
    (split; [|assumption]); now destruct (String.eqb_spec (id k) (id cur)).
Qed.

(** Stop pressed during the last status refresh, or while the body of the
    response is read, is missed in the same way as during the fetch. *)
Example cancel_late_is_missed :
  outcome_of (pass [env_stop 4; env_ok; env_ok] queued)
  = ([("a", FAILED, Some "Video download error: signal is aborted without reason");
      ("b", PENDING, None); ("c", PENDING, None)], false, 1)
  /\ outcome_of (pass [env_stop 6; env_ok; env_ok] queued)
     = ([("a", FAILED, Some "Video download error: signal is aborted without reason");
         ("b", PENDING, None); ("c", PENDING, None)], false, 1).
Proof. vm_compute. split; reflexivity. Qed.

End Cancellation.

(** ** More on the submission loop *)

Section SubmitMore.
Context {url_api : UrlApi}.
Variable env : Env.

Lemma submit_loop_retry_trace req errs : forall replies a b c,
  never_stopped env -> Forall (fun e => retryable e = true) errs ->
  (a + Z.of_nat (length errs) <= MAX_START_RETRIES)%Z ->
  submit_loop env req (map inl errs ++ replies) a b c
  = prepend (retry_trace req errs a b)
      (submit_loop env req replies (a + Z.of_nat (length errs))
         (Nat.iter (length errs) next_backoff b) (2 * length errs + c)).
Proof.
  induction errs as [|e errs IH]; intros replies a b c Hn Hall Hle.
  - cbn [map app length retry_trace Nat.iter nat_rect Nat.mul Nat.add Z.of_nat].
    now rewrite Z.add_0_r, prepend_nil.
  - inversion Hall as [|? ? He Hall']; subst. cbn [map app length] in *.
    rewrite submit_loop_retry by (auto; lia).
    rewrite IH by (auto; lia). rewrite prepend_prepend. cbn [retry_trace app].
    rewrite Nat.iter_succ_r.
    replace (a + 1 + Z.of_nat (length errs))%Z
      with (a + Z.of_nat (S (length errs)))%Z by lia.
    replace (2 * length errs + S (S c)) with (2 * S (length errs) + c) by lia.
    reflexivity.
Qed.

Lemma retry_trace_submits req errs : forall a b,
  count_submits (retry_trace req errs a b) = length errs.
Proof.
  induction errs as [|e errs IH]; intros a b; [reflexivity|].
  cbn [retry_trace]. unfold count_submits in *. cbn [filter is_submit length].
  now rewrite IH.
Qed.

Lemma retry_trace_polls req errs : forall a b,
  count_polls (retry_trace req errs a b) = 0.
Proof.
  induction errs as [|e errs IH]; intros a b; [reflexivity|].
  cbn [retry_trace]. unfold count_polls in *. cbn [filter is_poll]. apply IH.
Qed.

Lemma retry_trace_waits req errs : forall a b,
  waits (retry_trace req errs a b)
  = map (fun i => Nat.iter i next_backoff b) (seq 0 (length errs)).
Proof.
  induction errs as [|e errs IH]; intros a b; [reflexivity|].
  cbn [retry_trace length]. rewrite iter_backoffs.
  unfold waits in *. cbn [flat_map app]. now rewrite IH.
Qed.

Lemma retry_trace_progress req errs : forall a b n e,
  nth_error errs n = Some e ->
  nth_error (progress_reports (retry_trace req errs a b)) n
  = Some (retry_message e (Nat.iter n next_backoff b) (a + Z.of_nat n + 1)).
Proof.
  induction errs as [|e0 errs IH]; intros a b n e Hn; [now destruct n|].
  cbn [retry_trace]. unfold progress_reports in *. cbn [flat_map app].
  destruct n as [|n]; cbn [nth_error] in *.
  - injection Hn as ->. cbn [Nat.iter nat_rect Z.of_nat]. now rewrite Z.add_0_r.
  - rewrite (IH (a + 1)%Z (next_backoff b) n e Hn), Nat.iter_succ_r.
    do 2 f_equal. lia.
Qed.

Lemma retry_trace_progress_length req errs : forall a b,
  length (progress_reports (retry_trace req errs a b)) = length errs.
Proof.
  induction errs as [|e errs IH]; intros a b; [reflexivity|].
  cbn [retry_trace]. unfold progress_reports in *. cbn [flat_map app length].
  now rewrite IH.
Qed.

Lemma opening_quiet f key vc :
  count_submits (opening env f key vc) = 0 /\ count_polls (opening env f key vc) = 0
  /\ waits (opening env f key vc) = []
  /\ progress_reports (opening env f key vc)
     = ["Encoding image..."; "Initializing generation..."].
Proof.
  unfold opening. pose proof (init_trace env key vc 0) as H.
  induction H as [|ev l Hev _ IH]; [now repeat split|].
  destruct ev; try contradiction. exact IH.
Qed.

Lemma generateVideo_opening f cfg key vc uv b64 :
  reaches_submission env key vc uv b64 ->
  generateVideo env f cfg key vc 0
  = prepend (opening env f key vc)
      (bind (submit_loop env (submit_request f cfg b64) (submit_replies env) 0 20000)
            (fun operation => after_submission env operation uv key vc) 1).
Proof. apply generateVideo_phaseA. Qed.

End SubmitMore.

Section DriverMore.
Context {url_api : UrlApi}.
Variable env : Env.

Lemma bind_prepend_run {A B} (m m' : M A) (f : A -> M B) c c' l :
  m c = prepend l (m' c') -> bind m f c = prepend l (bind m' f c').
Proof.
  intros H. unfold bind. rewrite H.
  destruct (m' c') as [[a|e|] c1 tr]; unfold prepend; cbn [out clk trace];
    now rewrite ?app_assoc.
Qed.

Lemma count_polls_app (l1 l2 : list Effect) :
  count_polls (l1 ++ l2) = count_polls l1 + count_polls l2.
Proof. unfold count_polls. now rewrite filter_app, length_app. Qed.

Lemma progress_reports_app (l1 l2 : list Effect) :
  progress_reports (l1 ++ l2) = progress_reports l1 ++ progress_reports l2.
Proof. unfold progress_reports. now rewrite flat_map_app. Qed.

Lemma iter_backoffs_seq (k : nat) :
  map (fun i => Nat.iter i next_backoff 20000%Z) (seq 0 k) = map backoff_seq (seq 0 k).
Proof. apply map_ext. intros i. apply iter_backoff_seq. Qed.

(** The call up to the reply that follows [errs]. *)
Lemma generateVideo_retries f cfg key vc uv b64 errs rest :
  reaches_submission env key vc uv b64 ->
  submit_replies env = map inl errs ++ rest ->
  Forall (fun e => retryable e = true) errs -> length errs <= 50 ->
  generateVideo env f cfg key vc 0
  = prepend (opening env f key vc ++ retry_trace (submit_request f cfg b64) errs 0 20000)
      (bind (submit_loop env (submit_request f cfg b64) rest (Z.of_nat (length errs))
               (backoff_seq (length errs)))
            (fun operation => after_submission env operation uv key vc)
            (2 * length errs + 1)).
Proof.
  intros Hr Hs Hall Hlen.
  rewrite (generateVideo_opening env f cfg key vc uv b64 Hr).
  destruct Hr as (Hn & _ & _).
  rewrite Hs.
  erewrite bind_prepend_run.
  2:{ apply submit_loop_retry_trace; auto. unfold MAX_START_RETRIES. lia. }
  rewrite prepend_prepend, iter_backoff_seq. reflexivity.
Qed.

(** X1.  A submission failure that is neither rate-limited nor transient
    ends the call at once, whatever was retried before: the driver throws
    an error with the failure's message, or with "Failed to start
    generation" when that is empty, arms no backoff wait for it and makes
    no status call. *)
Theorem fatal_failure_surfaces f cfg key vc uv b64 errs e more :
  reaches_submission env key vc uv b64 ->
  submit_replies env = map inl errs ++ inl e :: more ->
  Forall (fun e => retryable e = true) errs -> length errs <= 50 ->
  retryable e = false ->
  out (generateVideo env f cfg key vc 0)
  = Thrown (Error (if Js.truthy (e_message e) then e_message e
                   else "Failed to start generation"))
  /\ count_submits (trace (generateVideo env f cfg key vc 0)) = length errs + 1
  /\ count_polls (trace (generateVideo env f cfg key vc 0)) = 0
  /\ waits (trace (generateVideo env f cfg key vc 0))
     = map backoff_seq (seq 0 (length errs)).
Proof.
  intros Hr Hs Hall Hlen He.
  rewrite (generateVideo_retries f cfg key vc uv b64 errs (inl e :: more) Hr Hs Hall Hlen).
  destruct Hr as (Hn & _ & _).
  erewrite bind_thrown by (apply submit_loop_fatal; assumption).
  unfold prepend. cbn [out clk trace].
  destruct (opening_quiet env f key vc) as (H1 & H2 & H3 & _).
  repeat split.
  - rewrite !count_submits_app, H1, retry_trace_submits. reflexivity.
  - rewrite !count_polls_app, H2, retry_trace_polls. reflexivity.
  - rewrite !waits_app, H3, retry_trace_waits, iter_backoffs_seq. cbn [app waits flat_map].
    now rewrite app_nil_r.
Qed.

(** X2.  An operation that comes back without a name is not polled: the
    driver throws the no-operation-name error straight after the
    submission, without the propagation wait and without a status call. *)
Theorem unnamed_operation_is_not_polled f cfg key vc uv b64 errs op more :
  reaches_submission env key vc uv b64 ->
  submit_replies env = map inl errs ++ inr op :: more ->
  Forall (fun e => retryable e = true) errs -> length errs <= 50 ->
  op_name op = "" ->
  out (generateVideo env f cfg key vc 0) = Thrown (Error msg_no_operation_name)
  /\ count_polls (trace (generateVideo env f cfg key vc 0)) = 0
  /\ waits (trace (generateVideo env f cfg key vc 0))
     = map backoff_seq (seq 0 (length errs)).
Proof.
  intros Hr Hs Hall Hlen Hname.
  rewrite (generateVideo_retries f cfg key vc uv b64 errs (inr op :: more) Hr Hs Hall Hlen).
  destruct Hr as (Hn & _ & _).
  erewrite bind_returned by (apply submit_loop_ok; assumption).
  unfold after_submission. rewrite Hname. cbn [Js.truthy negb].
  unfold prepend, throw. cbn [out clk trace].
  destruct (opening_quiet env f key vc) as (H1 & H2 & H3 & _).
  repeat split.
  - rewrite !count_polls_app, H2, retry_trace_polls. reflexivity.
  - rewrite !waits_app, H3, retry_trace_waits, iter_backoffs_seq. cbn [app waits flat_map].
    now rewrite !app_nil_r.
Qed.

(** The call up to the polling loop. *)
Lemma generateVideo_submitted f cfg key vc uv b64 errs op more :
  reaches_submission env key vc uv b64 ->
  submit_replies env = map inl errs ++ inr op :: more ->
  Forall (fun e => retryable e = true) errs -> length errs <= 50 ->
  op_name op <> "" ->
  generateVideo env f cfg key vc 0
  = prepend (opening env f key vc
             ++ retry_trace (submit_request f cfg b64) errs 0 20000
             ++ handover (submit_request f cfg b64))
      (bind (poll_loop env (poll_replies env) op 0)
            (fun updatedOperation => after_polling env updatedOperation uv key vc)
            (2 * length errs + 3)).
Proof.
  intros Hr Hs Hall Hlen Hname.
  rewrite (generateVideo_retries f cfg key vc uv b64 errs (inr op :: more) Hr Hs Hall Hlen).
  destruct Hr as (Hn & _ & _).
  erewrite bind_returned by (apply submit_loop_ok; assumption).
  unfold after_submission.
  replace (Js.truthy (op_name op)) with true
    by (destruct (op_name op); [contradiction | reflexivity]).
  cbn [negb].
  erewrite bind_returned by reflexivity.
  erewrite bind_returned by (apply wait_quiet; exact Hn).
  rewrite !prepend_prepend. unfold handover.
  replace (S (S (2 * length errs + 1))) with (2 * length errs + 3) by lia.
  f_equal. rewrite <- !app_assoc. reflexivity.
Qed.

Lemma after_polling_no_poll op uv key vc :
  trace_all (fun ev => is_poll ev = false) (after_polling env op uv key vc).
Proof.
  unfold after_polling. destruct (extract_result op); [auto with traces|].
  apply trace_all_bind; [now apply onProgress_trace | intros _].
  now apply download_trace.
Qed.

Lemma count_polls_quiet (l : list Effect) :
  Forall (fun ev => is_poll ev = false) l -> count_polls l = 0.
Proof.
  induction 1 as [|ev l Hev _ IH]; [reflexivity|].
  unfold count_polls in *. cbn [filter]. now rewrite Hev.
Qed.

Lemma handover_quiet req :
  count_polls (handover req) = 0 /\ waits (handover req) = [10000%Z]
  /\ count_submits (handover req) = 1.
Proof. repeat split. Qed.

(** X3.  An operation that is already done when the submission returns is
    never asked for its status: after the one propagation wait of 10000 ms
    the driver goes straight to the extraction of the result. *)
Theorem done_operation_is_not_polled f cfg key vc uv b64 errs op more :
  reaches_submission env key vc uv b64 ->
  submit_replies env = map inl errs ++ inr op :: more ->
  Forall (fun e => retryable e = true) errs -> length errs <= 50 ->
  op_name op <> "" -> op_done op = true ->
  generateVideo env f cfg key vc 0
  = prepend (opening env f key vc
             ++ retry_trace (submit_request f cfg b64) errs 0 20000
             ++ handover (submit_request f cfg b64))
      (after_polling env op uv key vc (2 * length errs + 3))
  /\ count_polls (trace (generateVideo env f cfg key vc 0)) = 0.
Proof.
  intros Hr Hs Hall Hlen Hname Hdone.
  assert (E : generateVideo env f cfg key vc 0
              = prepend (opening env f key vc
                         ++ retry_trace (submit_request f cfg b64) errs 0 20000
                         ++ handover (submit_request f cfg b64))
                  (after_polling env op uv key vc (2 * length errs + 3))).
  { rewrite (generateVideo_submitted f cfg key vc uv b64 errs op more); auto.
    erewrite bind_returned by (apply poll_loop_done; assumption).
    now rewrite prepend_nil. }
  split; [exact E|]. rewrite E. unfold prepend. cbn [trace].
  destruct (opening_quiet env f key vc) as (_ & H2 & _).
  rewrite !count_polls_app, H2, retry_trace_polls.
  rewrite (count_polls_quiet _ (after_polling_no_poll op uv key vc _)). reflexivity.
Qed.

End DriverMore.

Section PollMore.
Context {url_api : UrlApi}.
Variable env : Env.

Lemma poll_loop_rate_limited_run errs : forall replies op rc c,
  never_stopped env -> op_done op = false ->
  Forall (fun e => rate_limited_poll e = true) errs ->
  poll_loop env (map inl errs ++ replies) op rc c
  = prepend (rate_limited_trace op errs)
      (poll_loop env replies op rc (3 * length errs + c)).
Proof.
  induction errs as [|e errs IH]; intros replies op rc c Hn Hop Hall.
  - cbn [map app length rate_limited_trace Nat.mul Nat.add]. now rewrite prepend_nil.
  - inversion Hall as [|? ? He Hall']; subst. cbn [map app length].
    unfold rate_limited_poll in He. apply andb_prop in He as [He1 He2].
    rewrite poll_loop_rate_limited; auto; [|now destruct (isNotFound e)].
    rewrite IH by assumption. rewrite prepend_prepend. cbn [rate_limited_trace app].
    replace (3 * length errs + (3 + c)) with (3 * S (length errs) + c) by lia.
    reflexivity.
Qed.

Lemma poll_loop_not_found_trace errs : forall replies op rc c,
  never_stopped env -> op_done op = false ->
  Forall (fun e => isNotFound e = true) errs ->
  (rc + Z.of_nat (length errs) < MAX_POLLING_RETRIES)%Z ->
  poll_loop env (map inl errs ++ replies) op rc c
  = prepend (polling_trace op (length errs))
      (poll_loop env replies op (rc + Z.of_nat (length errs)) (2 * length errs + c)).
Proof.
  induction errs as [|e errs IH]; intros replies op rc c Hn Hop Hall Hrc.
  - cbn [map app length polling_trace Z.of_nat Nat.mul Nat.add].
    now rewrite Z.add_0_r, prepend_nil.
  - inversion Hall as [|? ? He Hall']; subst. cbn [map app length] in *.
    rewrite poll_loop_not_found by (auto; lia).
    rewrite IH by (auto; lia). rewrite prepend_prepend. cbn [polling_trace app].
    replace (rc + 1 + Z.of_nat (length errs))%Z with (rc + Z.of_nat (S (length errs)))%Z by lia.
    replace (2 * length errs + (2 + c)) with (2 * S (length errs) + c) by lia.
    reflexivity.
Qed.

Lemma polling_trace_snoc op n :
  polling_trace op n ++ [EWait 10000; EPoll op] = polling_trace op (S n).
Proof. induction n as [|n IH]; cbn [polling_trace app]; [reflexivity | now rewrite IH]. Qed.

Lemma polling_trace_polls op n : count_polls (polling_trace op n) = n.
Proof.
  induction n as [|n IH]; [reflexivity|]. unfold count_polls in *.
  cbn [polling_trace filter is_poll length]. now rewrite IH.
Qed.

(** X4.  Rate-limited status failures are waited out without a bound:
    however many of them come in a row (and none of them counts as
    not-found), the driver answers each with the extra wait of 20000 ms and
    asks again, and when the completed operation arrives it goes on to the
    extraction of the result. *)
Theorem rate_limited_polling_is_unbounded f cfg key vc uv b64 op0 more_s errs op more_p :
  reaches_submission env key vc uv b64 ->
  submit_replies env = inr op0 :: more_s ->
  op_name op0 <> "" -> op_done op0 = false ->
  poll_replies env = map inl errs ++ inr op :: more_p ->
  Forall (fun e => rate_limited_poll e = true) errs ->
  op_done op = true ->
  generateVideo env f cfg key vc 0
  = prepend (opening env f key vc ++ handover (submit_request f cfg b64)
             ++ rate_limited_trace op0 errs ++ [EWait 10000; EPoll op0])
      (after_polling env op uv key vc (3 * length errs + 5)).
Proof.
  intros Hr Hs Hname Hop0 Hp Hall Hop.
  rewrite (generateVideo_submitted env f cfg key vc uv b64 [] op0 more_s); auto; [|cbn; lia].
  destruct Hr as (Hn & _ & _).
  rewrite Hp. cbn [length Nat.mul Nat.add retry_trace app].
  erewrite bind_prepend_run by (now apply poll_loop_rate_limited_run).
  erewrite bind_returned.
  2:{ rewrite poll_loop_refresh by assumption. rewrite poll_loop_done by assumption.
      unfold prepend. cbn [out clk trace]. reflexivity. }
  rewrite !prepend_prepend.
  replace (2 + (3 * length errs + 3)) with (3 * length errs + 5) by lia.
  f_equal. rewrite app_nil_r, <- !app_assoc. reflexivity.
Qed.

(** X5.  A successful refresh gives the not-found counter a fresh start:
    two runs of not-found failures, each shorter than 120, with a refresh
    between them, do not time out, however long they are together; every
    failure costs one more status call on the snapshot at hand. *)
Theorem refresh_restarts_not_found_count
    f cfg key vc uv b64 op0 more_s errs1 op1 errs2 op2 more_p :
  reaches_submission env key vc uv b64 ->
  submit_replies env = inr op0 :: more_s ->
  op_name op0 <> "" -> op_done op0 = false ->
  poll_replies env = map inl errs1 ++ inr op1 :: map inl errs2 ++ inr op2 :: more_p ->
  Forall (fun e => isNotFound e = true) errs1 -> length errs1 < 120 ->
  Forall (fun e => isNotFound e = true) errs2 -> length errs2 < 120 ->
  op_done op1 = false -> op_done op2 = true ->
  generateVideo env f cfg key vc 0
  = prepend (opening env f key vc ++ handover (submit_request f cfg b64)
             ++ polling_trace op0 (S (length errs1))
             ++ polling_trace op1 (S (length errs2)))
      (after_polling env op2 uv key vc (2 * (length errs1 + length errs2) + 7)).
Proof.
  intros Hr Hs Hname Hop0 Hp Hall1 Hlen1 Hall2 Hlen2 Hop1 Hop2.
  rewrite (generateVideo_submitted env f cfg key vc uv b64 [] op0 more_s); auto; [|cbn; lia].
  destruct Hr as (Hn & _ & _).
  rewrite Hp. cbn [length Nat.mul Nat.add retry_trace app].
  erewrite bind_prepend_run
    by (apply poll_loop_not_found_trace; auto; unfold MAX_POLLING_RETRIES; lia).
  erewrite bind_prepend_run by (now apply poll_loop_refresh).
  erewrite bind_prepend_run
    by (apply poll_loop_not_found_trace; auto; unfold MAX_POLLING_RETRIES; lia).
  erewrite bind_returned.
  2:{ rewrite poll_loop_refresh by assumption. rewrite poll_loop_done by assumption.
      unfold prepend. cbn [out clk trace]. reflexivity. }
  rewrite !prepend_prepend.
  replace (2 + (2 * length errs2 + (2 + (2 * length errs1 + 3))))
    with (2 * (length errs1 + length errs2) + 7) by lia.
  f_equal. rewrite app_nil_r, <- !app_assoc. do 2 f_equal.
  rewrite <- !polling_trace_snoc, <- !app_assoc. reflexivity.
Qed.

End PollMore.

Section ReportsMore.
Context {url_api : UrlApi}.
Variable env : Env.

Lemma shown_seconds_round (n : nat) : Js.round_div (backoff_seq n) 1000 = shown_seconds n.
Proof.
  do 5 (destruct n as [|n]; [reflexivity|]).
  unfold backoff_seq, shown_seconds. cbn [nth]. now destruct n.
Qed.

Lemma is_num_eq (o : option Z) (n : Z) : is_num o n = true -> o = Some n.
Proof.
  destruct o as [z|]; cbn; [|discriminate]. intros H. apply Z.eqb_eq in H. now subst.
Qed.

Lemma retry_message_report (e : JsError) (n : nat) :
  retryable e = true ->
  retry_message e (backoff_seq n) (Z.of_nat n + 1) = retry_report e n.
Proof.
  intros He. unfold retry_message, retry_report. rewrite shown_seconds_round.
  unfold retryable, isTransient in He.
  destruct (isRateLimit_start e); [reflexivity|]. cbn [orb] in He.
  destruct (is_num (e_status e) 503) eqn:E503.
  - apply is_num_eq in E503. rewrite E503. reflexivity.
  - cbn [orb] in He. apply is_num_eq in He. rewrite He. reflexivity.
Qed.

Lemma nth_error_retryable (errs : list JsError) n e :
  Forall (fun e => retryable e = true) errs -> nth_error errs n = Some e ->
  retryable e = true.
Proof.
  intros Hall Hn. apply nth_error_In in Hn.
  rewrite Forall_forall in Hall. now apply Hall.
Qed.

(** X6.  What the user reads while submissions are retried: the report of
    retry [n + 1] names the reason (rate limit, or the server's status 500
    or 503), the wait in whole seconds (20, 30, 45, 68, 101, then 120: the
    backoff rounded to the nearest second, halves up) and the count
    [n + 1] of 50.  It is the report number [n + 2] of the call, after
    the two of the opening. *)
Theorem retry_reports f cfg key vc uv b64 errs rest n e :
  reaches_submission env key vc uv b64 ->
  submit_replies env = map inl errs ++ rest ->
  Forall (fun e => retryable e = true) errs -> length errs <= 50 ->
  nth_error errs n = Some e ->
  nth_error (progress_reports (trace (generateVideo env f cfg key vc 0))) (2 + n)
  = Some (retry_report e n).
Proof.
  intros Hr Hs Hall Hlen Hn.
  rewrite (generateVideo_retries env f cfg key vc uv b64 errs rest Hr Hs Hall Hlen).
  unfold prepend. cbn [trace].
  destruct (opening_quiet env f key vc) as (_ & _ & _ & Hp).
  rewrite <- app_assoc, !progress_reports_app, Hp.
  cbn [app nth_error Nat.add].
  rewrite nth_error_app1.
  2:{ rewrite retry_trace_progress_length. apply nth_error_Some. congruence. }
  rewrite (retry_trace_progress _ errs 0 20000 n e Hn), iter_backoff_seq.
  rewrite Z.add_0_l. f_equal. apply retry_message_report.
  eapply nth_error_retryable; eassumption.
Qed.

End ReportsMore.

Section RequestsMore.
Context {url_api : UrlApi}.
Variable env : Env.

Lemma trace_all_bind_val {A B} (P : Effect -> Prop) (Q : A -> Prop) (m : M A) (f : A -> M B) :
  (forall c a, out (m c) = Returned a -> Q a) ->
  trace_all P m -> (forall a, Q a -> trace_all P (f a)) -> trace_all P (bind m f).
Proof.
  intros HQ Hm Hf c. unfold bind. specialize (Hm c). specialize (HQ c).
  destruct (m c) as [[a|e|] c' tr]; cbn in *; auto.
  apply Forall_app. split; [assumption | apply Hf, HQ; reflexivity].
Qed.

Lemma fileToBase64_value f c b64 :
  out (fileToBase64 env f c) = Returned b64 -> encode_reply env = inr b64.
Proof.
  unfold fileToBase64, bind, emit, tick, prepend. cbn.
  destruct (encode_reply env) as [e|s]; cbn; congruence.
Qed.

Lemma generateVideo_requests f cfg key vc :
  trace_all (fun ev => match ev with
                       | ESubmit r =>
                           exists b64, encode_reply env = inr b64
                                       /\ r = submit_request f cfg b64
                       | _ => True
                       end)
    (generateVideo env f cfg key vc).
Proof.
  unfold generateVideo.
  apply trace_all_bind; [apply check_abort_trace | intros _].
  apply trace_all_bind; [now apply init_trace_all | intros uv].
  apply trace_all_bind; [now apply onProgress_trace | intros _].
  apply (trace_all_bind_val _ (fun b64 => encode_reply env = inr b64));
    [apply fileToBase64_value | now apply fileToBase64_trace | intros b64 Hb].
  apply trace_all_bind; [now apply onProgress_trace | intros _].
  apply trace_all_bind.
  - apply submit_loop_trace; [now exists b64 | easy | easy].
  - intros op. apply after_submission_trace. intros [] H; try exact I; discriminate.
Qed.

Lemma submission_mime_type f cfg key vc c r :
  In (ESubmit r) (trace (generateVideo env f cfg key vc c)) ->
  sr_mimeType r = file_type f.
Proof.
  intros Hin.
  pose proof (generateVideo_requests f cfg key vc c) as H.
  rewrite Forall_forall in H. now destruct (H _ Hin) as (b64 & Hb & ->).
Qed.

(** X7.  Every submission of a call, first or retried, cancelled or not, is
    the same request: the model veo-3.1-fast-generate-preview, one video of
    4 seconds, the resolution and the aspect ratio of the configuration,
    the type of the file, and the bytes the one encoding of the image
    gave. *)
Theorem submissions_repeat_one_request f cfg key vc c r :
  In (ESubmit r) (trace (generateVideo env f cfg key vc c)) ->
  encode_reply env = inr (sr_imageBytes r)
  /\ r = submit_request f cfg (sr_imageBytes r)
  /\ sr_model r = "veo-3.1-fast-generate-preview"
  /\ sr_numberOfVideos r = 1%Z /\ sr_durationSeconds r = 4%Z
  /\ sr_resolution r = resolution cfg /\ sr_aspectRatio r = aspectRatio cfg
  /\ sr_mimeType r = file_type f.
Proof.
  intros Hin.
  pose proof (generateVideo_requests f cfg key vc c) as H.
  rewrite Forall_forall in H. destruct (H _ Hin) as (b64 & Hb & ->).
  cbn. repeat split; assumption.
Qed.

End RequestsMore.

Section StatusMore.
Context {url_api : UrlApi}.
Variable env : Env.

Lemma poll_loop_refreshes mids : forall op final replies rc c,
  never_stopped env ->
  Forall (fun o => op_done o = false) (op :: mids) ->
  poll_loop env (map inr mids ++ inr final :: replies) op rc c
  = prepend (refresh_trace op (mids ++ [final]))
      (poll_loop env replies final 0 (2 * length mids + 2 + c)).
Proof.
  induction mids as [|m mids IH]; intros op final replies rc c Hn Hall;
    inversion Hall as [|? ? Hop Hall']; subst; cbn [map app length refresh_trace].
  - now rewrite poll_loop_refresh.
  - rewrite poll_loop_refresh by assumption.
    rewrite IH by assumption. rewrite prepend_prepend. cbn [app].
    replace (2 * length mids + 2 + (2 + c)) with (2 * S (length mids) + 2 + c) by lia.
    reflexivity.
Qed.

Lemma refresh_trace_quiet op results :
  count_polls (refresh_trace op results) = length results
  /\ count_submits (refresh_trace op results) = 0
  /\ waits (refresh_trace op results) = repeat 10000%Z (length results).
Proof.
  revert op. induction results as [|r results IH]; intros op; [now repeat split|].
  destruct (IH r) as (H1 & H2 & H3).
  unfold count_polls, count_submits, waits in *.
  cbn [refresh_trace filter is_poll is_submit length flat_map app repeat].
  rewrite H1, H3. now repeat split.
Qed.

Lemma download_ok link uv key vc u st b c :
  never_stopped env -> URL_new link = inr u ->
  fetch_reply env = FetchResponse true st (inr b) ->
  download env link uv key vc c
  = mkRes (Returned b) (S (S c)) [EFetch (download_request env uv key vc u); EBlob].
Proof.
  intros Hn Hu Hf. unfold download, try_catch, new_URL, download_request. rewrite Hu.
  erewrite bind_returned by reflexivity. rewrite prepend_nil.
  unfold bind.
  destruct uv; rewrite fetch_quiet by assumption; rewrite Hf; cbn [negb];
    rewrite read_blob_quiet by assumption; reflexivity.
Qed.

(** X8.  The call that goes well: submissions retried after retryable
    failures, then accepted; the operation refreshed until it is done; a
    locator in the result that parses; a response that is ok.  The driver
    returns the body of that response.  It has submitted once more than it
    was refused, asked for the status once per refresh, made one download
    request with the credential of its mode, and waited the backoffs, then
    10000 ms once for propagation and once before each status call. *)
Theorem successful_call_returns_the_video
    f cfg key vc uv b64 errs op0 more_s mids final more_p link u st b :
  reaches_submission env key vc uv b64 ->
  submit_replies env = map inl errs ++ inr op0 :: more_s ->
  Forall (fun e => retryable e = true) errs -> length errs <= 50 ->
  op_name op0 <> "" ->
  poll_replies env = map inr mids ++ inr final :: more_p ->
  Forall (fun o => op_done o = false) (op0 :: mids) -> op_done final = true ->
  extract_result final = inr link -> URL_new link = inr u ->
  fetch_reply env = FetchResponse true st (inr b) ->
  generateVideo env f cfg key vc 0
  = mkRes (Returned b) (2 * length errs + 2 * length mids + 7)
      (opening env f key vc
       ++ retry_trace (submit_request f cfg b64) errs 0 20000
       ++ handover (submit_request f cfg b64)
       ++ refresh_trace op0 (mids ++ [final])
       ++ [EProgress "Downloading result...";
           EFetch (download_request env uv key vc u); EBlob])
  /\ count_submits (trace (generateVideo env f cfg key vc 0)) = length errs + 1
  /\ count_polls (trace (generateVideo env f cfg key vc 0)) = length mids + 1
  /\ waits (trace (generateVideo env f cfg key vc 0))
     = map backoff_seq (seq 0 (length errs)) ++ repeat 10000%Z (length mids + 2).
Proof.
  intros Hr Hs Hall Hlen Hname Hp Hmids Hfinal Hx Hu Hf.
  assert (E : generateVideo env f cfg key vc 0
    = mkRes (Returned b) (2 * length errs + 2 * length mids + 7)
      (opening env f key vc
       ++ retry_trace (submit_request f cfg b64) errs 0 20000
       ++ handover (submit_request f cfg b64)
       ++ refresh_trace op0 (mids ++ [final])
       ++ [EProgress "Downloading result...";
           EFetch (download_request env uv key vc u); EBlob])).
  { rewrite (generateVideo_submitted env f cfg key vc uv b64 errs op0 more_s); auto.
    destruct Hr as (Hn & _ & _).
    rewrite Hp.
    erewrite bind_prepend_run by (now apply poll_loop_refreshes).
    erewrite bind_returned by (now apply poll_loop_done).
    unfold after_polling. rewrite Hx.
    erewrite bind_returned by reflexivity.
    rewrite (download_ok link uv key vc u st b) by assumption.
    unfold prepend. cbn [out clk trace]. f_equal; [lia|].
    rewrite <- !app_assoc. reflexivity. }
  split; [exact E|]. rewrite E. cbn [trace].
  destruct (opening_quiet env f key vc) as (H1 & H2 & H3 & _).
  destruct (refresh_trace_quiet op0 (mids ++ [final])) as (R1 & R2 & R3).
  rewrite length_app in R1, R3. cbn [length] in R1, R3.
  repeat split.
  - rewrite !count_submits_app, H1, retry_trace_submits, R2. cbn. lia.
  - rewrite !count_polls_app, H2, retry_trace_polls, R1. cbn. lia.
  - rewrite !waits_app, H3, retry_trace_waits, iter_backoffs_seq, R3.
    cbn [app waits flat_map handover].
    replace (length mids + 2) with (S (length mids + 1)) by lia.
    cbn [repeat]. now rewrite app_nil_r.
Qed.

End StatusMore.

(** ** Cancellation that arrives while a call to the service is in flight *)

Section StopMore.
Context {url_api : UrlApi}.
Variable env : Env.

Arguments aborted : simpl never.

Lemma aborted_before k c : stopped_during env k -> c <= k -> aborted env c = false.
Proof.
  intros [Hp Hs] Hc. unfold aborted. rewrite Hp, Hs. cbn [orb].
  apply Nat.ltb_ge. exact Hc.
Qed.

Lemma aborted_after k c : stop_at env = Some k -> k < c -> aborted env c = true.
Proof.
  intros Hs Hc. unfold aborted. rewrite Hs.
  apply Bool.orb_true_iff. right. now apply Nat.ltb_lt.
Qed.

Ltac run_with A0 A1 A2 :=
  unfold wait;
  unfold bind, check_abort, onProgress, emit, tick, now, throw, ret,
    awaiting, prepend;
  repeat (cbn; rewrite ?A0, ?A1, ?A2).

Lemma check_abort_before k c :
  stopped_during env k -> c <= k -> check_abort env c = mkRes (Returned tt) c [].
Proof.
  intros Hk Hc. pose proof (aborted_before k c Hk Hc) as A.
  unfold check_abort. run_with A A A. reflexivity.
Qed.

Lemma wait_before k ms c :
  stopped_during env k -> S c <= k ->
  wait env ms c = mkRes (Returned tt) (S c) [EWait ms].
Proof.
  intros Hk Hc.
  pose proof (aborted_before k c Hk ltac:(lia)) as A0.
  pose proof (aborted_before k (S c) Hk Hc) as A1.
  run_with A0 A1 A1. reflexivity.
Qed.

Lemma submit_loop_retry_before k req e replies a b c :
  stopped_during env k -> S (S c) <= k ->
  retryable e = true -> (a + 1 <= MAX_START_RETRIES)%Z ->
  submit_loop env req (inl e :: replies) a b c
  = prepend [ESubmit req; EProgress (retry_message e b (a + 1)); EWait b]
      (submit_loop env req replies (a + 1) (next_backoff b) (S (S c))).
Proof.
  intros Hk Hc He Ha. unfold retryable in He.
  pose proof (aborted_before k c Hk ltac:(lia)) as A0.
  pose proof (aborted_before k (S c) Hk ltac:(lia)) as A1.
  pose proof (aborted_before k (S (S c)) Hk Hc) as A2.
  cbn [submit_loop].
  run_with A0 A1 A2. rewrite He.
  destruct (a + 1 >? MAX_START_RETRIES)%Z eqn:E; [lia|].
  run_with A0 A1 A2. reflexivity.
Qed.

Lemma submit_loop_retry_trace_before k req errs : forall replies a b c,
  stopped_during env k -> 2 * length errs + c <= k ->
  Forall (fun e => retryable e = true) errs ->
  (a + Z.of_nat (length errs) <= MAX_START_RETRIES)%Z ->
  submit_loop env req (map inl errs ++ replies) a b c
  = prepend (retry_trace req errs a b)
      (submit_loop env req replies (a + Z.of_nat (length errs))
         (Nat.iter (length errs) next_backoff b) (2 * length errs + c)).
Proof.
  induction errs as [|e errs IH]; intros replies a b c Hk Hc Hall Hle.
  - cbn [map app length retry_trace Nat.iter nat_rect Nat.mul Nat.add Z.of_nat].
    now rewrite Z.add_0_r, prepend_nil.
  - inversion Hall as [|? ? He Hall']; subst. cbn [map app length] in *.
    rewrite (submit_loop_retry_before k) by (auto; lia).
    rewrite IH by (auto; lia). rewrite prepend_prepend. cbn [retry_trace app].
    rewrite Nat.iter_succ_r.
    replace (a + 1 + Z.of_nat (length errs))%Z
      with (a + Z.of_nat (S (length errs)))%Z by lia.
    replace (2 * length errs + S (S c)) with (2 * S (length errs) + c) by lia.
    reflexivity.
Qed.

(** The submission call in flight when Stop is pressed fails. *)
Lemma submit_loop_stopped req e replies a b c :
  stopped_during env c ->
  submit_loop env req (inl e :: replies) a b c
  = mkRes (Thrown (AbortException "Aborted")) (S c) [ESubmit req].
Proof.
  intros Hk.
  pose proof (aborted_before c c Hk ltac:(lia)) as A0.
  pose proof (aborted_after c (S c) (proj2 Hk) ltac:(lia)) as A1.
  cbn [submit_loop].
  run_with A0 A1 A1. reflexivity.
Qed.

Lemma submit_loop_ok_before k req op replies a b c :
  stopped_during env k -> c <= k ->
  submit_loop env req (inr op :: replies) a b c
  = mkRes (Returned op) (S c) [ESubmit req].
Proof.
  intros Hk Hc. pose proof (aborted_before k c Hk Hc) as A0.
  cbn [submit_loop].
  run_with A0 A0 A0. reflexivity.
Qed.

(** The call up to the reply that follows [errs], Stop not pressed before
    await [k]. *)
Lemma generateVideo_retries_before k f cfg key vc uv b64 errs rest :
  stopped_during env k -> 2 * length errs + 1 <= k ->
  out (init env key vc 0) = Returned uv -> encode_reply env = inr b64 ->
  submit_replies env = map inl errs ++ rest ->
  Forall (fun e => retryable e = true) errs -> length errs <= 50 ->
  generateVideo env f cfg key vc 0
  = prepend (opening env f key vc ++ retry_trace (submit_request f cfg b64) errs 0 20000)
      (bind (submit_loop env (submit_request f cfg b64) rest (Z.of_nat (length errs))
               (backoff_seq (length errs)))
            (fun operation => after_submission env operation uv key vc)
            (2 * length errs + 1)).
Proof.
  intros Hk Hc Hi He Hs Hall Hlen.
  unfold generateVideo.
  erewrite bind_returned by (apply (check_abort_before k); [exact Hk | lia]).
  erewrite bind_returned by (apply init_returned; exact Hi).
  erewrite bind_returned by reflexivity.
  erewrite bind_returned by (apply fileToBase64_ok; exact He).
  erewrite bind_returned by reflexivity.
  rewrite Hs.
  erewrite bind_prepend_run.
  2:{ apply (submit_loop_retry_trace_before k); auto;
        try (unfold MAX_START_RETRIES); lia. }
  rewrite !prepend_prepend, iter_backoff_seq. unfold opening.
  cbn [app Z.add]. f_equal. rewrite <- !app_assoc. reflexivity.
Qed.

(** X9.  Stop pressed while a submission call is in flight: whatever the
    call then fails with, a rate limit, a server error or a failure the
    driver would not retry, even the one that would exhaust the retries,
    the driver throws the cancellation ("Aborted"), reports no retry and
    arms no timer. *)
Theorem stop_during_submission f cfg key vc uv b64 errs e more :
  stopped_during env (2 * length errs + 1) ->
  out (init env key vc 0) = Returned uv -> encode_reply env = inr b64 ->
  submit_replies env = map inl errs ++ inl e :: more ->
  Forall (fun e => retryable e = true) errs -> length errs <= 50 ->
  generateVideo env f cfg key vc 0
  = mkRes (Thrown (AbortException "Aborted")) (2 * length errs + 2)
      (opening env f key vc ++ retry_trace (submit_request f cfg b64) errs 0 20000
       ++ [ESubmit (submit_request f cfg b64)]).
Proof.
  intros Hk Hi He Hs Hall Hlen.
  rewrite (generateVideo_retries_before (2 * length errs + 1) f cfg key vc uv b64 errs
             (inl e :: more)); auto.
  erewrite bind_thrown by (apply submit_loop_stopped; exact Hk).
  unfold prepend. cbn [out clk trace]. f_equal; [lia|].
  now rewrite <- app_assoc.
Qed.

Lemma poll_loop_refresh_before k replies op rc c res :
  stopped_during env k -> S c <= k -> op_done op = false ->
  poll_loop env (inr res :: replies) op rc c
  = prepend [EWait 10000; EPoll op] (poll_loop env replies res 0 (2 + c)).
Proof.
  intros Hk Hc Hop.
  pose proof (aborted_before k c Hk ltac:(lia)) as A0.
  pose proof (aborted_before k (S c) Hk Hc) as A1.
  cbn [poll_loop]. rewrite Hop.
  run_with A0 A1 A1. reflexivity.
Qed.

Lemma last_default {A} (l : list A) : forall x d d', last (x :: l) d = last (x :: l) d'.
Proof.
  induction l as [|y l IH]; intros x d d'; [reflexivity|].
  change (last (y :: l) d = last (y :: l) d'). apply IH.
Qed.

Lemma last_cons {A} (l : list A) (x d : A) : last (x :: l) d = last l x.
Proof.
  destruct l as [|y l]; [reflexivity|].
  change (last (y :: l) d = last (y :: l) x). apply last_default.
Qed.

Lemma poll_loop_refreshes_before k mids : forall op replies rc c,
  stopped_during env k -> 2 * length mids + c <= k ->
  Forall (fun o => op_done o = false) mids -> op_done op = false ->
  poll_loop env (map inr mids ++ replies) op rc c
  = prepend (refresh_trace op mids)
      (poll_loop env replies (last mids op) (match mids with [] => rc | _ => 0%Z end)
         (2 * length mids + c)).
Proof.
  induction mids as [|m mids IH]; intros op replies rc c Hk Hc Hall Hop;
    cbn [map app length refresh_trace].
  - now rewrite prepend_nil.
  - inversion Hall as [|? ? Hm Hall']; subst. cbn [length] in Hc.
    rewrite (poll_loop_refresh_before k) by (auto; lia).
    rewrite IH by (auto; lia). rewrite prepend_prepend. cbn [app].
    replace (2 * length mids + (2 + c)) with (2 * S (length mids) + c) by lia.
    rewrite last_cons.
    replace (match mids with [] => 0%Z | _ => 0%Z end) with 0%Z by now destruct mids.
    reflexivity.
Qed.

(** The status call in flight when Stop is pressed fails. *)
Lemma poll_loop_stopped replies op rc c e :
  stopped_during env (S c) -> op_done op = false ->
  poll_loop env (inl e :: replies) op rc c
  = mkRes (Thrown (AbortException "Aborted")) (2 + c) [EWait 10000; EPoll op].
Proof.
  intros Hk Hop.
  pose proof (aborted_before (S c) c Hk ltac:(lia)) as A0.
  pose proof (aborted_before (S c) (S c) Hk ltac:(lia)) as A1.
  pose proof (aborted_after (S c) (S (S c)) (proj2 Hk) ltac:(lia)) as A2.
  cbn [poll_loop]. rewrite Hop.
  run_with A0 A1 A2. reflexivity.
Qed.

(** X10.  Stop pressed while a status call is in flight: whatever the call
    then fails with, not found, rate-limited or anything else, the driver
    throws the cancellation ("Aborted"); the not-found count and the
    failure itself play no part. *)
Theorem stop_during_status_call f cfg key vc uv b64 op0 more_s mids e more_p :
  stopped_during env (2 * length mids + 4) ->
  out (init env key vc 0) = Returned uv -> encode_reply env = inr b64 ->
  submit_replies env = inr op0 :: more_s ->
  op_name op0 <> "" ->
  poll_replies env = map inr mids ++ inl e :: more_p ->
  Forall (fun o => op_done o = false) (op0 :: mids) ->
  generateVideo env f cfg key vc 0
  = mkRes (Thrown (AbortException "Aborted")) (2 * length mids + 5)
      (opening env f key vc ++ handover (submit_request f cfg b64)
       ++ refresh_trace op0 mids ++ [EWait 10000; EPoll (last mids op0)]).
Proof.
  intros Hk Hi He Hs Hname Hp Hall.
  inversion Hall as [|? ? Hop0 Hmids]; subst.
  rewrite (generateVideo_retries_before (2 * length mids + 4) f cfg key vc uv b64 []
             (inr op0 :: more_s)); auto; try (cbn; lia).
  cbn [length Nat.mul Nat.add retry_trace Z.of_nat].
  erewrite bind_returned
    by (apply (submit_loop_ok_before (2 * length mids + 4)); [exact Hk | lia]).
  unfold after_submission.
  replace (Js.truthy (op_name op0)) with true
    by (destruct (op_name op0); [contradiction | reflexivity]).
  cbn [negb].
  erewrite bind_returned by reflexivity.
  erewrite bind_returned
    by (apply (wait_before (2 * length mids + 4)); [exact Hk | lia]).
  rewrite Hp.
  erewrite bind_prepend_run
    by (apply (poll_loop_refreshes_before (2 * length mids + 4)); auto; lia).
  erewrite bind_thrown.
  2:{ apply poll_loop_stopped.
      - replace (S (2 * length mids + 3)) with (2 * length mids + 4) by lia. exact Hk.
      - clear - Hop0 Hmids. revert op0 Hop0.
        induction Hmids as [|m l Hm _ IH]; intros op0 Hop0; [exact Hop0|].
        rewrite last_cons. now apply IH. }
  unfold prepend, handover. cbn [out clk trace]. f_equal; [lia|].
  rewrite app_nil_r, <- ?app_assoc. reflexivity.
Qed.

End StopMore.

(** ** The job records *)

Module RecordFacts.
Import App Queue QueueFacts QueueInvariant QueueSteps JobRecord.

Lemma wf_map (g : VideoJob -> VideoJob) (l : list VideoJob) :
  (forall j, In j l -> well_formed j -> well_formed (g j)) ->
  Forall well_formed l -> Forall well_formed (map g l).
Proof.
  intros Hg Hl. rewrite Forall_forall in *. intros j' Hj'.
  apply in_map_iff in Hj' as (j & <- & Hj). apply Hg; auto.
Qed.

Lemma wf_new (files : list NewFile) : Forall well_formed (map new_job files).
Proof.
  rewrite Forall_forall. intros j Hj. apply in_map_iff in Hj as (f & <- & _).
  now repeat split.
Qed.

Lemma or_else_nonempty (a b : string) : b <> "" -> Js.or_else a b <> "".
Proof. intros Hb. unfold Js.or_else. destruct a; [exact Hb | discriminate]. Qed.

Lemma wf_start (s : State) (r : VideoJob) :
  Inv s -> In r (pendingJobs s) ->
  Forall well_formed (jobs s) -> Forall well_formed (markProcessing (id r) (jobs s)).
Proof.
  intros I Hr. apply wf_map. intros j Hj Hw.
  destruct (String.eqb_spec (id j) (id r)) as [E|E]; [|exact Hw].
  pose proof (inv_waiting s I r j Hr Hj E) as Hp.
  unfold well_formed in *. rewrite Hp in Hw. cbn.
  destruct Hw as (_ & Hv & He). repeat split; auto. discriminate.
Qed.

Lemma wf_loopHead (s : State) :
  Inv s -> Forall well_formed (jobs s) -> Forall well_formed (jobs (loopHead s)).
Proof.
  intros I Hw. unfold loopHead.
  destruct (pendingJobs s) as [|r rest] eqn:Hq; [exact Hw|].
  assert (Hr : In r (pendingJobs s)) by (rewrite Hq; now left).
  destruct (abortControllerRef s) as [[|]|]; [exact Hw | |]; now apply wf_start.
Qed.

Lemma wf_progress (s : State) (cur : VideoJob) (p : string) :
  Inv s -> current s = Some cur ->
  Forall well_formed (jobs s) -> Forall well_formed (setProgress (id cur) p (jobs s)).
Proof.
  intros I Hc. apply wf_map. intros j Hj Hw.
  destruct (String.eqb_spec (id j) (id cur)) as [E|E]; [|exact Hw].
  pose proof (current_is_processing s cur j I Hc Hj E) as Hp.
  unfold well_formed in *. cbn. rewrite Hp in *.
  destruct Hw as (_ & Hv & He). repeat split; auto. discriminate.
Qed.

Lemma wf_resolved (s : State) (cur : VideoJob) (b : Blob) :
  Inv s -> current s = Some cur ->
  Forall well_formed (jobs s) -> Forall well_formed (jobs (onResolved s cur b)).
Proof.
  intros I Hc. apply wf_map. intros j Hj Hw.
  destruct (String.eqb_spec (id j) (id cur)) as [E|E]; [|exact Hw].
  pose proof (current_is_processing s cur j I Hc Hj E) as Hp.
  unfold well_formed in *. cbn. rewrite Hp in *.
  destruct Hw as (_ & Hv & He). repeat split; auto.
  exists (createObjectURL b). split; [reflexivity | discriminate].
Qed.

Lemma wf_failed (s : State) (cur : VideoJob) (msg : string) :
  Inv s -> current s = Some cur ->
  Forall well_formed (jobs s) -> Forall well_formed (markFailed (id cur) msg (jobs s)).
Proof.
  intros I Hc. apply wf_map. intros j Hj Hw.
  destruct (String.eqb_spec (id j) (id cur)) as [E|E]; [|exact Hw].
  pose proof (current_is_processing s cur j I Hc Hj E) as Hp.
  unfold well_formed in *. cbn. rewrite Hp in *.
  destruct Hw as (_ & Hv & He). split; [exact Hv|].
  eexists. split; [reflexivity|]. now apply or_else_nonempty.
Qed.

Lemma wf_cancelled (s : State) (cur : VideoJob) :
  Inv s -> current s = Some cur ->
  Forall well_formed (jobs s) -> Forall well_formed (markCancelled (id cur) (jobs s)).
Proof.
  intros I Hc. apply wf_map. intros j Hj Hw.
  destruct (String.eqb_spec (id j) (id cur)) as [E|E].
  - pose proof (current_is_processing s cur j I Hc Hj E) as Hp.
    unfold well_formed in *. cbn. rewrite Hp in *.
    destruct Hw as (_ & Hv & He). split; [exact Hv|].
    eexists. split; [reflexivity | discriminate].
  - unfold is_pending. destruct (status j) eqn:Es; try exact Hw.
    unfold well_formed in *. cbn. rewrite Es in Hw.
    destruct Hw as (_ & Hv & He). split; [exact Hv|].
    eexists. split; [reflexivity | discriminate].
Qed.

Lemma wf_rejected (s : State) (cur : VideoJob) (e : JsError) :
  Inv s -> current s = Some cur ->
  Forall well_formed (jobs s) -> Forall well_formed (jobs (onRejected s cur e)).
Proof.
  intros I Hc Hw. unfold onRejected.
  destruct (is_abort e); [exact (wf_cancelled s cur I Hc Hw)|].
  destruct (Js.includes (e_message e) "API Key" || Js.includes (e_message e) "Access Token");
    exact (wf_failed s cur (e_message e) I Hc Hw).
Qed.

Lemma wf_step (s s' : State) (ev : Event) :
  Inv s -> Forall well_formed (jobs s) -> step s ev = Some s' ->
  Forall well_formed (jobs s').
Proof.
  intros I Hw Hs. destruct ev; cbn [step] in Hs.
  - destruct (fresh_ids s files); [|discriminate]. injection Hs as <-.
    cbn [handleAddFiles jobs]. apply Forall_app. split; [exact Hw | apply wf_new].
  - injection Hs as <-. cbn. rewrite Forall_forall in *. intros j Hj.
    apply filter_In in Hj as [Hj _]. now apply Hw.
  - injection Hs as <-. unfold handleStop. now destruct (abortControllerRef s).
  - injection Hs as <-. constructor.
  - injection Hs as <-. unfold autoStart, processQueue.
    destruct (existsb is_pending (jobs s) && negb (isProcessing s));
      [destruct (isProcessing s)|]; exact Hw.
  - destruct (isProcessing s); [|discriminate].
    destruct (current s); [discriminate|].
    injection Hs as <-. now apply wf_loopHead.
  - destruct (current s) as [cur|] eqn:Hc; [|discriminate].
    injection Hs as <-. now apply wf_progress.
  - destruct (current s) as [cur|] eqn:Hc; [|discriminate].
    injection Hs as <-. now apply wf_resolved.
  - destruct (current s) as [cur|] eqn:Hc; [|discriminate].
    injection Hs as <-. now apply wf_rejected.
Qed.

Lemma wf_run (evs : list Event) : forall s s',
  Inv s -> Forall well_formed (jobs s) -> run s evs = Some s' ->
  Forall well_formed (jobs s').
Proof.
  induction evs as [|ev evs IH]; intros s s' I Hw Hr; cbn [run] in Hr.
  - now injection Hr as <-.
  - destruct (step s ev) as [s1|] eqn:Hs; [|discriminate].
    apply (IH s1); [now apply (inv_step s s1 ev) | now apply (wf_step s s1 ev) | assumption].
Qed.

(** X11.  What a job record holds goes with its status, in every state the
    queue processor reaches: a pending job has no progress text, no video
    and no error; a processing job has a progress text and neither video
    nor error; a completed job has the progress text "Done", a video URL
    that is not empty, and no error; a failed job has an error message
    that is not empty, and no video. *)
Theorem job_records_are_consistent (s0 s : State) (evs : list Event) (j : VideoJob) :
  initial s0 -> run s0 evs = Some s -> In j (jobs s) -> well_formed j.
Proof.
  intros H0 Hr Hj.
  assert (Hw : Forall well_formed (jobs s)).
  { apply (wf_run evs s0); [now apply inv_initial | | assumption].
    destruct H0 as (E & _). rewrite E. constructor. }
  rewrite Forall_forall in Hw. now apply Hw.
Qed.

(** A job that is settled and a rewriting of the queue that leaves every
    settled job alone. *)
Lemma settled_mapped (s : State) (g : VideoJob -> VideoJob) (j j' : VideoJob) :
  NoDup (ids (jobs s)) -> (forall k, id (g k) = id k) ->
  In j (jobs s) -> g j = j ->
  In j' (map g (jobs s)) -> id j' = id j -> j' = j.
Proof.
  intros Hnd Hid Hj Hg Hj' E. rewrite <- Hg. now apply (mapped_job s g).
Qed.

Lemma settled_not_current (s : State) (cur j : VideoJob) :
  Inv s -> current s = Some cur -> In j (jobs s) -> settled j ->
  (id j =? id cur)%string = false.
Proof.
  intros I Hc Hj Hs. destruct (String.eqb_spec (id j) (id cur)) as [E|E]; [|reflexivity].
  pose proof (current_is_processing s cur j I Hc Hj E) as Hp.
  destruct Hs as [Hs|Hs]; congruence.
Qed.

(** X12.  A settled job is final: once a job is completed or failed, no
    step of the queue processor changes anything of its record, not the
    status, not the video URL, the error or the progress text; all that
    can happen to it is its removal from the queue. *)
Theorem settled_jobs_are_frozen (s0 s s' : State) (evs : list Event) (ev : Event)
    (j j' : VideoJob) :
  initial s0 -> run s0 evs = Some s -> step s ev = Some s' ->
  In j (jobs s) -> settled j ->
  In j' (jobs s') -> id j' = id j -> j' = j.
Proof.
  intros H0 Hr Hs Hj Hset Hj' E.
  assert (I : Inv s) by (apply (inv_run evs s0); [now apply inv_initial | assumption]).
  pose proof (inv_nodup s I) as Hnd.
  assert (Hsame : In j' (jobs s) -> j' = j).
  { intros Hin. apply (same_id_same_job (jobs s)); auto. }
  destruct ev; cbn [step] in Hs.
  - destruct (fresh_ids s files) eqn:Hf; [|discriminate]. injection Hs as <-.
    cbn [handleAddFiles jobs] in Hj'. apply in_app_or in Hj' as [Hj' | Hj'].
    + apply (same_id_same_job (jobs s)); auto.
    + exfalso. apply (fresh_not_issued s files (id j') Hf).
      * rewrite <- ids_new_jobs. now apply In_ids.
      * rewrite E. apply (inv_issued s I). now apply In_ids.
  - injection Hs as <-. apply Hsame. cbn in Hj'. now apply filter_In in Hj'.
  - injection Hs as <-. apply Hsame. unfold handleStop in Hj'.
    now destruct (abortControllerRef s).
  - injection Hs as <-. destruct Hj'.
  - injection Hs as <-. apply Hsame. unfold autoStart, processQueue in Hj'.
    destruct (existsb is_pending (jobs s) && negb (isProcessing s));
      [destruct (isProcessing s)|]; exact Hj'.
  - destruct (isProcessing s); [|discriminate].
    destruct (current s); [discriminate|].
    injection Hs as <-. unfold loopHead in Hj'.
    destruct (pendingJobs s) as [|r rest] eqn:Hq; [now apply Hsame|].
    assert (Hin : In r (pendingJobs s)) by (rewrite Hq; now left).
    assert (Hne : (id j =? id r)%string = false).
    { destruct (String.eqb_spec (id j) (id r)) as [E'|E']; [|reflexivity].
      pose proof (inv_waiting s I r j Hin Hj E') as Hp.
      destruct Hset as [Hset|Hset]; congruence. }
    destruct (abortControllerRef s) as [[|]|]; [now apply Hsame | |];
      cbn in Hj'; unfold markProcessing in Hj';
      (apply (settled_mapped s
                (fun k => if (id k =? id r)%string
                          then with_status_progress k PROCESSING "Starting..." else k)
                j j' Hnd);
       [intros k; now destruct (id k =? id r)%string | exact Hj
       | cbv beta; now rewrite Hne | exact Hj' | exact E]).
  - destruct (current s) as [cur|] eqn:Hc; [|discriminate].
    injection Hs as <-. cbn in Hj'. unfold setProgress in Hj'.
    pose proof (settled_not_current s cur j I Hc Hj Hset) as Hne.
    apply (settled_mapped s
             (fun k => if (id k =? id cur)%string then with_progress k p else k)
             j j' Hnd);
      [intros k; now destruct (id k =? id cur)%string | exact Hj
      | cbv beta; now rewrite Hne | exact Hj' | exact E].
  - destruct (current s) as [cur|] eqn:Hc; [|discriminate].
    injection Hs as <-. cbn in Hj'. unfold markCompleted in Hj'.
    pose proof (settled_not_current s cur j I Hc Hj Hset) as Hne.
    apply (settled_mapped s
             (fun k => if (id k =? id cur)%string
                       then with_completed k (createObjectURL videoBlob) else k)
             j j' Hnd);
      [intros k; now destruct (id k =? id cur)%string | exact Hj
      | cbv beta; now rewrite Hne | exact Hj' | exact E].
  - destruct (current s) as [cur|] eqn:Hc; [|discriminate].
    injection Hs as <-.
    pose proof (settled_not_current s cur j I Hc Hj Hset) as Hne.
    unfold onRejected in Hj'.
    destruct (is_abort e).
    + cbn in Hj'. unfold markCancelled in Hj'.
      apply (settled_mapped s
               (fun k => if (id k =? id cur)%string then with_failed k "Cancelled"
                         else if is_pending k then with_failed k "Stopped by user"
                         else k)
               j j' Hnd); [| exact Hj | | exact Hj' | exact E].
      * intros k. destruct (id k =? id cur)%string; [reflexivity|].
        now destruct (is_pending k).
      * cbv beta. rewrite Hne. unfold is_pending.
        destruct Hset as [Hset|Hset]; now rewrite Hset.
    + assert (Hj'' : In j' (markFailed (id cur) (e_message e) (jobs s))).
      { destruct (Js.includes (e_message e) "API Key"
                  || Js.includes (e_message e) "Access Token"); exact Hj'. }
      unfold markFailed in Hj''.
      apply (settled_mapped s
               (fun k => if (id k =? id cur)%string
                         then with_failed k (Js.or_else (e_message e) "Failed") else k)
               j j' Hnd);
        [intros k; now destruct (id k =? id cur)%string | exact Hj
        | cbv beta; now rewrite Hne | exact Hj'' | exact E].
Qed.

(** X13.  The fallbacks of the job card are never on screen: in every
    state the queue processor reaches, the card of a completed job plays
    the job's own video (the test of the URL never fails) and the card of a
    failed job shows the job's own error message, never "Generation
    failed". *)
Theorem card_shows_the_job (s0 s : State) (evs : list Event) (j : VideoJob) :
  initial s0 -> run s0 evs = Some s -> In j (jobs s) ->
  (status j = COMPLETED ->
   exists url, videoUrl j = Some url /\ JobCard.media j = JobCard.Player url)
  /\ (status j = FAILED ->
      exists msg, error j = Some msg /\ JobCard.overlay j = JobCard.Failure msg).
Proof.
  intros H0 Hr Hj.
  assert (Hw : Forall well_formed (jobs s)).
  { apply (wf_run evs s0); [now apply inv_initial | | assumption].
    destruct H0 as (E & _). rewrite E. constructor. }
  rewrite Forall_forall in Hw. specialize (Hw j Hj).
  unfold well_formed in Hw. split; intros Hs; rewrite Hs in Hw.
  - destruct Hw as (_ & _ & url & Hu & Hne). exists url. split; [exact Hu|].
    unfold JobCard.media, JobCard.is_completed, JobCard.or_default, Js.or_else.
    rewrite Hs, Hu. destruct url; [contradiction | reflexivity].
  - destruct Hw as (_ & msg & Hm & Hne). exists msg. split; [exact Hm|].
    unfold JobCard.overlay, JobCard.or_default, Js.or_else.
    rewrite Hs, Hm. destruct msg; [contradiction | reflexivity].
Qed.

End RecordFacts.

(** ** Passes *)

Module PassFacts.
Import App Queue QueueFacts QueueInvariant QueueSteps Batch BatchFacts Pass.

Section Calls.
Context {url_api : UrlApi}.

(** Progress reports change the jobs only. *)
Lemma run_reports (tr : list Effect) : forall s job,
  current s = Some job ->
  exists s2, run s (reports tr) = Some s2
    /\ current s2 = Some job /\ isProcessing s2 = isProcessing s
    /\ abortControllerRef s2 = abortControllerRef s
    /\ pendingJobs s2 = pendingJobs s /\ showSettings s2 = showSettings s
    /\ settings s2 = settings s /\ issued s2 = issued s.
Proof.
  induction tr as [|ev tr IH]; intros s job Hc.
  - exists s. now repeat split.
  - destruct ev; try (apply IH; exact Hc).
    unfold reports. cbn [flat_map app run step]. rewrite Hc.
    destruct (IH (set_jobs s (setProgress (id job) s0)) job Hc)
      as (s2 & H1 & H2 & H3 & H4 & H5 & H6 & H7 & H8).
    exists s2. repeat split; assumption.
Qed.

Lemma settle_events_eq (env : Env) (r : Res Blob) :
  settle_events env r
  = reports (trace r) ++ (if stopped env r then [Stop] else [])
    ++ match out r with
       | Returned b => [Resolved b]
       | Thrown e => [Rejected e]
       | Awaiting => []
       end.
Proof. reflexivity. Qed.

Lemma none_pending_autoStart (s : State) : none_pending s -> autoStart s = s.
Proof.
  intros H. unfold autoStart.
  replace (existsb is_pending (jobs s)) with false; [reflexivity|].
  symmetry. apply Bool.not_true_is_false. intros Hex.
  apply existsb_exists in Hex as (j & Hj & Hp).
  unfold none_pending in H. rewrite Forall_forall in H. specialize (H j Hj).
  unfold is_pending in Hp. destruct (status j); congruence.
Qed.

Lemma none_pending_cancelled (x : string) (l : list VideoJob) :
  Forall (fun j => status j <> PENDING) (markCancelled x l).
Proof.
  apply Forall_forall. intros j' Hj'. unfold markCancelled in Hj'.
  apply in_map_iff in Hj' as (k & <- & _).
  destruct (id k =? x)%string; [discriminate|].
  unfold is_pending. destruct (status k) eqn:Es; cbn; congruence.
Qed.

(** What the queue processor makes of a call that ends in a cancellation. *)
Lemma settle_cancelled (env : Env) (s1 : State) (job : VideoJob) (r : Res Blob)
    (e : JsError) :
  current s1 = Some job -> out r = Thrown e -> is_abort e = true ->
  exists s2, run s1 (settle_events env r) = Some s2
    /\ idle s2 /\ none_pending s2.
Proof.
  intros Hc Ho He. rewrite settle_events_eq, Ho.
  destruct (run_reports (trace r) s1 job Hc) as (sa & Hra & Hca & _).
  assert (Hb : exists sb, run sa (if stopped env r then [Stop] else []) = Some sb
                          /\ current sb = Some job).
  { destruct (stopped env r); cbn [run step]; [|now exists sa].
    exists (handleStop sa). split; [reflexivity|]. unfold handleStop.
    now destruct (abortControllerRef sa). }
  destruct Hb as (sb & Hrb & Hcb).
  rewrite run_app, Hra, run_app, Hrb.
  cbn [run step]. rewrite Hcb. eexists. split; [reflexivity|].
  unfold onRejected. rewrite He. split.
  - now repeat split.
  - apply none_pending_cancelled.
Qed.

(** X14.  A cancellation the driver reports ends the pass there and then:
    the job of the call fails, no job is left pending, the loop makes no
    further driver call however many jobs it had still to reach, and, no
    job being pending, the effect that starts a pass finds nothing to
    start. *)
Theorem cancellation_ends_the_pass (env : Env) (envs : list Env) (s s1 : State)
    (job : VideoJob) (e : JsError) :
  step s LoopHead = Some s1 -> current s1 = Some job ->
  out (call_driver s1 env job) = Thrown e -> is_abort e = true ->
  idle (fst (fst (drive (env :: envs) s)))
  /\ none_pending (fst (fst (drive (env :: envs) s)))
  /\ snd (drive (env :: envs) s) = trace (call_driver s1 env job)
  /\ autoStart (fst (fst (drive (env :: envs) s))) = fst (fst (drive (env :: envs) s)).
Proof.
  intros Hs Hc Ho He.
  destruct (settle_cancelled env s1 job (call_driver s1 env job) e Hc Ho He)
    as (s2 & Hr & Hi & Hn).
  assert (Hd : drive envs s2 = (s2, [], [])).
  { destruct Hi as (Hp & _). destruct envs; cbn [drive step]; now rewrite Hp. }
  cbn [drive]. rewrite Hs, Hc, Hr, Hd. cbn [fst snd].
  rewrite app_nil_r. repeat split; try apply Hi; try assumption.
  now apply none_pending_autoStart.
Qed.

End Calls.
End PassFacts.

Module SettingsFacts.
Import App Queue QueueFacts QueueInvariant QueueSteps Batch BatchFacts Pass PassFacts.

Section Calls.
Context {url_api : UrlApi}.

(** The initialization fails in two ways only, and before anything is done. *)
Lemma init_thrown (env : Env) key vc e :
  out (init env key vc 0) = Thrown e ->
  init env key vc 0 = mkRes (Thrown e) 0 []
  /\ (e = Error msg_missing_location \/ e = Error msg_missing_credentials).
Proof.
  unfold init, init_direct.
  destruct vc as [vc|];
    [destruct (Js.truthy (projectId vc) && Js.truthy (accessToken vc));
     [destruct (negb (Js.truthy (location vc)))|]|];
  try (destruct (resolve_key key (env_key env)) as [k|]; [destruct (Js.truthy k)|]);
  cbn; intros H; try discriminate; injection H as <-; split; auto.
Qed.

Lemma call_driver_eq (s : State) (env : Env) (job : VideoJob) :
  call_driver s env job
  = generateVideo (with_signal s env) (file job) (config s) (call_key s) (call_vertex s) 0.
Proof. unfold call_driver, call_key, call_vertex. now destruct (authMode s). Qed.

Lemma with_signal_live (s : State) (env : Env) :
  abortControllerRef s <> Some true -> pre_aborted (with_signal s env) = false.
Proof.
  intros H. unfold with_signal. cbn [pre_aborted].
  destruct (abortControllerRef s) as [[|]|]; congruence.
Qed.

(** X15.  A call that fails in the initialization, for want of a
    credential or of the Vertex location: the job fails with the driver's
    message, nothing was sent to the service, and the pass goes on with the
    next job.  The settings panel is opened for the missing credential (its
    message names the API Key) and is not for the missing location, which
    is set in the same panel. *)
Theorem failed_initialization (env : Env) (s : State) (job : VideoJob) (e : JsError) :
  current s = Some job -> abortControllerRef s <> Some true ->
  out (init (with_signal s env) (call_key s) (call_vertex s) 0) = Thrown e ->
  trace (call_driver s env job) = []
  /\ run s (settle_events env (call_driver s env job)) = Some (onRejected s job e)
  /\ jobs (onRejected s job e) = markFailed (id job) (e_message e) (jobs s)
  /\ isProcessing (onRejected s job e) = isProcessing s
  /\ pendingJobs (onRejected s job e) = pendingJobs s
  /\ current (onRejected s job e) = None
  /\ (showSettings (onRejected s job e) = true
      <-> showSettings s = true \/ e = Error msg_missing_credentials).
Proof.
  intros Hc Ha Hi.
  destruct (init_thrown _ _ _ _ Hi) as (Hi0 & He).
  assert (Hr : call_driver s env job = mkRes (Thrown e) 0 []).
  { rewrite call_driver_eq. apply generateVideo_init_error; [|exact Hi0].
    now apply with_signal_live. }
  assert (Hs : settle_events env (call_driver s env job) = [Rejected e]).
  { rewrite settle_events_eq, Hr. unfold stopped, reports. cbn [trace clk out flat_map app].
    destruct (stop_at env) as [k|]; [|reflexivity].
    replace (k <? 0)%nat with false by (symmetry; apply Nat.ltb_ge; lia). reflexivity. }
  rewrite Hs, Hr. cbn [trace run step]. rewrite Hc.
  split; [reflexivity|]. split; [reflexivity|].
  destruct He as [-> | ->].
  - unfold onRejected.
    replace (is_abort (Error msg_missing_location)) with false by reflexivity.
    replace (Js.includes (e_message (Error msg_missing_location)) "API Key"
             || Js.includes (e_message (Error msg_missing_location)) "Access Token")
      with false by (vm_compute; reflexivity).
    cbn [set_loop set_jobs jobs isProcessing pendingJobs current showSettings].
    repeat split; auto.
    intros [H|H]; [exact H | discriminate].
  - unfold onRejected.
    replace (is_abort (Error msg_missing_credentials)) with false by reflexivity.
    replace (Js.includes (e_message (Error msg_missing_credentials)) "API Key"
             || Js.includes (e_message (Error msg_missing_credentials)) "Access Token")
      with true by (vm_compute; reflexivity).
    cbn [set_loop set_jobs set_showSettings jobs isProcessing pendingJobs current
         showSettings].
    repeat split; auto.
Qed.

(** Whatever a driver call does, the queue processor takes it in. *)
Lemma settle_runs (env : Env) (s : State) (job : VideoJob) (r : Res Blob) :
  current s = Some job -> exists s2, run s (settle_events env r) = Some s2.
Proof.
  intros Hc. rewrite settle_events_eq.
  destruct (run_reports (trace r) s job Hc) as (sa & Hra & Hca & _).
  assert (Hb : exists sb, run sa (if stopped env r then [Stop] else []) = Some sb
                          /\ current sb = Some job).
  { destruct (stopped env r); cbn [run step]; [|now exists sa].
    exists (handleStop sa). split; [reflexivity|]. unfold handleStop.
    now destruct (abortControllerRef sa). }
  destruct Hb as (sb & Hrb & Hcb).
  rewrite run_app, Hra, run_app, Hrb.
  destruct (out r); cbn [run step]; rewrite ?Hcb; eexists; reflexivity.
Qed.

Lemma ids_markCompleted (x url : string) (l : list VideoJob) :
  ids (markCompleted x url l) = ids l.
Proof.
  unfold markCompleted. apply ids_map. intros j. now destruct (id j =? x)%string.
Qed.

Lemma map_absent (x : string) (g : VideoJob -> VideoJob) (l : list VideoJob) :
  ~ In x (ids l) ->
  map (fun j => if (id j =? x)%string then g j else j) l = l.
Proof.
  induction l as [|k l IH]; intros H; [reflexivity|]. cbn [map ids] in *.
  destruct (String.eqb_spec (id k) x) as [E|E].
  - exfalso. apply H. now left.
  - f_equal. apply IH. intros Hin. apply H. now right.
Qed.

(** X16.  The loop works on the list of pending jobs it took when the pass
    began.  A job of that list the user removes from the queue before the
    loop reaches it is submitted all the same: the loop makes the driver
    call for it, and since no job of the queue has its id any more, the
    video the call returns is dropped. *)
Theorem removed_job_is_still_processed (env : Env) (envs : list Env) (s : State)
    (job : VideoJob) (rest : list VideoJob) :
  isProcessing s = true -> current s = None ->
  pendingJobs s = job :: rest -> abortControllerRef s <> Some true ->
  exists s',
    run s [RemoveJob (id job); LoopHead] = Some s'
    /\ current s' = Some job /\ pendingJobs s' = rest
    /\ ~ In (id job) (ids (jobs s'))
    /\ (exists effs,
          snd (drive (env :: envs) (handleRemoveJob s (id job)))
          = trace (call_driver s' env job) ++ effs)
    /\ (forall videoBlob, jobs (onResolved s' job videoBlob) = jobs s').
Proof.
  intros Hp Hc Hq Ha.
  set (s1 := handleRemoveJob s (id job)).
  set (s' := set_loop (set_jobs s1 (markProcessing (id job))) rest (Some job)).
  assert (Hstep : step s1 LoopHead = Some s').
  { cbn [step]. unfold s1 at 1 2. cbn [handleRemoveJob set_jobs isProcessing current].
    rewrite Hp, Hc. unfold loopHead.
    replace (pendingJobs s1) with (job :: rest) by (symmetry; exact Hq).
    replace (abortControllerRef s1) with (abortControllerRef s) by reflexivity.
    destruct (abortControllerRef s) as [[|]|]; [congruence | reflexivity | reflexivity]. }
  assert (Hnot : ~ In (id job) (ids (jobs s'))).
  { unfold s'. cbn [set_loop set_jobs jobs]. rewrite ids_markProcessing.
    unfold s1. cbn [handleRemoveJob set_jobs jobs].
    intros Hin. apply in_map_iff in Hin as (k & Ek & Hk).
    apply filter_In in Hk as [_ Hk]. rewrite Ek, String.eqb_refl in Hk. discriminate. }
  exists s'. split; [|split; [|split; [|split; [|split]]]].
  - change (run s [RemoveJob (id job); LoopHead])
      with (match step s1 LoopHead with Some s2 => Some s2 | None => None end).
    now rewrite Hstep.
  - reflexivity.
  - reflexivity.
  - exact Hnot.
  - cbn [drive]. fold s1. rewrite Hstep.
    change (current s') with (Some job).
    destruct (settle_runs env s' job (call_driver s' env job) eq_refl) as (s2 & ->).
    destruct (drive envs s2) as [[s3 evs3] effs3]. cbn [snd]. now exists effs3.
  - intros videoBlob. unfold onResolved. cbn [set_loop set_jobs jobs].
    unfold markCompleted. now apply map_absent.
Qed.

End Calls.
End SettingsFacts.

(** ** The application used through its page *)

Module ViewFacts.
Import App Queue QueueFacts QueueInvariant QueueSteps Batch BatchFacts Pass PassFacts
  JobRecord AppView.

Lemma reachable_inv (s : State) : reachable s -> Inv s.
Proof.
  induction 1 as [s H0 | s s' ev _ IH _ Hs]; [now apply inv_initial|].
  now apply (inv_step s s' ev).
Qed.

Lemma kept_by_map (g : VideoJob -> VideoJob) (l : list VideoJob) (j : VideoJob) :
  (forall k, id (g k) = id k) -> In j l ->
  exists j', In j' (map g l) /\ id j' = id j.
Proof. intros Hid Hj. exists (g j). split; [now apply in_map | apply Hid]. Qed.

(** X17.  Through the page, the job a driver call is running for cannot be
    taken out of the queue: its card shows no remove button, and Clear All
    is not on the page while a pass runs.  So whatever happens next, a job
    that is processing is still in the queue afterwards. *)
Theorem processing_job_stays_in_queue (s s' : State) (ev : Event) (j : VideoJob) :
  reachable s -> offered s ev -> step s ev = Some s' ->
  In j (jobs s) -> status j = PROCESSING ->
  exists j', In j' (jobs s') /\ id j' = id j.
Proof.
  intros Hreach Hoff Hs Hj Hp.
  pose proof (reachable_inv s Hreach) as I.
  destruct ev; cbn [step] in Hs.
  - destruct (fresh_ids s files); [|discriminate]. injection Hs as <-.
    exists j. split; [|reflexivity]. cbn [handleAddFiles jobs]. apply in_or_app. now left.
  - injection Hs as <-. destruct Hoff as (job & Hjob & Hshow & <-).
    exists j. split; [|reflexivity]. cbn [handleRemoveJob set_jobs jobs].
    apply filter_In. split; [exact Hj|].
    destruct (String.eqb_spec (id j) (id job)) as [E|E]; [|reflexivity].
    exfalso. assert (j = job) by (apply (same_id_same_job (jobs s)); auto; apply I).
    subst job. unfold JobCard.showsRemove, is_processing in Hshow.
    rewrite Hp in Hshow. discriminate.
  - injection Hs as <-. exists j. split; [|reflexivity].
    unfold handleStop. now destruct (abortControllerRef s).
  - exfalso. cbn [offered] in Hoff. unfold showsClearAll in Hoff.
    apply andb_prop in Hoff as [_ Hidle]. apply Bool.negb_true_iff in Hidle.
    destruct (inv_idle s I Hidle) as (_ & Hc).
    apply (inv_processing s I j Hj) in Hp. destruct Hp as (cur & Hcur & _). congruence.
  - injection Hs as <-. exists j. split; [|reflexivity].
    unfold autoStart, processQueue.
    destruct (existsb is_pending (jobs s) && negb (isProcessing s));
      [destruct (isProcessing s)|]; exact Hj.
  - destruct (isProcessing s); [|discriminate].
    destruct (current s); [discriminate|].
    injection Hs as <-. unfold loopHead.
    destruct (pendingJobs s) as [|r rest]; [now exists j|].
    destruct (abortControllerRef s) as [[|]|]; [now exists j | |];
      cbn [set_loop set_jobs jobs]; unfold markProcessing;
      (apply kept_by_map; [intros k; now destruct (id k =? id r)%string | exact Hj]).
  - destruct (current s) as [cur|]; [|discriminate]. injection Hs as <-.
    cbn [set_jobs jobs]. unfold setProgress.
    apply kept_by_map; [intros k; now destruct (id k =? id cur)%string | exact Hj].
  - destruct (current s) as [cur|]; [|discriminate]. injection Hs as <-.
    unfold onResolved. cbn [set_loop set_jobs jobs]. unfold markCompleted.
    apply kept_by_map; [intros k; now destruct (id k =? id cur)%string | exact Hj].
  - destruct (current s) as [cur|]; [|discriminate]. injection Hs as <-.
    unfold onRejected. destruct (is_abort e).
    + cbn [finish set_pass set_jobs jobs]. unfold markCancelled.
      apply kept_by_map; [|exact Hj].
      intros k. destruct (id k =? id cur)%string; [reflexivity|].
      now destruct (is_pending k).
    + destruct (Js.includes (e_message e) "API Key"
                || Js.includes (e_message e) "Access Token");
        cbn [set_loop set_jobs set_showSettings jobs]; unfold markFailed;
        (apply kept_by_map; [intros k; now destruct (id k =? id cur)%string | exact Hj]).
Qed.

(** *** Only images are queued *)

Lemma images_map (g : VideoJob -> VideoJob) (l : list VideoJob) :
  (forall k, file (g k) = file k) -> Forall image_job l -> Forall image_job (map g l).
Proof.
  intros Hg Hl. rewrite Forall_forall in *. intros j' Hj'.
  apply in_map_iff in Hj' as (k & <- & Hk). unfold image_job. rewrite Hg. now apply Hl.
Qed.

Lemma images_filter (p : VideoJob -> bool) (l : list VideoJob) :
  Forall image_job l -> Forall image_job (filter p l).
Proof.
  intros Hl. rewrite Forall_forall in *. intros j Hj.
  apply filter_In in Hj as [Hj _]. now apply Hl.
Qed.

Lemma images_set_jobs_map (s : State) (g : VideoJob -> VideoJob) :
  (forall k, file (g k) = file k) -> images s -> images (set_jobs s (map g)).
Proof.
  intros Hg (H1 & H2 & H3). repeat split; auto. now apply images_map.
Qed.

Lemma handleFiles_images (chosen : option (list File)) (files : list File) :
  UploadArea.handleFiles chosen = Some files ->
  Forall (fun f => UploadArea.is_image f = true) files /\ files <> [].
Proof.
  unfold UploadArea.handleFiles, UploadArea.handleDrop.
  destruct chosen as [l|]; [|discriminate].
  destruct (0 <? length (filter UploadArea.is_image l))%nat eqn:E; [|discriminate].
  intros [= <-]. split.
  - apply Forall_forall. intros f Hf. now apply filter_In in Hf.
  - intros Hnil. rewrite Hnil in E. discriminate.
Qed.

Lemma images_step (s s' : State) (ev : Event) :
  images s ->
  (forall files, ev = AddFiles files ->
     Forall (fun f => UploadArea.is_image f = true) (map nf_file files)) ->
  step s ev = Some s' -> images s'.
Proof.
  intros Hi Hadd Hs. pose proof Hi as (H1 & H2 & H3).
  destruct ev; cbn [step] in Hs.
  - destruct (fresh_ids s files); [|discriminate]. injection Hs as <-.
    repeat split; auto. cbn [handleAddFiles jobs]. apply Forall_app. split; [exact H1|].
    specialize (Hadd files eq_refl). rewrite Forall_forall in *.
    intros j Hj. apply in_map_iff in Hj as (f & <- & Hf).
    unfold image_job. cbn [new_job file]. apply Hadd. now apply in_map.
  - injection Hs as <-. repeat split; auto. now apply images_filter.
  - injection Hs as <-. unfold handleStop. now destruct (abortControllerRef s).
  - injection Hs as <-. unfold handleClearAll.
    destruct (isProcessing s); [unfold handleStop; destruct (abortControllerRef s)|];
      repeat split; auto; constructor.
  - injection Hs as <-. unfold autoStart, processQueue.
    destruct (existsb is_pending (jobs s) && negb (isProcessing s));
      [destruct (isProcessing s)|]; auto.
    repeat split; auto; [now apply images_filter | discriminate].
  - destruct (isProcessing s); [|discriminate].
    destruct (current s); [discriminate|].
    injection Hs as <-. unfold loopHead.
    destruct (pendingJobs s) as [|r rest] eqn:Hq.
    + repeat split; auto; discriminate.
    + inversion H2 as [|? ? Hr Hrest]; subst.
      destruct (abortControllerRef s) as [[|]|];
        [repeat split; auto; discriminate | |];
        (repeat split;
         [ cbn [set_loop set_jobs jobs]; apply images_map;
           [intros k; now destruct (id k =? id r)%string | exact H1]
         | exact Hrest
         | cbn [set_loop current]; intros j [= <-]; exact Hr ]).
  - destruct (current s) as [cur|] eqn:Hc; [|discriminate]. injection Hs as <-.
    unfold setProgress. apply images_set_jobs_map; [|exact Hi].
    intros k. now destruct (id k =? id cur)%string.
  - destruct (current s) as [cur|] eqn:Hc; [|discriminate]. injection Hs as <-.
    unfold onResolved. repeat split; auto; [|discriminate].
    cbn [set_loop set_jobs jobs]. apply images_map; [|exact H1].
    intros k. now destruct (id k =? id cur)%string.
  - destruct (current s) as [cur|] eqn:Hc; [|discriminate]. injection Hs as <-.
    unfold onRejected. destruct (is_abort e).
    + repeat split; auto; [|discriminate].
      cbn [finish set_pass set_jobs jobs]. apply images_map; [|exact H1].
      intros k. destruct (id k =? id cur)%string; [reflexivity|].
      now destruct (is_pending k).
    + destruct (Js.includes (e_message e) "API Key"
                || Js.includes (e_message e) "Access Token");
        (repeat split; auto; [|discriminate]);
        cbn [set_loop set_jobs set_showSettings jobs]; (apply images_map; [|exact H1]);
        intros k; now destruct (id k =? id cur)%string.
Qed.

Lemma reachable_images (s : State) : reachable s -> images s.
Proof.
  induction 1 as [s H0 | s s' ev _ IH Hoff Hs].
  - destruct H0 as (Hj & _ & _ & Hq & Hc & _). unfold images.
    rewrite Hj, Hq, Hc. repeat split; try constructor. discriminate.
  - apply (images_step s s' ev IH); [|exact Hs].
    intros files ->. destruct Hoff as (chosen & Hch).
    now apply handleFiles_images in Hch.
Qed.

Lemma images_run (evs : list Event) : forall s s',
  images s -> Forall (fun ev => forall files, ev <> AddFiles files) evs ->
  run s evs = Some s' -> images s'.
Proof.
  induction evs as [|ev evs IH]; intros s s' Hi Hall Hr; cbn [run] in Hr.
  - now injection Hr as <-.
  - inversion Hall as [|? ? Hev Hall']; subst.
    destruct (step s ev) as [s1|] eqn:Hs; [|discriminate].
    apply (IH s1); auto. apply (images_step s s1 ev Hi); [|exact Hs].
    intros files E. exfalso. now apply (Hev files).
Qed.

Section Calls.
Context {url_api : UrlApi}.

Lemma settle_events_no_add (env : Env) (r : Res Blob) :
  Forall (fun ev => forall files, ev <> AddFiles files) (settle_events env r).
Proof.
  rewrite settle_events_eq.
  apply Forall_app; split; [|apply Forall_app; split].
  - unfold reports. induction (trace r) as [|ev tr IH]; [constructor|].
    cbn [flat_map]. apply Forall_app. split; [|exact IH].
    destruct ev; repeat constructor; discriminate.
  - destruct (stopped env r); repeat constructor; discriminate.
  - destruct (out r); repeat constructor; discriminate.
Qed.

Lemma drive_images (envs : list Env) (r : SubmitRequest) : forall s,
  images s -> In (ESubmit r) (snd (drive envs s)) ->
  Js.startsWith (sr_mimeType r) "image/" = true.
Proof.
  induction envs as [|env envs IH]; intros s Hi Hin; cbn [drive] in Hin.
  - destruct (step s LoopHead) as [s1|]; [destruct (current s1)|]; destruct Hin.
  - destruct (step s LoopHead) as [s1|] eqn:Hs; [|destruct Hin].
    assert (Hi1 : images s1)
      by (apply (images_step s s1 LoopHead Hi); [discriminate | exact Hs]).
    destruct (current s1) as [job|] eqn:Hc; [|destruct Hin].
    assert (Hcall : In (ESubmit r) (trace (call_driver s1 env job)) ->
                    Js.startsWith (sr_mimeType r) "image/" = true).
    { intros H. unfold call_driver in H.
      apply submission_mime_type in H. rewrite H.
      destruct Hi1 as (_ & _ & H3). exact (H3 job Hc). }
    destruct (run s1 (settle_events env (call_driver s1 env job))) as [s2|] eqn:Hr;
      [|now apply Hcall].
    destruct (drive envs s2) as [[s3 evs3] effs3] eqn:Hd. cbn [snd] in Hin.
    apply in_app_or in Hin as [Hin | Hin]; [now apply Hcall|].
    apply (IH s2); [|now rewrite Hd].
    apply (images_run _ s1 s2 Hi1 (settle_events_no_add env _) Hr).
Qed.

(** X18.  Only images are submitted.  The upload area passes on the files
    whose type starts with "image/" and nothing else, the queue processor
    keeps the file of a job as it came, and the driver submits the type of
    that file: so in the application used through its page, every
    submission of every pass carries an image type. *)
Theorem every_submission_is_an_image (envs : list Env) (s : State) (r : SubmitRequest) :
  reachable s -> In (ESubmit r) (snd (pass envs s)) ->
  Js.startsWith (sr_mimeType r) "image/" = true.
Proof.
  intros Hreach Hin. unfold pass in Hin.
  destruct (drive envs (autoStart s)) as [[s' evs] effs] eqn:Hd. cbn [snd] in Hin.
  apply (drive_images envs r (autoStart s)); [|now rewrite Hd].
  apply (images_step s (autoStart s) AutoStart); [|discriminate | reflexivity].
  now apply reachable_images.
Qed.

End Calls.
End ViewFacts.

(** ** A pass that is not cancelled *)

Module CompleteFacts.
Import App Queue QueueFacts QueueInvariant QueueSteps Batch BatchFacts Pass PassFacts
  SettingsFacts.

Section Calls.
Context {url_api : UrlApi}.

Lemma call_driver_ext (s1 s2 : State) (env : Env) (job : VideoJob) :
  settings s1 = settings s2 -> abortControllerRef s1 = abortControllerRef s2 ->
  call_driver s1 env job = call_driver s2 env job.
Proof.
  unfold settings. intros [= E1 E2 E3 E4] Ea.
  unfold call_driver, with_signal. now rewrite E1, E2, E3, E4, Ea.
Qed.

Lemma shape_map (g : VideoJob -> VideoJob) (l : list VideoJob) :
  (forall k, id (g k) = id k /\ status (g k) = status k) -> shape (map g l) = shape l.
Proof.
  intros Hg. unfold shape. rewrite map_map. apply map_ext.
  intros k. destruct (Hg k) as [-> ->]. reflexivity.
Qed.

Lemma run_reports_shape (tr : list Effect) : forall s s2 job,
  current s = Some job -> run s (reports tr) = Some s2 ->
  shape (jobs s2) = shape (jobs s).
Proof.
  induction tr as [|ev tr IH]; intros s s2 job Hc Hr.
  - cbn in Hr. now injection Hr as <-.
  - destruct ev as [| p | | | | | |]; try (now apply (IH s s2 job)).
    unfold reports in Hr. cbn [flat_map app run step] in Hr. rewrite Hc in Hr.
    rewrite (IH (set_jobs s (setProgress (id job) p)) s2 job Hc Hr).
    cbn [set_jobs jobs]. unfold setProgress.
    apply shape_map. intros k. now destruct (id k =? id job)%string.
Qed.

Lemma covered_shape (l l' q : list VideoJob) :
  shape l' = shape l -> covered l q -> covered l' q.
Proof.
  intros Hs Hc j Hj Hp.
  assert (Hin : In (id j, status j) (shape l)).
  { rewrite <- Hs. unfold shape. apply in_map_iff. now exists j. }
  unfold shape in Hin. apply in_map_iff in Hin as (k & [= Ei Es] & Hk).
  rewrite <- Ei. apply Hc; [exact Hk | congruence].
Qed.

Lemma covered_started (l rest : list VideoJob) (job : VideoJob) :
  covered l (job :: rest) -> covered (markProcessing (id job) l) rest.
Proof.
  intros Hc j' Hj' Hp. unfold markProcessing in Hj'.
  apply in_map_iff in Hj' as (k & <- & Hk).
  destruct (String.eqb_spec (id k) (id job)) as [E|E]; [discriminate|].
  destruct (Hc k Hk Hp) as [Hh | Ht]; [congruence | exact Ht].
Qed.

Lemma covered_settled (l q : list VideoJob) (x : string) (g : VideoJob -> VideoJob) :
  (forall k, id (g k) = id k /\ status (g k) <> PENDING) ->
  covered l q ->
  covered (map (fun k => if (id k =? x)%string then g k else k) l) q.
Proof.
  intros Hg Hc j' Hj' Hp. apply in_map_iff in Hj' as (k & <- & Hk).
  destruct (id k =? x)%string; [now destruct (Hg k) | now apply Hc].
Qed.

Lemma covered_none (l : list VideoJob) :
  covered l [] -> Forall (fun j => status j <> PENDING) l.
Proof.
  intros Hc. apply Forall_forall. intros j Hj Hp. exact (Hc j Hj Hp).
Qed.

(** The loop from a state of a pass that has not been cancelled. *)
Lemma drive_complete (s0 : State) (envs : list Env) : forall s,
  abortControllerRef s0 = Some false ->
  isProcessing s = true -> current s = None -> abortControllerRef s = Some false ->
  settings s = settings s0 -> covered (jobs s) (pendingJobs s) ->
  length (pendingJobs s) <= length envs ->
  Forall (settles s0) envs ->
  isProcessing (fst (fst (drive envs s))) = false
  /\ none_pending (fst (fst (drive envs s))).
Proof.
  induction envs as [|env envs IH]; intros s Ha0 Hp Hc Ha Hset Hcov Hlen Hall.
  - destruct (pendingJobs s) as [|job rest] eqn:Hq; [|cbn in Hlen; lia].
    cbn [drive step]. rewrite Hp, Hc. unfold loopHead. rewrite Hq.
    cbn [finish set_pass current fst isProcessing]. split; [reflexivity|].
    now apply covered_none.
  - cbn [drive step]. rewrite Hp, Hc. unfold loopHead.
    destruct (pendingJobs s) as [|job rest] eqn:Hq.
    + cbn [finish set_pass current fst isProcessing]. split; [reflexivity|].
      now apply covered_none.
    + rewrite Ha.
      set (s1 := set_loop (set_jobs s (markProcessing (id job))) rest (Some job)).
      change (current s1) with (Some job). cbv iota.
      inversion Hall as [|? ? (Hstop & Hout) Hall']; subst.
      assert (Hcall : call_driver s1 env job = call_driver s0 env job)
        by (apply call_driver_ext; [exact Hset | now rewrite Ha0]).
      set (r := call_driver s1 env job).
      assert (Hr : out r <> Awaiting) by (unfold r; rewrite Hcall; apply Hout).
      assert (Hcov1 : covered (jobs s1) rest) by now apply covered_started.
      destruct (run_reports (trace r) s1 job eq_refl)
        as (sa & Hra & Hca & Hpa & Haa & Hqa & _ & Hsa & _).
      pose proof (run_reports_shape (trace r) s1 sa job eq_refl Hra) as Hshape.
      assert (Hcova : covered (jobs sa) rest)
        by (apply (covered_shape (jobs s1)); assumption).
      assert (Hev : settle_events env r
                    = reports (trace r)
                      ++ match out r with
                         | Returned b => [Resolved b]
                         | Thrown e => [Rejected e]
                         | Awaiting => []
                         end).
      { rewrite settle_events_eq. unfold stopped. now rewrite Hstop. }
      destruct (out r) as [b | e |] eqn:Ho; [| |congruence].
      * (* the call returned *)
        assert (Hrun : run s1 (settle_events env r) = Some (onResolved sa job b)).
        { rewrite Hev, run_app, Hra. cbn [run step]. now rewrite Hca. }
        rewrite Hrun.
        destruct (drive envs (onResolved sa job b)) as [[s3 evs3] effs3] eqn:Hd.
        cbn [fst].
        change s3 with (fst (fst (s3, evs3, effs3))). rewrite <- Hd.
        apply IH; [exact Ha0 | | reflexivity | | | | | exact Hall'].
        -- cbn. rewrite Hpa. exact Hp.
        -- cbn. rewrite Haa. exact Ha.
        -- transitivity (settings sa); [reflexivity|]. rewrite Hsa. exact Hset.
        -- unfold onResolved. cbn [set_loop set_jobs jobs pendingJobs]. rewrite Hqa.
           unfold markCompleted. apply covered_settled; [|exact Hcova].
           intros k. split; [reflexivity | discriminate].
        -- unfold onResolved. cbn [set_loop pendingJobs]. rewrite Hqa.
           unfold s1. cbn [set_loop pendingJobs]. cbn in Hlen. lia.
      * (* the call failed *)
        destruct (is_abort e) eqn:He.
        -- destruct (settle_cancelled env s1 job r e eq_refl Ho He)
             as (s2 & Hrun & Hi & Hn).
           rewrite Hrun.
           assert (Hd : drive envs s2 = (s2, [], [])).
           { destruct Hi as (Hp2 & _). destruct envs; cbn [drive step]; now rewrite Hp2. }
           rewrite Hd. cbn [fst]. split; [apply Hi | exact Hn].
        -- assert (Hrun : run s1 (settle_events env r) = Some (onRejected sa job e)).
           { rewrite Hev, run_app, Hra. cbn [run step]. now rewrite Hca. }
           rewrite Hrun.
           destruct (drive envs (onRejected sa job e)) as [[s3 evs3] effs3] eqn:Hd.
           cbn [fst].
           change s3 with (fst (fst (s3, evs3, effs3))). rewrite <- Hd.
           unfold onRejected in *. rewrite He in *.
           destruct (Js.includes (e_message e) "API Key"
                     || Js.includes (e_message e) "Access Token");
             (apply IH;
              [ exact Ha0
              | cbn; rewrite Hpa; exact Hp
              | reflexivity
              | cbn; rewrite Haa; exact Ha
              | transitivity (settings sa); [reflexivity|]; rewrite Hsa; exact Hset
              | cbn [set_loop set_jobs set_showSettings jobs pendingJobs]; rewrite Hqa;
                unfold markFailed; apply covered_settled; [|exact Hcova];
                intros k; split; [reflexivity | discriminate]
              | cbn [set_loop set_jobs set_showSettings pendingJobs]; rewrite Hqa;
                unfold s1; cbn [set_loop pendingJobs]; cbn in Hlen; lia
              | exact Hall' ]).
Qed.

Lemma covered_snapshot (l : list VideoJob) : covered l (filter is_pending l).
Proof.
  intros j Hj Hp. apply In_ids. apply filter_In. split; [exact Hj|].
  unfold is_pending. now rewrite Hp.
Qed.

(** X19.  A pass that is not cancelled and whose driver calls all settle,
    well or badly, takes every pending job of the queue to its end: when it
    is over no job is pending, whatever the calls returned or threw, and
    the queue is idle. *)
Theorem uncancelled_pass_settles_every_job (envs : list Env) (s : State) :
  isProcessing s = false ->
  length (filter is_pending (jobs s)) <= length envs ->
  Forall (settles (autoStart s)) envs ->
  isProcessing (fst (fst (pass envs s))) = false
  /\ none_pending (fst (fst (pass envs s))).
Proof.
  intros Hp Hlen Hall.
  assert (E : fst (fst (pass envs s)) = fst (fst (drive envs (autoStart s)))).
  { unfold pass. now destruct (drive envs (autoStart s)) as [[s' evs] effs]. }
  rewrite E. clear E.
  destruct (existsb is_pending (jobs s)) eqn:Hex.
  - assert (Ea : autoStart s
                 = set_pass s true (Some false) (filter is_pending (jobs s)) None).
    { unfold autoStart, processQueue. now rewrite Hex, Hp. }
    apply (drive_complete (autoStart s)); auto; rewrite Ea; try reflexivity.
    + cbn [set_pass jobs pendingJobs]. apply covered_snapshot.
    + exact Hlen.
  - assert (Ea : autoStart s = s) by (unfold autoStart; now rewrite Hex).
    rewrite Ea.
    assert (Hd : drive envs s = (s, [], []))
      by (destruct envs; cbn [drive step]; now rewrite Hp).
    rewrite Hd. cbn [fst]. split; [exact Hp|].
    apply Forall_forall. intros j Hj Hpend.
    assert (existsb is_pending (jobs s) = true); [|congruence].
    apply existsb_exists. exists j. split; [exact Hj|].
    unfold is_pending. now rewrite Hpend.
Qed.

End Calls.
End CompleteFacts.

(** ** The further properties on concrete runs *)

Module MoreRuns.
Import App Queue Batch Pass JobRecord AppView Fixtures Scenarios SimpleUrl.

Lemma fatal_failure_witness :
  out (generateVideo env_fatal image cfg0 (Some "KEY") None 0)
  = Thrown (Error "Permission denied")
  /\ count_submits (trace (generateVideo env_fatal image cfg0 (Some "KEY") None 0)) = 2
  /\ count_polls (trace (generateVideo env_fatal image cfg0 (Some "KEY") None 0)) = 0
  /\ waits (trace (generateVideo env_fatal image cfg0 (Some "KEY") None 0)) = [20000%Z].
Proof.
  apply (fatal_failure_surfaces env_fatal image cfg0 (Some "KEY") None false "BASE64"
           [rate_limited] forbidden []).
  - apply DriverRuns.reaches_env_with.
  - reflexivity.
  - apply (DriverRuns.all_rate_limited 1).
  - cbn. lia.
  - reflexivity.
Defined.

Lemma unnamed_operation_witness :
  out (generateVideo env_unnamed image cfg0 (Some "KEY") None 0)
  = Thrown (Error msg_no_operation_name)
  /\ count_polls (trace (generateVideo env_unnamed image cfg0 (Some "KEY") None 0)) = 0
  /\ waits (trace (generateVideo env_unnamed image cfg0 (Some "KEY") None 0)) = [].
Proof.
  apply (unnamed_operation_is_not_polled env_unnamed image cfg0 (Some "KEY") None false
           "BASE64" [] op_unnamed []).
  - apply DriverRuns.reaches_env_with.
  - reflexivity.
  - constructor.
  - cbn. lia.
  - reflexivity.
Defined.

Lemma done_operation_witness :
  generateVideo env_done image cfg0 (Some "KEY") None 0
  = prepend (opening env_done image (Some "KEY") None
             ++ retry_trace (submit_request image cfg0 "BASE64") [] 0 20000
             ++ handover (submit_request image cfg0 "BASE64"))
      (after_polling env_done op_finished false (Some "KEY") None (2 * 0 + 3))
  /\ count_polls (trace (generateVideo env_done image cfg0 (Some "KEY") None 0)) = 0.
Proof.
  apply (done_operation_is_not_polled env_done image cfg0 (Some "KEY") None false
           "BASE64" [] op_finished []).
  - apply DriverRuns.reaches_env_with.
  - reflexivity.
  - constructor.
  - cbn. lia.
  - discriminate.
  - reflexivity.
Defined.

Lemma rate_limited_polling_witness :
  generateVideo env_throttled image cfg0 (Some "KEY") None 0
  = prepend (opening env_throttled image (Some "KEY") None
             ++ handover (submit_request image cfg0 "BASE64")
             ++ rate_limited_trace op_started [rate_limited; rate_limited]
             ++ [EWait 10000; EPoll op_started])
      (after_polling env_throttled op_finished false (Some "KEY") None (3 * 2 + 5)).
Proof.
  apply (rate_limited_polling_is_unbounded env_throttled image cfg0 (Some "KEY") None
           false "BASE64" op_started [] [rate_limited; rate_limited] op_finished []).
  - apply DriverRuns.reaches_env_with.
  - reflexivity.
  - discriminate.
  - reflexivity.
  - reflexivity.
  - repeat constructor.
  - reflexivity.
Defined.

Lemma refresh_restarts_witness :
  generateVideo env_flaky image cfg0 (Some "KEY") None 0
  = prepend (opening env_flaky image (Some "KEY") None
             ++ handover (submit_request image cfg0 "BASE64")
             ++ polling_trace op_started (S (length (repeat not_found 100)))
             ++ polling_trace op_started (S (length (repeat not_found 100))))
      (after_polling env_flaky op_finished false (Some "KEY") None
         (2 * (length (repeat not_found 100) + length (repeat not_found 100)) + 7)).
Proof.
  apply (refresh_restarts_not_found_count env_flaky image cfg0 (Some "KEY") None
           false "BASE64" op_started [] (repeat not_found 100) op_started
           (repeat not_found 100) op_finished []).
  - apply DriverRuns.reaches_env_with.
  - reflexivity.
  - discriminate.
  - reflexivity.
  - reflexivity.
  - apply DriverRuns.all_not_found.
  - rewrite repeat_length. lia.
  - apply DriverRuns.all_not_found.
  - rewrite repeat_length. lia.
  - reflexivity.
  - reflexivity.
Defined.

Lemma retry_reports_witness :
  nth_error
    (progress_reports (trace (generateVideo env_backoff image cfg0 (Some "KEY") None 0)))
    (2 + 3)
  = Some "Rate limit (429). Waiting 68s before retry (4/50)...".
Proof.
  apply (retry_reports env_backoff image cfg0 (Some "KEY") None false "BASE64"
           (repeat rate_limited 7) [inr op_started] 3 rate_limited).
  - apply DriverRuns.reaches_env_with.
  - reflexivity.
  - apply DriverRuns.all_rate_limited.
  - cbn. lia.
  - reflexivity.
Defined.

Lemma submissions_witness :
  encode_reply env_ok = inr "BASE64"
  /\ submit_request image cfg0 "BASE64" = submit_request image cfg0 "BASE64"
  /\ sr_model (submit_request image cfg0 "BASE64") = "veo-3.1-fast-generate-preview"
  /\ sr_numberOfVideos (submit_request image cfg0 "BASE64") = 1%Z
  /\ sr_durationSeconds (submit_request image cfg0 "BASE64") = 4%Z
  /\ sr_resolution (submit_request image cfg0 "BASE64") = R720p
  /\ sr_aspectRatio (submit_request image cfg0 "BASE64") = A9x16
  /\ sr_mimeType (submit_request image cfg0 "BASE64") = "image/png".
Proof.
  apply (submissions_repeat_one_request env_ok image cfg0 (Some "KEY") None 0
           (submit_request image cfg0 "BASE64")).
  vm_compute. do 4 right. left. reflexivity.
Defined.

Lemma successful_call_witness :
  generateVideo env_happy image cfg0 (Some "KEY") None 0
  = mkRes (Returned "VIDEO") (2 * 1 + 2 * 1 + 7)
      (opening env_happy image (Some "KEY") None
       ++ retry_trace (submit_request image cfg0 "BASE64") [rate_limited] 0 20000
       ++ handover (submit_request image cfg0 "BASE64")
       ++ refresh_trace op_started ([op_started] ++ [op_finished])
       ++ [EProgress "Downloading result...";
           EFetch (download_request env_happy false (Some "KEY") None parsed_link); EBlob])
  /\ count_submits (trace (generateVideo env_happy image cfg0 (Some "KEY") None 0)) = 1 + 1
  /\ count_polls (trace (generateVideo env_happy image cfg0 (Some "KEY") None 0)) = 1 + 1
  /\ waits (trace (generateVideo env_happy image cfg0 (Some "KEY") None 0))
     = map backoff_seq (seq 0 1) ++ repeat 10000%Z (1 + 2).
Proof.
  apply (successful_call_returns_the_video env_happy image cfg0 (Some "KEY") None false
           "BASE64" [rate_limited] op_started [] [op_started] op_finished []
           "https://example.com/v.mp4?alt=media" parsed_link "OK" "VIDEO").
  - apply DriverRuns.reaches_env_with.
  - reflexivity.
  - apply (DriverRuns.all_rate_limited 1).
  - cbn. lia.
  - discriminate.
  - reflexivity.
  - repeat constructor.
  - reflexivity.
  - reflexivity.
  - reflexivity.
  - reflexivity.
Defined.

Lemma stop_during_submission_witness :
  generateVideo env_stop_submit image cfg0 (Some "KEY") None 0
  = mkRes (Thrown (AbortException "Aborted")) (2 * 1 + 2)
      (opening env_stop_submit image (Some "KEY") None
       ++ retry_trace (submit_request image cfg0 "BASE64") [rate_limited] 0 20000
       ++ [ESubmit (submit_request image cfg0 "BASE64")]).
Proof.
  apply (stop_during_submission env_stop_submit image cfg0 (Some "KEY") None false
           "BASE64" [rate_limited] forbidden []).
  - split; reflexivity.
  - reflexivity.
  - reflexivity.
  - reflexivity.
  - apply (DriverRuns.all_rate_limited 1).
  - cbn. lia.
Defined.

Lemma stop_during_status_witness :
  generateVideo env_stop_status image cfg0 (Some "KEY") None 0
  = mkRes (Thrown (AbortException "Aborted")) (2 * 1 + 5)
      (opening env_stop_status image (Some "KEY") None
       ++ handover (submit_request image cfg0 "BASE64")
       ++ refresh_trace op_started [op_started]
       ++ [EWait 10000; EPoll (last [op_started] op_started)]).
Proof.
  apply (stop_during_status_call env_stop_status image cfg0 (Some "KEY") None false
           "BASE64" op_started [] [op_started] forbidden []).
  - split; reflexivity.
  - reflexivity.
  - reflexivity.
  - reflexivity.
  - discriminate.
  - reflexivity.
  - repeat constructor.
Defined.

Lemma records_witness : well_formed (first_job after_reject).
Proof.
  apply (RecordFacts.job_records_are_consistent init_state after_reject
           (stop_events ++ [Rejected (AbortException "Aborted")])).
  - apply QueueRuns.initial_init_state.
  - vm_compute. reflexivity.
  - vm_compute. left. reflexivity.
Defined.

Lemma frozen_witness :
  first_job (handleRemoveJob after_reject "b") = first_job after_reject.
Proof.
  apply (RecordFacts.settled_jobs_are_frozen init_state after_reject
           (handleRemoveJob after_reject "b")
           (stop_events ++ [Rejected (AbortException "Aborted")]) (RemoveJob "b")).
  - apply QueueRuns.initial_init_state.
  - vm_compute. reflexivity.
  - reflexivity.
  - vm_compute. left. reflexivity.
  - right. reflexivity.
  - vm_compute. left. reflexivity.
  - reflexivity.
Defined.

Lemma card_witness :
  (status (first_job after_reject) = COMPLETED ->
   exists url, videoUrl (first_job after_reject) = Some url
               /\ JobCard.media (first_job after_reject) = JobCard.Player url)
  /\ (status (first_job after_reject) = FAILED ->
      exists msg, error (first_job after_reject) = Some msg
                  /\ JobCard.overlay (first_job after_reject) = JobCard.Failure msg).
Proof.
  apply (RecordFacts.card_shows_the_job init_state after_reject
           (stop_events ++ [Rejected (AbortException "Aborted")])).
  - apply QueueRuns.initial_init_state.
  - vm_compute. reflexivity.
  - vm_compute. left. reflexivity.
Defined.

Lemma cancellation_witness :
  idle (fst (fst (drive (env_retry_stop 2 :: [env_ok; env_ok]) snapshot)))
  /\ none_pending (fst (fst (drive (env_retry_stop 2 :: [env_ok; env_ok]) snapshot)))
  /\ snd (drive (env_retry_stop 2 :: [env_ok; env_ok]) snapshot)
     = trace (call_driver started (env_retry_stop 2) job_a)
  /\ autoStart (fst (fst (drive (env_retry_stop 2 :: [env_ok; env_ok]) snapshot)))
     = fst (fst (drive (env_retry_stop 2 :: [env_ok; env_ok]) snapshot)).
Proof.
  apply (PassFacts.cancellation_ends_the_pass (env_retry_stop 2) [env_ok; env_ok]
           snapshot started job_a (AbortException "Aborted")).
  - reflexivity.
  - reflexivity.
  - vm_compute. reflexivity.
  - reflexivity.
Defined.

Lemma failed_initialization_witness :
  trace (call_driver started env_nokey job_a) = []
  /\ run started (settle_events env_nokey (call_driver started env_nokey job_a))
     = Some (onRejected started job_a (Error msg_missing_credentials))
  /\ jobs (onRejected started job_a (Error msg_missing_credentials))
     = markFailed (id job_a) (e_message (Error msg_missing_credentials)) (jobs started)
  /\ isProcessing (onRejected started job_a (Error msg_missing_credentials))
     = isProcessing started
  /\ pendingJobs (onRejected started job_a (Error msg_missing_credentials))
     = pendingJobs started
  /\ current (onRejected started job_a (Error msg_missing_credentials)) = None
  /\ (showSettings (onRejected started job_a (Error msg_missing_credentials)) = true
      <-> showSettings started = true
          \/ Error msg_missing_credentials = Error msg_missing_credentials).
Proof.
  apply (SettingsFacts.failed_initialization env_nokey started job_a
           (Error msg_missing_credentials)).
  - reflexivity.
  - discriminate.
  - vm_compute. reflexivity.
Defined.

Lemma removed_job_witness :
  exists s',
    run snapshot [RemoveJob (id job_a); LoopHead] = Some s'
    /\ current s' = Some job_a /\ pendingJobs s' = [job_b; job_c]
    /\ ~ In (id job_a) (ids (jobs s'))
    /\ (exists effs,
          snd (drive (env_ok :: []) (handleRemoveJob snapshot (id job_a)))
          = trace (call_driver s' env_ok job_a) ++ effs)
    /\ (forall videoBlob, jobs (onResolved s' job_a videoBlob) = jobs s').
Proof.
  apply (SettingsFacts.removed_job_is_still_processed env_ok [] snapshot job_a
           [job_b; job_c]).
  - reflexivity.
  - reflexivity.
  - reflexivity.
  - discriminate.
Defined.

Lemma reachable_queued : reachable queued.
Proof.
  apply (reach_step init_state queued (AddFiles three_files)).
  - apply reach_initial, QueueRuns.initial_init_state.
  - exists (Some [image; image; image]). reflexivity.
  - reflexivity.
Defined.

Lemma reachable_started : reachable started.
Proof.
  apply (reach_step snapshot started LoopHead); [|exact I | reflexivity].
  apply (reach_step queued snapshot AutoStart); [|exact I | reflexivity].
  exact reachable_queued.
Defined.

Lemma processing_job_witness :
  exists j', In j' (jobs (handleRemoveJob started "b")) /\ id j' = id (first_job started).
Proof.
  apply (ViewFacts.processing_job_stays_in_queue started (handleRemoveJob started "b")
           (RemoveJob "b") (first_job started)).
  - exact reachable_started.
  - exists job_b. split; [vm_compute; right; left; reflexivity | split; reflexivity].
  - reflexivity.
  - vm_compute. left. reflexivity.
  - reflexivity.
Defined.

Lemma image_submission_witness :
  Js.startsWith (sr_mimeType (submit_request image cfg0 "BASE64")) "image/" = true.
Proof.
  apply (ViewFacts.every_submission_is_an_image [env_ok] queued
           (submit_request image cfg0 "BASE64")).
  - exact reachable_queued.
  - vm_compute. do 4 right. left. reflexivity.
Defined.

Lemma uncancelled_pass_witness :
  isProcessing (fst (fst (pass [env_ok; env_ok; env_ok] queued))) = false
  /\ none_pending (fst (fst (pass [env_ok; env_ok; env_ok] queued))).
Proof.
  apply (CompleteFacts.uncancelled_pass_settles_every_job [env_ok; env_ok; env_ok] queued).
  - reflexivity.
  - vm_compute. lia.
  - repeat constructor; intros job; vm_compute; discriminate.
Defined.

End MoreRuns.
